(** * radiantkit: segmentation and particle extraction

    A shallow embedding of the image model ([radiantkit/image.py]), the
    binarizer settings ([radiantkit/segmentation.py]) and the particle
    model and finder ([radiantkit/particle.py]), followed by the
    properties established for them.

    Conventions.
    - A numpy array is a shape together with its samples in C (row-major)
      order.  Samples are integers; a boolean array holds 0 and 1, which
      is how numpy compares them ([1 == True]).
    - A Python exception is a value of [exn]; a computation that may raise
      returns a [result].
    - Library functions of scikit-image ([label], [convex_hull_image],
      [threshold_local]) are arguments of the functions that call them. *)

From Stdlib Require Import String Ascii DecimalString QArith.
From Stdlib Require Import ZArith Arith List Bool Lia.
Import ListNotations.
Local Open Scope Z_scope.

(** ** Exceptions and results *)

Inductive exn : Type :=
| AssertionError (msg : string)
| ValueError
| IndexError
| NameError (name : string)
| AttributeError (name : string)
| OverflowError.

Inductive result (A : Type) : Type :=
| Ok (a : A)
| Raise (e : exn).
Arguments Ok {A} a.
Arguments Raise {A} e.

Definition bind {A B : Type} (c : result A) (k : A -> result B) : result B :=
  match c with
  | Ok a => k a
  | Raise e => Raise e
  end.

Notation "x <- c ;; k" := (bind c (fun x => k))
  (at level 61, c at next level, right associativity).

(** [assert cond, msg] *)
Definition assert (cond : bool) (msg : string) : result unit :=
  if cond then Ok tt else Raise (AssertionError msg).

Definition is_ok {A : Type} (r : result A) : bool :=
  match r with Ok _ => true | Raise _ => false end.

(** ** numpy arrays *)

Record ndarray : Type := mk_ndarray { shape : list nat; data : list Z }.

Definition size_of (sh : list nat) : nat := fold_right Nat.mul 1%nat sh.

(** The buffer holds exactly the samples the shape announces. *)
Definition wf (a : ndarray) : Prop := length (data a) = size_of (shape a).

Definition ndim (a : ndarray) : nat := length (shape a).

(** [a.min()] and [a.max()]: numpy raises ValueError on an empty array. *)
Definition amin (a : ndarray) : result Z :=
  match data a with
  | [] => Raise ValueError
  | x :: xs => Ok (fold_left Z.min xs x)
  end.

Definition amax (a : ndarray) : result Z :=
  match data a with
  | [] => Raise ValueError
  | x :: xs => Ok (fold_left Z.max xs x)
  end.

(** [a > v], [a == v] and [a[a == v] = 0], sample by sample. *)
Definition gt_scalar (a : ndarray) (v : Z) : ndarray :=
  mk_ndarray (shape a) (map (fun x => if x >? v then 1 else 0) (data a)).

Definition eq_scalar (a : ndarray) (v : Z) : ndarray :=
  mk_ndarray (shape a) (map (fun x => if x =? v then 1 else 0) (data a)).

Definition zero_where_eq (a : ndarray) (v : Z) : ndarray :=
  mk_ndarray (shape a) (map (fun x => if x =? v then 0 else x) (data a)).

(** Number of non-zero samples: [a.sum()] of a boolean array. *)
Definition count_nonzero (l : list Z) : nat :=
  length (filter (fun x => negb (x =? 0)) l).

(** Number of samples equal to [v]. *)
Definition count_eq (v : Z) (l : list Z) : nat :=
  length (filter (fun x => x =? v) l).

(** [np.unique]: the distinct samples in ascending order. *)
Fixpoint insert_unique (v : Z) (l : list Z) : list Z :=
  match l with
  | [] => [v]
  | x :: xs =>
      if v <? x then v :: l
      else if v =? x then l
      else x :: insert_unique v xs
  end.

Definition unique (l : list Z) : list Z := fold_right insert_unique [] l.

(** Coordinates of the sample stored at position [i] of the buffer. *)
Fixpoint unravel (sh : list nat) (i : nat) : list nat :=
  match sh with
  | [] => []
  | d :: sh' =>
      (i / size_of sh')%nat :: unravel sh' (i mod size_of sh')%nat
  end.

Definition indexed {A : Type} (l : list A) : list (nat * A) :=
  combine (seq 0 (length l)) l.

(** The samples whose buffer position satisfies [f], in buffer order. *)
Definition select {A : Type} (f : nat -> bool) (l : list A) : list A :=
  map snd (filter (fun p => f (fst p)) (indexed l)).

(** [a[0]]: the first item along the first axis. *)
Definition getitem0 (a : ndarray) : result ndarray :=
  match shape a with
  | [] => Raise IndexError
  | O :: _ => Raise IndexError
  | S _ :: sh' => Ok (mk_ndarray sh' (firstn (size_of sh') (data a)))
  end.

(** The sample stored at position [i] has coordinate [k] on axis [axis]. *)
Definition at_index (sh : list nat) (axis k i : nat) : bool :=
  Nat.eqb (nth axis (unravel sh i) 0%nat) k.

(** [a[..., k, ...]] with the integer [k] on axis [axis] and full slices
    elsewhere, flattened.  A negative [k] counts from the end; an index
    outside the axis raises IndexError. *)
Definition take_axis (a : ndarray) (axis : nat) (k : Z) : result (list Z) :=
  let n := Z.of_nat (nth axis (shape a) 0%nat) in
  let k' := if k <? 0 then n + k else k in
  if (0 <=? k') && (k' <? n)
  then Ok (select (at_index (shape a) axis (Z.to_nat k')) (data a))
  else Raise IndexError.

(** [a >= t], sample by sample. *)
Definition ge_array (a t : ndarray) : ndarray :=
  mk_ndarray (shape a)
    (map (fun p => if fst p >=? snd p then 1 else 0) (combine (data a) (data t))).

(** The [n] consecutive blocks of [k] samples of a buffer. *)
Fixpoint chunks (n k : nat) (l : list Z) : list (list Z) :=
  match n with
  | O => []
  | S n' => firstn k l :: chunks n' k (skipn k l)
  end.

(** [for s in range(a.shape[0]): a[s, :, :] = f(a[s, :, :])] *)
Definition map_slices (f : ndarray -> ndarray) (a : ndarray) : ndarray :=
  let sh' := tl (shape a) in
  mk_ndarray (shape a)
    (concat (map (fun c => data (f (mk_ndarray sh' c)))
                 (chunks (hd 0%nat (shape a)) (size_of sh') (data a)))).

(** Evaluating a name that no scope binds. *)
Definition unbound {A : Type} (name : string) : result A :=
  Raise (NameError name).

(** Python truth value of an [Optional[str]]: [None] and the empty string
    are false. *)
Definition truthy (s : option string) : bool :=
  match s with
  | None => false
  | Some EmptyString => false
  | Some _ => true
  end.

(** ** radiantkit/image.py *)

(** What the image store answers: [os.path.isfile] and [skimage.io.imread]. *)
Record world : Type := mk_world {
  isfile : string -> bool;
  imread : string -> result ndarray
}.

(** [extract_nd]: drop leading axes until the rank is at most [nd]. *)
Fixpoint extract_nd_loop (fuel : nat) (I : ndarray) (nd : nat) : result ndarray :=
  if (ndim I <=? nd)%nat then Ok I
  else match fuel with
       | O => Ok I
       | S fuel' => I' <- getitem0 I ;; extract_nd_loop fuel' I' nd
       end.

Definition extract_nd (I : ndarray) (nd : nat) : result ndarray :=
  extract_nd_loop (ndim I) I nd.

(** Instance state of [ImageBase]; [_pixels = None] is [None] in Python. *)
Record ImageBase : Type := mk_ImageBase {
  _axes_order : string;
  _path_to_local : option string;
  _pixels : option ndarray
}.

Definition set_pixels (self : ImageBase) (px : option ndarray) : ImageBase :=
  mk_ImageBase (_axes_order self) (_path_to_local self) px.

(** [ImageSettings.nd] *)
Definition nd (self : ImageBase) : nat := String.length (_axes_order self).

(** [ImageSettings._axes_order], the class default. *)
Definition TZYX : string := "TZYX".

(** [self._pixels] where the code needs an array. *)
Definition the_pixels (self : ImageBase) : result ndarray :=
  match _pixels self with
  | Some px => Ok px
  | None => Raise (AttributeError "NoneType")
  end.

(** [ImageBase._extract_nd].  The assignment
    [self._axes_order = self._axes_order[-self.nd:]] keeps the last
    [len(_axes_order)] characters of [_axes_order]: the string itself. *)
Definition _extract_nd (self : ImageBase) : result ImageBase :=
  px <- the_pixels self ;;
  px' <- extract_nd px (nd self) ;;
  Ok (set_pixels self (Some px')).

(** [ImageBase.__init__(pixels, path)], for a class whose [_axes_order] is
    [axes].  The argument [path] is never stored: [_path_to_local] keeps
    the class default [None]. *)
Definition ImageBase_init (axes : string) (pixels : ndarray)
    (path : option string) : result ImageBase :=
  _extract_nd (mk_ImageBase axes None (Some pixels)).

(** [read_tiff] *)
Definition read_tiff (w : world) (path : string) : result ndarray :=
  _ <- assert (isfile w path) ("file not found: '" ++ path ++ "'") ;;
  imread w path.

(** [ImageBase.from_tiff] *)
Definition from_tiff (w : world) (path : string) : result ImageBase :=
  I <- read_tiff w path ;;
  ImageBase_init TZYX I (Some path).

(** [ImageBase.load_from_local]: the image built by [from_tiff] is not
    bound to anything, so [self] is returned as it was. *)
Definition load_from_local (w : world) (self : ImageBase) : result ImageBase :=
  match _path_to_local self with
  | None => Raise (AssertionError "")
  | Some p =>
      _ <- assert (isfile w p) "" ;;
      _ <- from_tiff w p ;;
      Ok self
  end.

(** [ImageBase.pixels], the property: the state after the access and the
    value returned. *)
Definition pixels (w : world) (self : ImageBase)
  : result (ImageBase * option ndarray) :=
  match _pixels self, _path_to_local self with
  | None, Some _ =>
      self' <- load_from_local w self ;;
      Ok (self', _pixels self')
  | _, _ => Ok (self, _pixels self)
  end.

(** [ImageBase.unload]: the state after the call and the records written
    by [logging.error]. *)
Definition unload (w : world) (self : ImageBase) (log : list string)
  : ImageBase * list string :=
  match _path_to_local self with
  | None =>
      (self, log ++ ["cannot unload Image without path_to_local."%string])
  | Some p =>
      if negb (isfile w p)
      then (self, log ++ [("path_to_local not found, cannot unload: " ++ p)%string])
      else (set_pixels self None, log)
  end.

(** [ImageBinary._rebinarize] *)
Definition _rebinarize (self : ImageBase) : result ImageBase :=
  px <- the_pixels self ;;
  m <- amin px ;;
  Ok (set_pixels self (Some (gt_scalar px m))).

(** [ImageBinary.__init__(pixels, path, doRebinarize)] *)
Definition ImageBinary_init (pixels : ndarray) (path : option string)
    (doRebinarize : bool) : result ImageBase :=
  self <- ImageBase_init TZYX pixels path ;;
  self <- (if doRebinarize then _rebinarize self else Ok self) ;;
  px <- the_pixels self ;;
  m <- amax px ;;
  _ <- assert (1 =? m) "" ;;
  Ok self.

(** [threshold_adaptive].  After the assertion the code reads [i.shape];
    the parameter is [I] and nothing binds [i]. *)
Definition threshold_adaptive_slice (threshold_local : ndarray -> Z -> ndarray)
    (I : ndarray) (block_size : Z) : ndarray :=
  ge_array I (threshold_local I block_size).

Definition threshold_adaptive (threshold_local : ndarray -> Z -> ndarray)
    (I : ndarray) (block_size : Z) : result ndarray :=
  _ <- assert (0 =? block_size mod 2) "" ;;
  i <- unbound "i" ;;
  if (2 =? ndim i)%nat
  then Ok (threshold_adaptive_slice threshold_local I block_size)
  else
    i <- unbound "i" ;;
    if (3 =? ndim i)%nat
    then Ok (map_slices
               (fun s => threshold_adaptive_slice threshold_local s block_size) I)
    else unbound "mask".

(** [Image.threshold_adaptive].  On an unloaded image [self.pixels] is
    [None], which [threshold_adaptive] receives as it is: it does not
    look at its argument before it reads [i]. *)
Definition Image_threshold_adaptive (threshold_local : ndarray -> Z -> ndarray)
    (w : world) (self : ImageBase) (block_size : Z) : result ImageBase :=
  r <- pixels w self ;;
  mask <- match snd r with
          | Some px => threshold_adaptive threshold_local px block_size
          | None =>
              _ <- assert (0 =? block_size mod 2) "" ;;
              unbound "i"
          end ;;
  ImageBinary_init mask None false.

(** [for lab in border_labels: L[L == lab] = 0] *)
Definition zero_labels (labs : list Z) (L : ndarray) : ndarray :=
  fold_left zero_where_eq labs L.

(** [set(border_labels)]: each value once. *)
Definition set_of (l : list Z) : list Z := nodup Z.eq_dec l.

(** The sample at buffer position [i] lies on a face of the array
    (first or last index of some axis). *)
Definition on_border (sh : list nat) (i : nat) : bool :=
  existsb (fun p => Nat.eqb (fst p) 0 || Nat.eqb (fst p) (snd p - 1))
          (combine (unravel sh i) sh).

(** [skimage.segmentation.clear_border(image)] with its default arguments
    ([buffer_size=0], [bgval=0]), as the library computes it from its
    [label]: relabel, collect the labels met on the faces, and set to 0
    every sample whose label is one of them. *)
Definition clear_border (label : ndarray -> ndarray) (image : ndarray)
  : result ndarray :=
  if existsb (Nat.eqb 0) (shape image) then Raise ValueError
  else
    let labels := label image in
    let borders_indices := unique (select (on_border (shape image)) (data labels)) in
    Ok (mk_ndarray (shape image)
          (map (fun p => if existsb (Z.eqb (snd p)) borders_indices
                         then 0 else fst p)
               (combine (data image) (data labels)))).

(** The labels collected from the row and column faces of a stack. *)
Definition XY_border_labels (L : ndarray) : result (list Z) :=
  a <- take_axis L 1 0 ;;
  b <- take_axis L 1 (-1) ;;
  c <- take_axis L 2 0 ;;
  d <- take_axis L 2 (-1) ;;
  Ok (set_of (unique a ++ unique b ++ unique c ++ unique d)).

(** The labels collected from the first and last depth slice. *)
Definition Z_border_labels (L : ndarray) : result (list Z) :=
  a <- take_axis L 0 0 ;;
  b <- take_axis L 0 (-1) ;;
  Ok (set_of (unique a ++ unique b)).

(** [clear_XY_borders].  The warning logged for other ranks is not
    modelled. *)
Definition clear_XY_borders (label : ndarray -> ndarray) (L : ndarray)
  : result ndarray :=
  if (2 =? ndim L)%nat then clear_border label L
  else if (3 =? ndim L)%nat then
    border_labels <- XY_border_labels L ;;
    Ok (label (zero_labels border_labels L))
  else Ok L.

(** [clear_Z_borders] *)
Definition clear_Z_borders (label : ndarray -> ndarray) (L : ndarray)
  : result ndarray :=
  if (2 =? ndim L)%nat then Ok L
  else if (3 =? ndim L)%nat then
    border_labels <- Z_border_labels L ;;
    Ok (label (zero_labels border_labels L))
  else Ok L.

(** [ImageLabeled._relabel] and [ImageLabeled.__init__] *)
Definition _relabel (label : ndarray -> ndarray) (self : ImageBase)
  : result ImageBase :=
  px <- the_pixels self ;;
  m <- amin px ;;
  Ok (set_pixels self (Some (label (gt_scalar px m)))).

Definition ImageLabeled_init (label : ndarray -> ndarray) (pixels : ndarray)
    (path : option string) (doRelabel : bool) : result ImageBase :=
  self <- ImageBase_init TZYX pixels path ;;
  if doRelabel then _relabel label self else Ok self.

(** ** radiantkit/segmentation.py *)

Record BinarizerSettings : Type := mk_BinarizerSettings {
  do_global : bool;
  do_local : bool;
  _local_side : Z;
  local_closing : bool;
  do_clear_XY_borders : bool;
  do_clear_Z_borders : bool;
  do_fill_holes : bool
}.

(** The class attributes. *)
Definition BinarizerSettings_default : BinarizerSettings :=
  mk_BinarizerSettings true true 101 true true false true.

(** [BinarizerSettings.local_side], the property. *)
Definition local_side (self : BinarizerSettings) : Z := _local_side self.

(** [BinarizerSettings.local_side], the setter. *)
Definition set_local_side (self : BinarizerSettings) (value : Z)
  : BinarizerSettings :=
  let value := if negb (0 =? value mod 2) then value + 1 else value in
  mk_BinarizerSettings (do_global self) (do_local self) value
    (local_closing self) (do_clear_XY_borders self)
    (do_clear_Z_borders self) (do_fill_holes self).

(** [tiff_segment.py] checks its [--neighbour] argument with
    [assert 1 == args.neighbour % 2] before it assigns it to the
    binarizer. *)
Definition check_neighbour (neighbour : Z) : result unit :=
  assert (1 =? neighbour mod 2) "".

(** ** radiantkit/particle.py *)

(** Modelled from the spec: [radiantkit.selection.BoundingElement] is not
    part of the sources.  The spec describes it as the axis-aligned minimal
    box, one [[start, end)] range per axis, that exactly contains the
    foreground voxels, and as a crop operator on arrays of the same
    shape. *)
Definition BoundingElement : Type := list (nat * nat).

Definition roi_shape (roi : BoundingElement) : list nat :=
  map (fun b => (snd b - fst b)%nat) roi.

(** Buffer positions of the non-zero samples. *)
Definition fg_positions (B : ndarray) : list nat :=
  map fst (filter (fun p => negb (snd p =? 0)) (indexed (data B))).

Definition min_list (l : list nat) : nat :=
  match l with
  | [] => 0%nat
  | x :: xs => fold_left Nat.min xs x
  end.

Definition axis_bounds (B : ndarray) (axis : nat) : nat * nat :=
  let cs := map (fun i => nth axis (unravel (shape B) i) 0%nat) (fg_positions B) in
  match cs with
  | [] => (0%nat, 0%nat)
  | _ => (min_list cs, S (list_max cs))
  end.

(** [BoundingElement.from_binary_pixels] *)
Definition from_binary_pixels (B : ndarray) : BoundingElement :=
  map (axis_bounds B) (seq 0 (ndim B)).

Definition in_box (roi : BoundingElement) (coords : list nat) : bool :=
  forallb (fun p => Nat.leb (fst (fst p)) (snd p) && Nat.ltb (snd p) (snd (fst p)))
          (combine roi coords).

(** [BoundingElement.apply_to_pixels] *)
Definition apply_to_pixels (roi : BoundingElement) (a : ndarray) : ndarray :=
  mk_ndarray (roi_shape roi)
    (select (fun i => in_box roi (unravel (shape a) i)) (data a)).

Inductive ParticleClass : Type := Particle | Nucleus.

(** Instance state of a particle: the [ImageBinary] it extends, and the
    attributes of [ParticleBase].  [aspect] exists once the finder has
    assigned it; the voxel scales are rational numbers. *)
Record ParticleBase : Type := mk_ParticleBase {
  particle_class : ParticleClass;
  image : ImageBase;
  _region_of_interest : BoundingElement;
  idx : option Z;
  _total_size : option Z;
  aspect : option (list Q)
}.

Definition list_nat_eqb (a b : list nat) : bool :=
  if list_eq_dec Nat.eq_dec a b then true else false.

(** What the assertion of [ParticleBase.__init__] carries: the pair
    [(pixels.shape, roi)].  Its text depends on how a [BoundingElement]
    prints, which the sources do not say; it is given by the expression. *)
Definition shape_mismatch_msg : string := "(pixels.shape, roi)".

(** [ParticleBase.__init__(pixels, roi, axes)].  It calls
    [ImageBinary.__init__(pixels, None, axes)], whose third parameter is
    [doRebinarize]: the axes string is read as that flag. *)
Definition ParticleBase_init (cls : ParticleClass) (pixels : ndarray)
    (roi : BoundingElement) (axes : option string) : result ParticleBase :=
  _ <- assert (list_nat_eqb (shape pixels) (roi_shape roi))
         shape_mismatch_msg ;;
  img <- ImageBinary_init pixels None (truthy axes) ;;
  Ok (mk_ParticleBase cls img roi None None None).

(** Modelled from the spec: [ImageBinary.foreground] is not part of the
    sources.  The spec describes it as the total foreground voxel count of
    the occupancy mask. *)
Definition foreground (self : ParticleBase) : result Z :=
  px <- the_pixels (image self) ;;
  Ok (Z.of_nat (count_nonzero (data px))).

(** [ParticleBase.total_size], the cached property: the state after the
    access and the value. *)
Definition total_size (self : ParticleBase) : result (ParticleBase * Z) :=
  match _total_size self with
  | Some n => Ok (self, n)
  | None =>
      n <- foreground self ;;
      Ok (mk_ParticleBase (particle_class self) (image self)
            (_region_of_interest self) (idx self) (Some n) (aspect self), n)
  end.

(** *** IEEE 754 binary64, the [float] of Python and [numpy.float64]

    A finite float is the number [m * 2^e].  The sign of a zero is not
    represented: no operation below depends on it. *)
Inductive float64 : Type :=
| Finite (m e : Z)
| Infinity (negative : bool)
| NaN.

(** [2^e] as a rational. *)
Definition pow2 (e : Z) : Q :=
  if 0 <=? e then inject_Z (2 ^ e) else 1 # Z.to_pos (2 ^ (- e)).

(** The number that the finite float [m * 2^e] stands for. *)
Definition float_value (m e : Z) : Q := inject_Z m * pow2 e.

(** The largest [l] with [2^l <= n / d], for positive [n] and [d]. *)
Definition floor_log2 (n d : Z) : Z :=
  let l := Z.log2 n - Z.log2 d in
  if (if 0 <=? l then d * 2 ^ l <=? n else d <=? n * 2 ^ (- l))
  then l else l - 1.

(** The integer nearest to [N / D], the even one in case of a tie
    ([0 <= N], [0 < D]). *)
Definition round_half_even (N D : Z) : Z :=
  let q := N / D in
  let r := N mod D in
  if 2 * r <? D then q
  else if D <? 2 * r then q + 1
  else if Z.even q then q else q + 1.

(** Rounding to the nearest float, ties to even: 53 significant bits,
    exponents from -1074 on, and infinity from [2^1024] on. *)
Definition float64_of_Q (x : Q) : float64 :=
  let x := Qred x in
  let n := Z.abs (Qnum x) in
  let d := Z.pos (Qden x) in
  if n =? 0 then Finite 0 0
  else
    let e := Z.max (floor_log2 n d - 52) (-1074) in
    let m := if 0 <=? e then round_half_even n (d * 2 ^ e)
             else round_half_even (n * 2 ^ (- e)) d in
    if (0 <=? e) && (2 ^ 1024 <=? m * 2 ^ e)
    then Infinity (Qnum x <? 0)
    else Finite (Z.sgn (Qnum x) * m) e.

(** The product of two floats. *)
Definition fmul (a b : float64) : float64 :=
  match a, b with
  | NaN, _ => NaN
  | _, NaN => NaN
  | Infinity s, Infinity t => Infinity (xorb s t)
  | Infinity s, Finite m _ =>
      if m =? 0 then NaN else Infinity (xorb s (m <? 0))
  | Finite m _, Infinity s =>
      if m =? 0 then NaN else Infinity (xorb (m <? 0) s)
  | Finite m e, Finite m' e' =>
      float64_of_Q (float_value m e * float_value m' e')
  end.

(** The float of a Python integer; an integer beyond the range of the
    floats raises OverflowError. *)
Definition float_of_int (n : Z) : result float64 :=
  match float64_of_Q (inject_Z n) with
  | Infinity _ => Raise OverflowError
  | f => Ok f
  end.

(** [np.prod] of an array of floats: the running product from the first
    one on, and 1.0 for an empty array. *)
Definition prod (l : list float64) : float64 :=
  match l with
  | [] => float64_of_Q 1
  | a :: l' => fold_left fmul l' a
  end.

(** Truncation of a rational towards zero. *)
Definition truncate (x : Q) : Z := Z.quot (Qnum x) (Z.pos (Qden x)).

(** Python's [int(x)] on a float: truncation towards zero; infinities
    raise OverflowError and NaN raises ValueError. *)
Definition int (x : float64) : result Z :=
  match x with
  | Finite m e => Ok (truncate (float_value m e))
  | Infinity _ => Raise OverflowError
  | NaN => Raise ValueError
  end.

(** [ParticleBase.volume]: [int(self.total_size * np.prod(self.aspect))].
    The aspect ratios are floats, given by the rationals they are read
    from. *)
Definition volume (self : ParticleBase) : result Z :=
  r <- total_size self ;;
  match aspect self with
  | None => Raise (AttributeError "aspect")
  | Some a =>
      n <- float_of_int (snd r) ;;
      int (fmul n (prod (map float64_of_Q a)))
  end.

(** [a.sum()] *)
Definition asum (a : ndarray) : Z := fold_right Z.add 0 (data a).

(** [ParticleBase.shape_descriptor].  [sphericity] stands for the value of
    the 3-D branch, [sphere_surface / self.surface], which is computed from
    the marching-cubes mesh. *)
Definition shape_descriptor (convex_hull_image : ndarray -> ndarray)
    (sphericity : ParticleBase -> Q) (self : ParticleBase) : result Q :=
  px <- the_pixels (image self) ;;
  if (2 =? ndim px)%nat then
    let convex_size := asum (convex_hull_image px) in
    r <- total_size self ;;
    Ok (inject_Z (snd r) / inject_Z convex_size)%Q
  else if (3 =? ndim px)%nat then Ok (sphericity self)
  else Ok 0%Q.

(** What the finder reads from the labeled image [L]: [L.pixels], and the
    attributes [L.axes] and [L.aspect], which the image classes of the
    sources do not define and are taken as given. *)
Record Labeled : Type := mk_Labeled {
  L_pixels : ndarray;
  L_axes : option string;
  L_aspect : list Q
}.

(** The body of the loop of [get_particles_from_labeled_image], over the
    labels that remain. *)
Fixpoint extract_labels (L : Labeled) (particleClass : ParticleClass)
    (labels : list Z) (boxed_particles : list ParticleBase)
  : result (list ParticleBase) :=
  match labels with
  | [] => Ok boxed_particles
  | particle_label :: rest =>
      if 0 =? particle_label
      then extract_labels L particleClass rest boxed_particles
      else
        let binary_pixels := eq_scalar (L_pixels L) particle_label in
        let roi := from_binary_pixels binary_pixels in
        particle <- ParticleBase_init particleClass
                      (apply_to_pixels roi binary_pixels) roi (L_axes L) ;;
        let particle :=
          mk_ParticleBase (particle_class particle) (image particle)
            (_region_of_interest particle) (Some particle_label)
            (_total_size particle) (Some (L_aspect L)) in
        extract_labels L particleClass rest (boxed_particles ++ [particle])
  end.

(** [ParticleFinder.get_particles_from_labeled_image] *)
Definition get_particles_from_labeled_image (L : Labeled)
    (particleClass : ParticleClass) : result (list ParticleBase) :=
  mn <- amin (L_pixels L) ;;
  mx <- amax (L_pixels L) ;;
  _ <- assert (negb (mn =? mx)) "monochromatic image detected." ;;
  extract_labels L particleClass (unique (data (L_pixels L))) [].

(** [ParticleFinder.get_particles_from_binary_image]: [B.label()] builds
    [ImageLabeled(B.pixels)]. *)
Definition get_particles_from_binary_image (label : ndarray -> ndarray)
    (B : ndarray) (axes : option string) (aspect : list Q)
    (particleClass : ParticleClass) : result (list ParticleBase) :=
  L <- ImageLabeled_init label B None true ;;
  px <- the_pixels L ;;
  get_particles_from_labeled_image (mk_Labeled px axes aspect) particleClass.

(** ** Predicates used in the statements *)

(** All samples equal to [v]. *)
Definition constant (v : Z) (l : list Z) : Prop := forall x, In x l -> x = v.

(** Samples restricted to 0 and 1. *)
Definition binary (l : list Z) : Prop := forall x, In x l -> x = 0 \/ x = 1.

(** The message of the assertion that opens the finder. *)
Definition monochromatic_msg : string := "monochromatic image detected.".

(** A store in which [p] is the one file, holding [original]. *)
Definition single_file (p : string) (original : ndarray) : world :=
  mk_world (String.eqb p) (fun _ => Ok original).

(** What the documentation of [skimage.morphology.convex_hull_image]
    promises about the hull [h] of a mask [m]: a boolean image of the same
    size that is true wherever the mask is. *)
Definition hull_of (m h : list Z) : Prop :=
  Forall2 (fun x y => (y = 0 \/ y = 1) /\ (x <> 0 -> y = 1)) m h.

(** The hull adds no voxel to the occupancy: the occupancy is convex. *)
Definition perfectly_convex (m h : list Z) : Prop :=
  Forall2 (fun x y => y <> 0 -> x <> 0) m h.

(** A hull that meets the contract on every mask: the whole frame, which
    is the convex hull of a mask that holds the four corners of its
    frame. *)
Definition full_frame (m : ndarray) : ndarray :=
  mk_ndarray (shape m) (map (fun _ => 1) (data m)).

(** Strictly ascending: every sample is below all that follow. *)
Fixpoint ascending (l : list Z) : Prop :=
  match l with
  | [] => True
  | x :: xs => (forall y, In y xs -> x < y) /\ ascending xs
  end.

(** The labels the finder builds a particle for. *)
Definition particle_labels (px : ndarray) : list Z :=
  filter (fun v => negb (0 =? v)) (unique (data px)).

(** The occupancy mask of [lab], cropped to its bounding box. *)
Definition cropped_mask (px : ndarray) (lab : Z) : ndarray :=
  apply_to_pixels (from_binary_pixels (eq_scalar px lab)) (eq_scalar px lab).

(** What the finder promises of the particle of label [lab]. *)
Definition particle_of (L : Labeled) (lab : Z) (p : ParticleBase) : Prop :=
  idx p = Some lab /\ aspect p = Some (L_aspect L) /\
  _region_of_interest p = from_binary_pixels (eq_scalar (L_pixels L) lab) /\
  exists p',
    total_size p = Ok (p', Z.of_nat (count_eq lab (data (L_pixels L)))).

(** [nth] sample of the buffer. *)
Definition get (a : ndarray) (i : nat) : Z := nth i (data a) 0.

(** ** The contract of [skimage.measure.label]

    The documentation of the library: two voxels are connected when they
    are neighbours (with the default, full connectivity: no coordinate
    differs by more than one) and have the same value; background voxels,
    of value 0, are labeled 0; every connected region of another value
    receives one integer label, the labels being 1, 2, ... in the order in
    which the regions are first met in the buffer. *)

Definition adjacent (sh : list nat) (i j : nat) : Prop :=
  Forall2 (fun a b => a <= S b /\ b <= S a)%nat (unravel sh i) (unravel sh j).

Inductive connected (X : ndarray) : nat -> nat -> Prop :=
| connected_refl (i : nat) : connected X i i
| connected_step (i j k : nat) :
    connected X i j -> (k < length (data X))%nat ->
    adjacent (shape X) j k -> get X j = get X k ->
    connected X i k.

(** The largest label among the first [i] samples (0 if there is none). *)
Definition max_before (l : list Z) (i : nat) : Z :=
  fold_left Z.max (firstn i l) 0.

(** Labels are numbered in order of first appearance. *)
Definition numbered_in_order (l : list Z) : Prop :=
  forall i, (i < length l)%nat -> 0 <= nth i l 0 <= max_before l i + 1.

Definition is_labelling (X R : ndarray) : Prop :=
  shape R = shape X /\
  length (data R) = length (data X) /\
  (forall i, (i < length (data X))%nat -> (get R i = 0 <-> get X i = 0)) /\
  (forall i j, (i < length (data X))%nat -> (j < length (data X))%nat ->
               get X i <> 0 -> get X j <> 0 ->
               (get R i = get R j <-> connected X i j)) /\
  numbered_in_order (data R).

(** [label] behaves as the library documents on the array [X]. *)
Definition labels_correctly (label : ndarray -> ndarray) (X : ndarray) : Prop :=
  is_labelling X (label X).

(** The voxel stored at position [i] lies on a row or column face of a
    stack of shape [sh] (axes Z, Y, X). *)
Definition XY_face (sh : list nat) (i : nat) : bool :=
  at_index sh 1 0 i || at_index sh 1 (nth 1 sh 0 - 1)%nat i
  || at_index sh 2 0 i || at_index sh 2 (nth 2 sh 0 - 1)%nat i.

(** The voxel stored at position [i] lies on the first or last depth
    slice. *)
Definition Z_face (sh : list nat) (i : nat) : bool :=
  at_index sh 0 0 i || at_index sh 0 (nth 0 sh 0 - 1)%nat i.

(** The array that a run of [clear_XY_borders] (of [clear_Z_borders])
    hands to [label]. *)
Definition XY_label_input (L : ndarray) : ndarray :=
  if (3 =? ndim L)%nat
  then match XY_border_labels L with
       | Ok border_labels => zero_labels border_labels L
       | Raise _ => L
       end
  else L.

Definition Z_label_input (L : ndarray) : ndarray :=
  if (3 =? ndim L)%nat
  then match Z_border_labels L with
       | Ok border_labels => zero_labels border_labels L
       | Raise _ => L
       end
  else L.

(** The labelling of an image that has at most one foreground voxel:
    that voxel is region 1. *)
Definition binarize (X : ndarray) : ndarray :=
  mk_ndarray (shape X) (map (fun x => if x =? 0 then 0 else 1) (data X)).

(** A 3 x 3 x 3 stack with the label 4 in a corner and the label 7 at the
    centre, and what clearing leaves of it. *)
Definition corner_and_centre : ndarray :=
  mk_ndarray [3; 3; 3]%nat
    [4; 0; 0;  0; 0; 0;  0; 0; 0;
     0; 0; 0;  0; 7; 0;  0; 0; 0;
     0; 0; 0;  0; 0; 0;  0; 0; 0].

Definition centre_only (v : Z) : ndarray :=
  mk_ndarray [3; 3; 3]%nat
    [0; 0; 0;  0; 0; 0;  0; 0; 0;
     0; 0; 0;  0; v; 0;  0; 0; 0;
     0; 0; 0;  0; 0; 0;  0; 0; 0].

(** ** Further definitions: images used in examples *)

(** A 3 x 3 labeled image with two labels, each with background inside
    its bounding box. *)
Definition two_diagonals : ndarray :=
  mk_ndarray [3; 3]%nat
    [1; 0; 2;
     0; 1; 0;
     2; 0; 0].

(** ** radiantkit/image.py: types of samples *)

(** ["uint%d" % (depth,)] *)
Definition format_uint (depth : Z) : string :=
  "uint" ++ NilZero.string_of_int (Z.to_int depth).

(** [get_dtype]: the loop over [depths = [8, 16]]. *)
Fixpoint get_dtype_loop (depths : list Z) (imax : Z) : string :=
  match depths with
  | [] => "uint"
  | depth :: rest =>
      if imax <=? 2 ^ depth - 1 then format_uint depth
      else get_dtype_loop rest imax
  end.

Definition get_dtype (imax : Z) : string := get_dtype_loop [8; 16] imax.

(** [ImageBase.dtype], the property: the state after the access (it reads
    [self.pixels]) and the value. *)
Definition dtype (w : world) (self : ImageBase) : result (ImageBase * string) :=
  r <- pixels w self ;;
  match snd r with
  | None => Raise (AttributeError "NoneType")
  | Some px => m <- amax px ;; Ok (fst r, get_dtype m)
  end.

(** ** radiantkit/image.py: morphology of binary masks *)

(** [skimage.morphology.square(width)] and [cube(width)]: arrays of ones. *)
Definition square (width : nat) : ndarray :=
  mk_ndarray [width; width] (repeat 1 (width * width)%nat).

Definition cube (width : nat) : ndarray :=
  mk_ndarray [width; width; width] (repeat 1 (width * width * width)%nat).

(** An operator of [skimage.morphology]: image and footprint to image. *)
Definition morphology : Type := ndarray -> ndarray -> ndarray.

(** [closing2], [opening2], [dilate] and [erode].  The second test reads
    [i.shape]; the parameter is [mask] and nothing binds [i].  The last
    branch only logs. *)
Definition closing2 (closing : morphology) (mask : ndarray) : result ndarray :=
  m <- amax mask ;;
  _ <- assert (1 =? m) "" ;;
  if (2 =? ndim mask)%nat then Ok (closing mask (square 3))
  else
    i <- unbound "i" ;;
    if (3 =? ndim i)%nat then Ok (closing mask (cube 3))
    else Ok mask.

Definition opening2 (opening : morphology) (mask : ndarray) : result ndarray :=
  m <- amax mask ;;
  _ <- assert (1 =? m) "" ;;
  if (2 =? ndim mask)%nat then Ok (opening mask (square 3))
  else
    i <- unbound "i" ;;
    if (3 =? ndim i)%nat then Ok (opening mask (cube 3))
    else Ok mask.

Definition dilate (dilation : morphology) (mask : ndarray) : result ndarray :=
  m <- amax mask ;;
  _ <- assert (1 =? m) "" ;;
  if (2 =? ndim mask)%nat then Ok (dilation mask (square 3))
  else
    i <- unbound "i" ;;
    if (3 =? ndim i)%nat then Ok (dilation mask (cube 3))
    else Ok mask.

Definition erode (erosion : morphology) (mask : ndarray) : result ndarray :=
  m <- amax mask ;;
  _ <- assert (1 =? m) "" ;;
  if (2 =? ndim mask)%nat then Ok (erosion mask (square 3))
  else
    i <- unbound "i" ;;
    if (3 =? ndim i)%nat then Ok (erosion mask (cube 3))
    else Ok mask.

(** [self._pixels = f(self._pixels)], as in [ImageBinary.close], [open],
    [dilate] and [erode]. *)
Definition update_pixels (f : ndarray -> result ndarray) (self : ImageBase)
  : result ImageBase :=
  px <- the_pixels self ;;
  px' <- f px ;;
  Ok (set_pixels self (Some px')).

Definition ImageBinary_close (closing : morphology) : ImageBase -> result ImageBase :=
  update_pixels (closing2 closing).

Definition ImageBinary_open (opening : morphology) : ImageBase -> result ImageBase :=
  update_pixels (opening2 opening).

Definition ImageBinary_dilate (dilation : morphology) : ImageBase -> result ImageBase :=
  update_pixels (dilate dilation).

Definition ImageBinary_erode (erosion : morphology) : ImageBase -> result ImageBase :=
  update_pixels (erode erosion).

(** [np.logical_not(a)] and [np.logical_and(a, b)] on arrays of one
    shape, sample by sample. *)
Definition logical_not (a : ndarray) : ndarray :=
  mk_ndarray (shape a) (map (fun x => if x =? 0 then 1 else 0) (data a)).

Definition logical_and (a b : ndarray) : ndarray :=
  mk_ndarray (shape a)
    (map (fun p => if negb (fst p =? 0) && negb (snd p =? 0) then 1 else 0)
         (combine (data a) (data b))).

(** [ImageBinary.invert].  On an unloaded image [np.logical_not(None)] is
    the scalar [True]. *)
Definition ImageBinary_invert (self : ImageBase) : ImageBase :=
  match _pixels self with
  | Some px => set_pixels self (Some (logical_not px))
  | None => set_pixels self (Some (mk_ndarray [] [1]))
  end.

(** [invert] on a particle: the method of [ImageBinary], which knows
    nothing of the attributes of [ParticleBase]. *)
Definition ParticleBase_invert (self : ParticleBase) : ParticleBase :=
  mk_ParticleBase (particle_class self) (ImageBinary_invert (image self))
    (_region_of_interest self) (idx self) (_total_size self) (aspect self).

(** ** radiantkit/segmentation.py: labels inherited from a 2-D mask *)

(** [a[m]] with a boolean array [m] of the shape of [a]: the selected
    samples, in buffer order, as a 1-D array. *)
Definition boolean_index (a m : ndarray) : ndarray :=
  let sel := map fst (filter (fun p => negb (snd p =? 0))
                             (combine (data a) (data m))) in
  mk_ndarray [length sel] sel.

(** [a[-n:]]: the last [n] items along the first axis (all of them when
    there are fewer), the other axes in full. *)
Definition last_items (n : nat) (a : ndarray) : ndarray :=
  match shape a with
  | [] => a
  | d0 :: sh' =>
      mk_ndarray (Nat.min n d0 :: sh')
        (skipn ((d0 - Nat.min n d0) * size_of sh') (data a))
  end.

(** [Binarizer.inherit_labels], a static method.  [per_slice] stands for
    lines 54 to 58, the loop that assigns to each slice of a copy of
    [mask]: the statements below show that it is never run.  The last
    branch reads [self], which a static method does not bind. *)
Definition inherit_labels (per_slice : ndarray -> ndarray -> result ndarray)
    (mask mask2d : ndarray) : result ndarray :=
  _ <- assert (2 =? ndim mask2d)%nat "" ;;
  if (2 =? ndim mask)%nat then
    _ <- assert (list_nat_eqb (shape mask2d) (shape mask)) "" ;;
    Ok (boolean_index mask2d
          (logical_and (gt_scalar mask 0) (gt_scalar mask2d 0)))
  else if (3 =? ndim mask)%nat then
    _ <- assert (list_nat_eqb (shape mask2d) (shape (last_items 2 mask))) "" ;;
    per_slice mask mask2d
  else
    self <- (unbound "self" : result unit) ;;
    Ok mask.

(** ** radiantkit/const.py and the projections of radiantkit/image.py *)

Inductive ProjectionType : Type := SUM_PROJECTION | MAX_PROJECTION.

(** The samples [a[0, ...], a[1, ...], ...] that lie over position [j] of
    the buffer of an item of [a]. *)
Definition column (a : ndarray) (j : nat) : list Z :=
  map (fun k => nth (k * size_of (tl (shape a)) + j) (data a) 0)
      (seq 0 (hd 0%nat (shape a))).

Definition sum_list (l : list Z) : Z := fold_right Z.add 0 l.

Definition max_list (l : list Z) : Z :=
  match l with
  | [] => 0
  | x :: xs => fold_left Z.max xs x
  end.

(** [a.sum(0)] and [a.max(0)].  An array of rank 0 is its own sum and
    maximum; the maximum along an empty axis raises ValueError, the sum
    along it is 0. *)
Definition sum0 (a : ndarray) : result ndarray :=
  match shape a with
  | [] => Ok a
  | _ :: sh' =>
      Ok (mk_ndarray sh'
            (map (fun j => sum_list (column a j)) (seq 0 (size_of sh'))))
  end.

Definition max0 (a : ndarray) : result ndarray :=
  match shape a with
  | [] => Ok a
  | O :: _ => Raise ValueError
  | S _ :: sh' =>
      Ok (mk_ndarray sh'
            (map (fun j => max_list (column a j)) (seq 0 (size_of sh'))))
  end.

(** [a.astype(t)], where [cast] converts one sample to the type [t]. *)
Definition astype (cast : Z -> Z) (a : ndarray) : ndarray :=
  mk_ndarray (shape a) (map cast (data a)).

(** [z_project].  [cast] is the conversion to [I.dtype];
    [projection_type] is [None] for a value that is neither member of
    [ProjectionType]. *)
Definition z_project (cast : Z -> Z) (I : ndarray)
    (projection_type : option ProjectionType) : result ndarray :=
  match projection_type with
  | Some SUM_PROJECTION => s <- sum0 I ;; Ok (astype cast s)
  | Some MAX_PROJECTION => m <- max0 I ;; Ok (astype cast m)
  | None => Ok I
  end.

(** ** radiantkit/image.py: writing an image *)

(** ["C" in s] *)
Fixpoint has_char (c : Ascii.ascii) (s : string) : bool :=
  match s with
  | EmptyString => false
  | String c' s' => Ascii.eqb c c' || has_char c s'
  end.

(** A value stored in the metadata of the file: a string, or what was
    given as [ResolutionZ] (a number, or [None]). *)
Inductive meta_value : Type :=
| MetaStr (s : string)
| MetaNum (z : option Q).

(** The call [tifffile.imsave(path, data, shape=, compress=, dtype=,
    imagej=, metadata=)] that [save_tiff] ends with. *)
Record imsave_call : Type := mk_imsave_call {
  call_path : string;
  call_data : ndarray;
  call_shape : list nat;
  call_compress : Z;
  call_dtype : string;
  call_imagej : bool;
  call_metadata : list (string * meta_value)
}.

(** [while len(bundled_axes) > len(I.shape): I.shape = [1] + I.shape] *)
Fixpoint pad_shape (fuel n : nat) (sh : list nat) : list nat :=
  if (length sh <? n)%nat
  then match fuel with
       | O => sh
       | S fuel' => pad_shape fuel' n (1%nat :: sh)
       end
  else sh.

(** [type(None) == ResolutionZ] compares the class [NoneType] with the
    value given, a number or [None]: they are never equal. *)
Definition is_NoneType (ResolutionZ : option Q) : bool := false.

(** [save_tiff].  [cast t] converts a sample to the type named [t].  The
    assignment to [I.shape] changes the array of the caller: the result is
    that array after the call, and the call to [tifffile.imsave].  Further
    keyword arguments are handed over as they are. *)
Definition save_tiff (cast : string -> Z -> Z) (path : string) (I : ndarray)
    (dtype : string) (compressed : bool) (bundled_axes : string)
    (inMicrons : bool) (ResolutionZ : option Q) (forImageJ : bool)
  : result (ndarray * imsave_call) :=
  let bundled_axes :=
    if negb (has_char "C"%char bundled_axes) then ("C" ++ bundled_axes)%string
    else bundled_axes in
  let I := mk_ndarray
             (pad_shape (String.length bundled_axes)
                        (String.length bundled_axes) (shape I))
             (data I) in
  _ <- assert (String.length bundled_axes =? ndim I)%nat
         "shape mismatch between bundled axes and image." ;;
  let metadata := [("axes"%string, MetaStr bundled_axes)] in
  let metadata :=
    if inMicrons then metadata ++ [("unit"%string, MetaStr "um")]
    else metadata in
  let metadata :=
    if negb (is_NoneType ResolutionZ)
    then metadata ++ [("spacing"%string, MetaNum ResolutionZ)]
    else metadata in
  if compressed
  then Ok (I, mk_imsave_call path (astype (cast dtype) I) (shape I) 9 dtype
                forImageJ metadata)
  else Ok (I, mk_imsave_call path (astype (cast dtype) I) (shape I) 0 dtype
                forImageJ metadata).

(** A row of three samples: the smallest, and two larger ones next to
    each other. *)
Definition touching_labels : ndarray := mk_ndarray [3%nat] [3; 5; 7].

(** ** radiantkit/series.py *)

(** A Python dict as the list of its items in insertion order. *)
Fixpoint dict_get {K V : Type} (eqb : K -> K -> bool) (k : K)
    (d : list (K * V)) : option V :=
  match d with
  | [] => None
  | (k', v) :: d' => if eqb k k' then Some v else dict_get eqb k d'
  end.

(** [d[k] = v]: the value of an existing key is replaced where it is, a
    new key goes to the end. *)
Fixpoint dict_set {K V : Type} (eqb : K -> K -> bool) (k : K) (v : V)
    (d : list (K * V)) : list (K * V) :=
  match d with
  | [] => [(k, v)]
  | (k', v') :: d' =>
      if eqb k k' then (k', v) :: d' else (k', v') :: dict_set eqb k v d'
  end.

(** A channel of a series: the path of its file, or the image once it has
    been read. *)
Inductive channel : Type :=
| ChannelPath (path : string)
| ChannelImage (img : ImageBase).

(** Instance state of [SeriesSettings]. *)
Record Series : Type := mk_Series {
  _ID : Z;
  _channels : list (string * channel);
  _mask : option channel;
  _ref : option string
}.

(** [SeriesSettings.channel_names] *)
Definition channel_names (self : Series) : list string :=
  map fst (_channels self).

(** [Image.from_tiff]: [Image(read_tiff(path), path)], where
    [Image.__init__] only calls the constructor of [ImageBase]. *)
Definition Image_from_tiff (w : world) (path : string) : result ImageBase :=
  I <- read_tiff w path ;;
  ImageBase_init TZYX I (Some path).

(** [SeriesSettings.init_channel] *)
Definition init_channel (w : world) (self : Series) (channel_name : string)
  : result Series :=
  match dict_get String.eqb channel_name (_channels self) with
  | Some (ChannelPath p) =>
      img <- Image_from_tiff w p ;;
      Ok (mk_Series (_ID self)
            (dict_set String.eqb channel_name (ChannelImage img)
                      (_channels self))
            (_mask self) (_ref self))
  | _ => Ok self
  end.

(** [SeriesSettings.get_channel]: the state after the call and the value
    returned ([None] when the method falls off its end). *)
Definition get_channel (w : world) (self : Series) (channel_name : string)
  : result (Series * option ImageBase) :=
  match dict_get String.eqb channel_name (_channels self) with
  | None => Ok (self, None)
  | Some c =>
      self <- match c with
              | ChannelPath _ => init_channel w self channel_name
              | ChannelImage _ => Ok self
              end ;;
      match dict_get String.eqb channel_name (_channels self) with
      | Some (ChannelImage img) => Ok (self, Some img)
      | _ => Ok (self, None)
      end
  end.

(** [k in d] *)
Definition dict_mem {K V : Type} (eqb : K -> K -> bool) (k : K)
    (d : list (K * V)) : bool :=
  match dict_get eqb k d with
  | Some _ => true
  | None => false
  end.

(** [os.path.join(a, b)] on POSIX paths. *)
Definition starts_with (c : ascii) (s : string) : bool :=
  match s with
  | EmptyString => false
  | String c' _ => Ascii.eqb c' c
  end.

Fixpoint ends_with (c : ascii) (s : string) : bool :=
  match s with
  | EmptyString => false
  | String c' EmptyString => Ascii.eqb c' c
  | String _ s' => ends_with c s'
  end.

Definition path_join (a b : string) : string :=
  if starts_with "/" b then b
  else if (String.length a =? 0)%nat || ends_with "/" a then (a ++ b)%string
  else (a ++ "/" ++ b)%string.

(** [SeriesSettings.__init__(ID, channel_paths, mask_path, inreg)].
    [get_image_details] (of [radiantkit.path], with [inreg] applied) gives
    the series number and the channel name that a file name encodes. *)
Definition Series_init (w : world) (get_image_details : string -> Z * string)
    (ID : Z) (channel_paths : list (string * string))
    (mask_path : option string) : result Series :=
  _ <- assert (forallb (fun kv => isfile w (snd kv)) channel_paths) "" ;;
  let channels := map (fun kv => (fst kv, ChannelPath (snd kv))) channel_paths in
  match mask_path with
  | None => Ok (mk_Series ID channels None None)
  | Some mask_path =>
      let ref := snd (get_image_details mask_path) in
      _ <- assert (dict_mem String.eqb ref channel_paths) "" ;;
      Ok (mk_Series ID channels (Some (ChannelPath mask_path)) (Some ref))
  end.

(** What [SeriesList.from_directory] writes to the log: the warnings of
    its two loops and the critical record before it exits. *)
Inductive log_record : Type :=
| MaskNotReference (channel_name : string) (ref : option string)
| MultipleMasks (series_id : Z) (mask_path : string)
| MultipleChannels (channel_name : string) (series_id : Z)
    (channel_path : string)
| MissingMask (ref : option string) (series_id : Z).

(** How a call ends: it returns, raises, or leaves the interpreter with
    [sys.exit()]. *)
Inductive outcome (A : Type) : Type :=
| Returned (a : A)
| Raised (e : exn)
| Exited.
Arguments Returned {A} a.
Arguments Raised {A} e.
Arguments Exited {A}.

(** [channel_name != ref], negated. *)
Definition is_ref (channel_name : string) (ref : option string) : bool :=
  match ref with
  | Some r => String.eqb channel_name r
  | None => false
  end.

(** The loop of [from_directory] over the masks. *)
Fixpoint collect_masks (get_image_details : string -> Z * string)
    (dpath : string) (ref : option string) (mask_list : list string)
    (mask_data : list (Z * string)) (log : list log_record)
  : list (Z * string) * list log_record :=
  match mask_list with
  | [] => (mask_data, log)
  | mask_path :: rest =>
      let (series_id, channel_name) := get_image_details mask_path in
      if negb (is_ref channel_name ref)
      then collect_masks get_image_details dpath ref rest mask_data
             (log ++ [MaskNotReference channel_name ref])
      else if dict_mem Z.eqb series_id mask_data
      then collect_masks get_image_details dpath ref rest mask_data
             (log ++ [MultipleMasks series_id mask_path])
      else collect_masks get_image_details dpath ref rest
             (dict_set Z.eqb series_id (path_join dpath mask_path) mask_data)
             log
  end.

(** The loop of [from_directory] over the channels. *)
Fixpoint collect_channels (get_image_details : string -> Z * string)
    (dpath : string) (channel_list : list string)
    (channel_data : list (Z * list (string * string)))
    (log : list log_record)
  : list (Z * list (string * string)) * list log_record :=
  match channel_list with
  | [] => (channel_data, log)
  | channel_path :: rest =>
      let (series_id, channel_name) := get_image_details channel_path in
      let channel_data :=
        if negb (dict_mem Z.eqb series_id channel_data)
        then dict_set Z.eqb series_id [] channel_data
        else channel_data in
      let channels :=
        match dict_get Z.eqb series_id channel_data with
        | Some channels => channels
        | None => []
        end in
      let log :=
        if dict_mem String.eqb channel_name channels
        then log ++ [MultipleChannels channel_name series_id channel_path]
        else log in
      collect_channels get_image_details dpath rest
        (dict_set Z.eqb series_id
           (dict_set String.eqb channel_name
              (path_join dpath channel_path) channels)
           channel_data)
        log
  end.

(** The last loop of [from_directory], over the keys of [channel_data]. *)
Fixpoint build_series (w : world) (get_image_details : string -> Z * string)
    (ref : option string) (mask_data : list (Z * string))
    (channel_data : list (Z * list (string * string)))
    (keys : list Z) (series_list : list Series) (log : list log_record)
  : outcome (list Series) * list log_record :=
  match keys with
  | [] => (Returned series_list, log)
  | series_id :: rest =>
      match dict_get Z.eqb series_id mask_data with
      | None => (Exited, log ++ [MissingMask ref series_id])
      | Some mask_path =>
          let channels :=
            match dict_get Z.eqb series_id channel_data with
            | Some channels => channels
            | None => []
            end in
          match Series_init w get_image_details series_id channels
                  (Some mask_path) with
          | Raise e => (Raised e, log)
          | Ok series =>
              build_series w get_image_details ref mask_data channel_data
                rest (series_list ++ [series]) log
          end
      end
  end.

(** [SeriesList.from_directory(dpath, inreg, ref, maskfix)].  [mask_list]
    and [channel_list] are what [select_by_prefix_and_suffix] makes of the
    files that [find_re] finds (both of [radiantkit.path]). *)
Definition from_directory (w : world)
    (get_image_details : string -> Z * string) (dpath : string)
    (mask_list channel_list : list string) (ref : option string)
    (log : list log_record) : outcome (list Series) * list log_record :=
  let (mask_data, log) :=
    collect_masks get_image_details dpath ref mask_list [] log in
  let (channel_data, log) :=
    collect_channels get_image_details dpath channel_list [] log in
  let channel_counts := map (fun kv => length (snd kv)) channel_data in
  if negb (length (nodup Nat.eq_dec channel_counts) =? 1)%nat
  then (Raised (AssertionError "inconsistent number of channels"), log)
  else build_series w get_image_details ref mask_data channel_data
         (map fst channel_data) [] log.

(** [p] is the last (the first) file of the list [l] whose name encodes
    the series and channel [key]. *)
Definition last_with (get_image_details : string -> Z * string)
    (key : Z * string) (l : list string) (p : string) : Prop :=
  get_image_details p = key /\
  exists l1 l2, l = l1 ++ p :: l2 /\
                forall q, In q l2 -> get_image_details q <> key.

Definition first_with (get_image_details : string -> Z * string)
    (key : Z * string) (l : list string) (p : string) : Prop :=
  get_image_details p = key /\
  exists l1 l2, l = l1 ++ p :: l2 /\
                forall q, In q l1 -> get_image_details q <> key.

(** The path kept for a channel name of a series. *)
Definition lookup2 (T : list (Z * list (string * string))) (sid : Z)
    (name : string) : option string :=
  match dict_get Z.eqb sid T with
  | Some channels => dict_get String.eqb name channels
  | None => None
  end.

(** ** radiantkit/image.py: binary images of a fixed rank *)

(** [ImageBinary2D.__init__]: the constructor of [ImageBinary], in a
    class whose [_axes_order] is "YX". *)
Definition ImageBinary2D_init (pixels : ndarray) (path : option string)
    (doRebinarize : bool) : result ImageBase :=
  self <- ImageBase_init "YX" pixels path ;;
  self <- (if doRebinarize then _rebinarize self else Ok self) ;;
  px <- the_pixels self ;;
  m <- amax px ;;
  _ <- assert (1 =? m) "" ;;
  Ok self.

(** [ImageBinary2D.from_tiff] *)
Definition ImageBinary2D_from_tiff (w : world) (path : string)
  : result ImageBase :=
  I <- read_tiff w path ;;
  ImageBinary2D_init I (Some path) true.

(** [ImageBinary3D.__init__]: the call to the constructor of
    [ImageBinary] names [doRebianrize], which nothing binds; the
    parameter is [doRebinarize]. *)
Definition ImageBinary3D_init (pixels : ndarray) (path : option string)
    (doRebinarize : bool) : result ImageBase :=
  doRebianrize <- unbound "doRebianrize" ;;
  self <- ImageBase_init "ZYX" pixels path ;;
  self <- (if (doRebianrize : bool) then _rebinarize self else Ok self) ;;
  px <- the_pixels self ;;
  m <- amax px ;;
  _ <- assert (1 =? m) "" ;;
  Ok self.

(** [ImageBinary3D.from_tiff] *)
Definition ImageBinary3D_from_tiff (w : world) (path : string)
  : result ImageBase :=
  I <- read_tiff w path ;;
  ImageBinary3D_init I (Some path) true.

(** * Properties *)

(** ** Results *)

Lemma bind_Ok {A B : Type} (c : result A) (k : A -> result B) (b : B) :
  bind c k = Ok b -> exists a, c = Ok a /\ k a = Ok b.
Proof. destruct c as [a|e]; simpl; intros H; [eauto | discriminate]. Qed.

Lemma bind_Raise {A B : Type} (c : result A) (k : A -> result B) (e : exn) :
  bind c k = Raise e -> c = Raise e \/ exists a, c = Ok a /\ k a = Raise e.
Proof.
  destruct c as [a|e']; simpl; intros H; [eauto|].
  left; inversion H; reflexivity.
Qed.

Lemma assert_Ok (cond : bool) (msg : string) (u : unit) :
  assert cond msg = Ok u -> cond = true.
Proof. destruct cond; simpl; [reflexivity | discriminate]. Qed.

Lemma assert_Raise (cond : bool) (msg : string) (e : exn) :
  assert cond msg = Raise e -> cond = false /\ e = AssertionError msg.
Proof. destruct cond; simpl; intros H; [discriminate | inversion H; auto]. Qed.

(** ** Minimum and maximum of a buffer *)

Lemma fold_max_ge_init (xs : list Z) (x : Z) : x <= fold_left Z.max xs x.
Proof.
  revert x; induction xs as [|y ys IH]; intros x; simpl; [lia|].
  specialize (IH (Z.max x y)); lia.
Qed.

Lemma fold_max_ge (xs : list Z) (x y : Z) :
  In y xs -> y <= fold_left Z.max xs x.
Proof.
  revert x; induction xs as [|z zs IH]; intros x Hin; simpl; [destruct Hin|].
  destruct Hin as [->|Hin]; [|auto].
  pose proof (fold_max_ge_init zs (Z.max x y)); lia.
Qed.

Lemma fold_max_In (xs : list Z) (x : Z) : In (fold_left Z.max xs x) (x :: xs).
Proof.
  revert x; induction xs as [|y ys IH]; intros x; simpl; [auto|].
  destruct (IH (Z.max x y)) as [H|H]; [|auto].
  rewrite <- H. destruct (Z.max_spec x y) as [[_ ->]|[_ ->]]; auto.
Qed.

Lemma fold_min_le_init (xs : list Z) (x : Z) : fold_left Z.min xs x <= x.
Proof.
  revert x; induction xs as [|y ys IH]; intros x; simpl; [lia|].
  specialize (IH (Z.min x y)); lia.
Qed.

Lemma fold_min_le (xs : list Z) (x y : Z) :
  In y xs -> fold_left Z.min xs x <= y.
Proof.
  revert x; induction xs as [|z zs IH]; intros x Hin; simpl; [destruct Hin|].
  destruct Hin as [->|Hin]; [|auto].
  pose proof (fold_min_le_init zs (Z.min x y)); lia.
Qed.

Lemma fold_min_In (xs : list Z) (x : Z) : In (fold_left Z.min xs x) (x :: xs).
Proof.
  revert x; induction xs as [|y ys IH]; intros x; simpl; [auto|].
  destruct (IH (Z.min x y)) as [H|H]; [|auto].
  rewrite <- H. destruct (Z.min_spec x y) as [[_ ->]|[_ ->]]; auto.
Qed.

(** [a.max()] returns [m] exactly when [m] is a sample and bounds all
    samples. *)
Lemma amax_spec (a : ndarray) (m : Z) :
  amax a = Ok m <-> In m (data a) /\ forall x, In x (data a) -> x <= m.
Proof.
  unfold amax. destruct (data a) as [|x xs].
  - split; [discriminate | intros [[] _]].
  - split.
    + intros H; inversion H; subst; clear H. split; [apply fold_max_In|].
      intros y [->|Hy]; [apply fold_max_ge_init | now apply fold_max_ge].
    + intros [Hin Hub]. f_equal.
      pose proof (fold_max_In xs x) as Hm.
      pose proof (Hub _ Hm).
      assert (m <= fold_left Z.max xs x).
      { destruct Hin as [->|Hin]; [apply fold_max_ge_init | now apply fold_max_ge]. }
      lia.
Qed.

Lemma amin_spec (a : ndarray) (m : Z) :
  amin a = Ok m <-> In m (data a) /\ forall x, In x (data a) -> m <= x.
Proof.
  unfold amin. destruct (data a) as [|x xs].
  - split; [discriminate | intros [[] _]].
  - split.
    + intros H; inversion H; subst; clear H. split; [apply fold_min_In|].
      intros y [->|Hy]; [apply fold_min_le_init | now apply fold_min_le].
    + intros [Hin Hlb]. f_equal.
      pose proof (fold_min_In xs x) as Hm.
      pose proof (Hlb _ Hm).
      assert (fold_left Z.min xs x <= m).
      { destruct Hin as [->|Hin]; [apply fold_min_le_init | now apply fold_min_le]. }
      lia.
Qed.

Lemma amin_total (a : ndarray) :
  data a <> [] -> exists m, amin a = Ok m.
Proof. unfold amin; destruct (data a); [congruence | eauto]. Qed.

Lemma amax_total (a : ndarray) :
  data a <> [] -> exists m, amax a = Ok m.
Proof. unfold amax; destruct (data a); [congruence | eauto]. Qed.

Lemma amin_empty (a : ndarray) : data a = [] -> amin a = Raise ValueError.
Proof. unfold amin; intros ->; reflexivity. Qed.

Lemma amin_Raise (a : ndarray) (e : exn) : amin a = Raise e -> e = ValueError.
Proof. unfold amin; destruct (data a); intros H; inversion H; auto. Qed.

Lemma amax_Raise (a : ndarray) (e : exn) : amax a = Raise e -> e = ValueError.
Proof. unfold amax; destruct (data a); intros H; inversion H; auto. Qed.

Lemma amin_constant (a : ndarray) (v : Z) :
  data a <> [] -> constant v (data a) -> amin a = Ok v.
Proof.
  intros Hne Hc. apply amin_spec.
  destruct (data a) as [|x xs] eqn:E; [congruence|].
  assert (x = v) by (apply Hc; left; reflexivity). subst x.
  split; [left; reflexivity|]. intros y Hy. rewrite (Hc y Hy). lia.
Qed.

Lemma amax_constant (a : ndarray) (v : Z) :
  data a <> [] -> constant v (data a) -> amax a = Ok v.
Proof.
  intros Hne Hc. apply amax_spec.
  destruct (data a) as [|x xs] eqn:E; [congruence|].
  assert (x = v) by (apply Hc; left; reflexivity). subst x.
  split; [left; reflexivity|]. intros y Hy. rewrite (Hc y Hy). lia.
Qed.

Lemma gt_scalar_binary (a : ndarray) (v : Z) : binary (data (gt_scalar a v)).
Proof.
  intros x Hx. simpl in Hx. apply in_map_iff in Hx as [y [<- _]].
  destruct (y >? v); auto.
Qed.

Lemma gt_scalar_constant (a : ndarray) (v : Z) :
  constant v (data a) -> constant 0 (data (gt_scalar a v)).
Proof.
  intros Hc x Hx. simpl in Hx. apply in_map_iff in Hx as [y [<- Hy]].
  rewrite (Hc y Hy). rewrite Z.gtb_ltb, Z.ltb_irrefl. reflexivity.
Qed.

Lemma gt_scalar_nonempty (a : ndarray) (v : Z) :
  data a <> [] -> data (gt_scalar a v) <> [].
Proof. simpl. destruct (data a); simpl; congruence. Qed.

(** A sample above the threshold makes the maximum of the mask 1. *)
Lemma amax_gt_scalar (a : ndarray) (v x : Z) :
  In x (data a) -> v < x -> amax (gt_scalar a v) = Ok 1.
Proof.
  intros Hin Hlt. apply amax_spec. split.
  - simpl. apply in_map_iff. exists x. split; [|exact Hin].
    destruct (Z.gtb_spec x v); [reflexivity | lia].
  - intros y Hy. destruct (gt_scalar_binary a v y Hy); lia.
Qed.

(** ** Dropping leading axes *)

Lemma In_firstn {A : Type} (n : nat) (l : list A) (x : A) :
  In x (firstn n l) -> In x l.
Proof.
  intros H. rewrite <- (firstn_skipn n l). apply in_or_app; left; exact H.
Qed.

Lemma extract_nd_small (a : ndarray) (n : nat) :
  (ndim a <= n)%nat -> extract_nd a n = Ok a.
Proof.
  intros H. unfold extract_nd.
  destruct (ndim a) eqn:E at 1; simpl;
    destruct (Nat.leb_spec (ndim a) n); try reflexivity; lia.
Qed.

(** On a well-formed array with at least one sample, [a[0]] succeeds and
    yields a well-formed array with at least one sample, all of them
    samples of [a]. *)
Lemma getitem0_wf (a : ndarray) :
  wf a -> data a <> [] -> (0 < ndim a)%nat ->
  exists a', getitem0 a = Ok a' /\ wf a' /\ data a' <> [] /\
             ndim a = S (ndim a') /\
             forall x, In x (data a') -> In x (data a).
Proof.
  unfold wf, ndim, getitem0. destruct a as [sh d]; simpl.
  intros Hwf Hne Hnd. destruct sh as [|n sh']; simpl in *; [lia|].
  assert (Hlen : (0 < length d)%nat) by (destruct d; simpl; [congruence | lia]).
  destruct n as [|n]; [simpl in Hwf; lia|].
  assert (Hsz : (0 < size_of sh')%nat).
  { destruct (size_of sh'); [rewrite Nat.mul_0_r in Hwf; lia | lia]. }
  eexists; split; [reflexivity|]; simpl.
  assert (Hle : (size_of sh' <= length d)%nat) by (rewrite Hwf; simpl; lia).
  repeat split.
  - rewrite length_firstn; lia.
  - intros E. apply (f_equal (@length Z)) in E.
    rewrite length_firstn in E; simpl in E; lia.
  - intros x; apply In_firstn.
Qed.

Lemma extract_nd_loop_wf (fuel : nat) (a : ndarray) (n : nat) :
  wf a -> data a <> [] -> (ndim a <= fuel)%nat ->
  exists a', extract_nd_loop fuel a n = Ok a' /\ wf a' /\ data a' <> [] /\
             forall x, In x (data a') -> In x (data a).
Proof.
  revert a; induction fuel as [|fuel IH]; intros a Hwf Hne Hfuel; simpl.
  - destruct (Nat.leb_spec (ndim a) n); exists a; auto.
  - destruct (Nat.leb_spec (ndim a) n); [exists a; auto|].
    destruct (getitem0_wf a Hwf Hne) as (a1 & E1 & Hwf1 & Hne1 & Hnd1 & Hin1);
      [lia|].
    rewrite E1; simpl.
    destruct (IH a1 Hwf1 Hne1) as (a2 & E2 & Hwf2 & Hne2 & Hin2); [lia|].
    exists a2; repeat split; auto.
Qed.

Lemma extract_nd_wf (a : ndarray) (n : nat) :
  wf a -> data a <> [] ->
  exists a', extract_nd a n = Ok a' /\ wf a' /\ data a' <> [] /\
             forall x, In x (data a') -> In x (data a).
Proof. intros; apply extract_nd_loop_wf; auto. Qed.

(** ** Construction of images *)

Lemma ImageBase_init_Ok (axes : string) (pixels : ndarray)
    (path : option string) (self : ImageBase) :
  ImageBase_init axes pixels path = Ok self ->
  exists px, extract_nd pixels (String.length axes) = Ok px /\
             self = mk_ImageBase axes None (Some px).
Proof.
  unfold ImageBase_init, _extract_nd, the_pixels, nd; simpl.
  intros H. apply bind_Ok in H as (px & E & H). inversion H; eauto.
Qed.

Lemma ImageBase_init_eq (axes : string) (pixels : ndarray) (path : option string) :
  ImageBase_init axes pixels path =
  (px <- extract_nd pixels (String.length axes) ;;
   Ok (mk_ImageBase axes None (Some px))).
Proof. reflexivity. Qed.

(** The constructor never records the path it is given. *)
Lemma ImageBase_init_no_path (axes : string) (pixels : ndarray)
    (path : option string) (self : ImageBase) :
  ImageBase_init axes pixels path = Ok self -> _path_to_local self = None.
Proof. intros H. apply ImageBase_init_Ok in H as (px & _ & ->). reflexivity. Qed.

(** What [ImageBinary.__init__] does once the leading axes are dropped. *)
Lemma ImageBinary_init_eq (pixels : ndarray) (path : option string) (b : bool) :
  ImageBinary_init pixels path b =
  (px <- extract_nd pixels 4 ;;
   px' <- (if b then m <- amin px ;; Ok (gt_scalar px m) else Ok px) ;;
   m <- amax px' ;;
   _ <- assert (1 =? m) "" ;;
   Ok (mk_ImageBase TZYX None (Some px'))).
Proof.
  unfold ImageBinary_init. rewrite ImageBase_init_eq. simpl String.length.
  destruct (extract_nd pixels 4) as [px|e]; simpl; [|reflexivity].
  destruct b; simpl; [|reflexivity].
  unfold _rebinarize, the_pixels; simpl.
  destruct (amin px); reflexivity.
Qed.

Lemma ImageBinary_init_Ok (pixels : ndarray) (path : option string) (b : bool)
    (img : ImageBase) :
  ImageBinary_init pixels path b = Ok img ->
  exists px px',
    extract_nd pixels 4 = Ok px /\
    (if b then exists m, amin px = Ok m /\ px' = gt_scalar px m else px' = px) /\
    amax px' = Ok 1 /\
    img = mk_ImageBase TZYX None (Some px').
Proof.
  rewrite ImageBinary_init_eq. intros H.
  apply bind_Ok in H as (px & E1 & H).
  apply bind_Ok in H as (px' & E2 & H).
  apply bind_Ok in H as (m & E3 & H).
  apply bind_Ok in H as (u & E4 & H).
  apply assert_Ok in E4. apply Z.eqb_eq in E4. subst m.
  exists px, px'. repeat split; auto.
  - destruct b.
    + apply bind_Ok in E2 as (m & Em & E2). inversion E2. eauto.
    + inversion E2; reflexivity.
  - inversion H; reflexivity.
Qed.

(** Every error of [ImageBinary.__init__] is an IndexError of the axis
    dropping, a ValueError of an empty array, or its own assertion. *)
Lemma ImageBinary_init_Raise (pixels : ndarray) (path : option string)
    (b : bool) (e : exn) :
  ImageBinary_init pixels path b = Raise e ->
  e = IndexError \/ e = ValueError \/ e = AssertionError "".
Proof.
  rewrite ImageBinary_init_eq. intros H.
  apply bind_Raise in H as [H|(px & E1 & H)].
  { left. unfold extract_nd in H. revert H. generalize (ndim pixels) at 1.
    intros fuel; revert pixels. induction fuel as [|fuel IH]; intros a; simpl;
      destruct (ndim a <=? 4)%nat; try discriminate.
    intros H. apply bind_Raise in H as [H|(a' & _ & H)]; [|eauto].
    unfold getitem0 in H. destruct (shape a) as [|[|n] sh']; inversion H; auto. }
  apply bind_Raise in H as [H|(px' & E2 & H)].
  { right; left. destruct b; [|discriminate].
    apply bind_Raise in H as [H|(m & _ & H)]; [|discriminate].
    now apply amin_Raise in H. }
  apply bind_Raise in H as [H|(m & E3 & H)].
  { right; left. now apply amax_Raise in H. }
  apply bind_Raise in H as [H|(u & _ & H)]; [|discriminate].
  right; right. now apply assert_Raise in H.
Qed.

(** ** The maximum of a binary image *)

(** C9.  An [ImageBinary] that was constructed has maximum sample exactly
    1.  With rebinarization its samples are 0 and 1; and construction
    succeeds on every array of rank at most 4 that holds two different
    samples.  (The assertion is checked whether or not rebinarization is
    bypassed, so the maximum is 1 in that case as well.) *)
Theorem ImageBinary_max_is_one (pixels : ndarray) (path : option string) :
  (forall doRebinarize img,
      ImageBinary_init pixels path doRebinarize = Ok img ->
      exists px, _pixels img = Some px /\ amax px = Ok 1 /\
                 (doRebinarize = true -> binary (data px)))
  /\
  ((ndim pixels <= 4)%nat ->
   (exists x y, In x (data pixels) /\ In y (data pixels) /\ x <> y) ->
   exists img, ImageBinary_init pixels path true = Ok img).
Proof.
  split.
  - intros b img H.
    apply ImageBinary_init_Ok in H as (px & px' & _ & Hb & Hmax & ->).
    exists px'; simpl; repeat split; auto.
    intros ->. destruct Hb as (m & _ & ->). apply gt_scalar_binary.
  - intros Hnd (x & y & Hx & Hy & Hxy).
    rewrite ImageBinary_init_eq, (extract_nd_small _ _ Hnd); simpl.
    destruct (amin_total pixels) as [m Hm].
    { intros E; rewrite E in Hx; destruct Hx. }
    rewrite Hm; simpl.
    pose proof (proj1 (amin_spec _ _) Hm) as [_ Hlb].
    assert (Hgt : exists z, In z (data pixels) /\ m < z).
    { pose proof (Hlb x Hx). pose proof (Hlb y Hy).
      destruct (Z.eq_dec x m); [exists y | exists x]; split; auto; lia. }
    destruct Hgt as (z & Hz & Hlt).
    rewrite (amax_gt_scalar pixels m z Hz Hlt); simpl.
    eexists; reflexivity.
Qed.

Lemma ImageBinary_max_is_one_witness :
  let pixels := mk_ndarray [2%nat] [3; 7] in
  exists img, ImageBinary_init pixels None true = Ok img /\
              exists px, _pixels img = Some px /\ amax px = Ok 1 /\
                         binary (data px).
Proof.
  intros pixels.
  destruct (ImageBinary_max_is_one pixels None) as [Hmax Hok].
  assert (Hnd : (ndim pixels <= 4)%nat) by (subst pixels; unfold ndim; simpl; lia).
  assert (Hxy : exists x y, In x (data pixels) /\ In y (data pixels) /\ x <> y).
  { exists 3, 7; subst pixels; simpl; repeat split; auto; lia. }
  destruct (Hok Hnd Hxy) as [img Himg].
  exists img; split; [exact Himg|].
  destruct (Hmax true img Himg) as (px & E & M & B).
  exists px; repeat split; auto.
Defined.

(** ** Arrays without foreground *)

(** C10, as stated, fails: an array whose samples are all 1 has all
    samples equal, and with rebinarization bypassed it is accepted. *)
Lemma constant_one_accepted_when_bypassed :
  ~ (forall pixels : ndarray,
        wf pixels -> data pixels <> [] ->
        (exists v, constant v (data pixels)) ->
        forall doRebinarize,
          ImageBinary_init pixels None doRebinarize = Raise (AssertionError "")).
Proof.
  intros H.
  specialize (H (mk_ndarray [2%nat] [1; 1])).
  assert (E : ImageBinary_init (mk_ndarray [2%nat] [1; 1]) None false
              = Raise (AssertionError "")).
  { apply H.
    - reflexivity.
    - discriminate.
    - exists 1. intros x [<-|[<-|[]]]; reflexivity. }
  vm_compute in E. discriminate E.
Qed.

(** C10, amended.  For an array that holds samples, all equal to [v]:
    with rebinarization the mask is all 0 and construction fails on the
    assertion; with rebinarization bypassed it fails on the assertion
    exactly when [v] is not 1.  An all-zero array is rejected either
    way. *)
Theorem ImageBinary_rejects_constant (pixels : ndarray) (path : option string)
    (v : Z) :
  wf pixels -> data pixels <> [] -> constant v (data pixels) ->
  ImageBinary_init pixels path true = Raise (AssertionError "") /\
  (v <> 1 -> ImageBinary_init pixels path false = Raise (AssertionError "")) /\
  (v = 1 -> exists img, ImageBinary_init pixels path false = Ok img) /\
  (v = 0 -> forall doRebinarize,
        ImageBinary_init pixels path doRebinarize = Raise (AssertionError "")).
Proof.
  intros Hwf Hne Hc.
  destruct (extract_nd_wf pixels 4 Hwf Hne) as (px & E & _ & Hne' & Hin).
  assert (Hc' : constant v (data px)) by (intros x Hx; apply Hc, Hin, Hx).
  assert (Ht : ImageBinary_init pixels path true = Raise (AssertionError "")).
  { rewrite ImageBinary_init_eq, E; cbn [bind].
    rewrite (amin_constant px v Hne' Hc'); cbn [bind].
    rewrite (amax_constant (gt_scalar px v) 0); cbn [bind]; auto.
    - now apply gt_scalar_nonempty.
    - now apply gt_scalar_constant. }
  assert (Hf : v <> 1 ->
               ImageBinary_init pixels path false = Raise (AssertionError "")).
  { intros Hv. rewrite ImageBinary_init_eq, E; cbn [bind].
    rewrite (amax_constant px v Hne' Hc'); cbn [bind].
    destruct (Z.eqb_spec 1 v); [congruence | reflexivity]. }
  repeat split; auto.
  - intros ->. rewrite ImageBinary_init_eq, E; cbn [bind].
    rewrite (amax_constant px 1 Hne' Hc'); cbn [bind]. eexists; reflexivity.
  - intros -> [|]; auto. apply Hf; lia.
Qed.

Lemma ImageBinary_rejects_constant_witness :
  ImageBinary_init (mk_ndarray [2%nat; 2%nat] [0; 0; 0; 0]) None true
  = Raise (AssertionError "")
  /\
  ImageBinary_init (mk_ndarray [2%nat; 2%nat] [0; 0; 0; 0]) None false
  = Raise (AssertionError "").
Proof.
  assert (H : forall doRebinarize,
             ImageBinary_init (mk_ndarray [2%nat; 2%nat] [0; 0; 0; 0]) None
               doRebinarize = Raise (AssertionError "")).
  { refine (proj2 (proj2 (proj2
              (ImageBinary_rejects_constant _ None 0 _ _ _))) eq_refl).
    - reflexivity.
    - discriminate.
    - intros x Hx; simpl in Hx; intuition. }
  split; apply H.
Defined.

(** ** The monochromatic precondition of the finder *)

Lemma ParticleBase_init_Raise (cls : ParticleClass) (pixels : ndarray)
    (roi : BoundingElement) (axes : option string) (e : exn) :
  ParticleBase_init cls pixels roi axes = Raise e ->
  e = IndexError \/ e = ValueError \/ e = AssertionError "" \/
  e = AssertionError shape_mismatch_msg.
Proof.
  unfold ParticleBase_init. intros H.
  apply bind_Raise in H as [H|(u & _ & H)].
  { right; right; right. now apply assert_Raise in H. }
  apply bind_Raise in H as [H|(img & _ & H)]; [|discriminate].
  apply ImageBinary_init_Raise in H. tauto.
Qed.

Lemma extract_labels_Raise (L : Labeled) (cls : ParticleClass)
    (labels : list Z) (acc : list ParticleBase) (e : exn) :
  extract_labels L cls labels acc = Raise e ->
  e = IndexError \/ e = ValueError \/ e = AssertionError "" \/
  e = AssertionError shape_mismatch_msg.
Proof.
  revert acc; induction labels as [|lab rest IH]; intros acc;
    cbn [extract_labels].
  - discriminate.
  - destruct (0 =? lab); [apply IH|].
    intros H. apply bind_Raise in H as [H|(p & _ & H)]; [|eauto].
    now apply ParticleBase_init_Raise in H.
Qed.

(** C6.  On a labeled image whose samples are all equal the finder
    raises before it builds any particle: the assertion error
    "monochromatic image detected." when the image holds samples (numpy's
    ValueError on an empty one).  On an image with two different samples
    that assertion error is never raised. *)
Theorem monochromatic_image_rejected (L : Labeled) (cls : ParticleClass) :
  ((exists v, constant v (data (L_pixels L))) ->
   exists e, get_particles_from_labeled_image L cls = Raise e /\
             (data (L_pixels L) <> [] -> e = AssertionError monochromatic_msg))
  /\
  ((exists x y, In x (data (L_pixels L)) /\ In y (data (L_pixels L)) /\ x <> y) ->
   get_particles_from_labeled_image L cls
     <> Raise (AssertionError monochromatic_msg)).
Proof.
  unfold get_particles_from_labeled_image. split.
  - intros [v Hc]. destruct (data (L_pixels L)) as [|x xs] eqn:E.
    + exists ValueError. rewrite amin_empty by exact E. split; [reflexivity|].
      intros H; now elim H.
    + assert (Hne : data (L_pixels L) <> []) by (rewrite E; discriminate).
      rewrite <- E in Hc.
      rewrite (amin_constant _ v Hne Hc), (amax_constant _ v Hne Hc).
      cbn [bind]. rewrite Z.eqb_refl. cbn.
      eexists; split; [reflexivity|]. intros _; reflexivity.
  - intros (x & y & Hx & Hy & Hxy) H.
    apply bind_Raise in H as [H|(mn & Emn & H)].
    { apply amin_Raise in H; discriminate. }
    apply bind_Raise in H as [H|(mx & Emx & H)].
    { apply amax_Raise in H; discriminate. }
    apply bind_Raise in H as [H|(u & _ & H)].
    + apply assert_Raise in H as [H _].
      apply negb_false_iff, Z.eqb_eq in H. subst mx.
      apply amin_spec in Emn as [_ Hlb]. apply amax_spec in Emx as [_ Hub].
      pose proof (Hlb x Hx). pose proof (Hub x Hx).
      pose proof (Hlb y Hy). pose proof (Hub y Hy). lia.
    + apply extract_labels_Raise in H as [H|[H|[H|H]]]; discriminate.
Qed.

Lemma monochromatic_image_rejected_witness :
  get_particles_from_labeled_image
    (mk_Labeled (mk_ndarray [2%nat; 2%nat] [1; 1; 1; 1]) (Some "YX"%string) [])
    Particle
  = Raise (AssertionError monochromatic_msg)
  /\
  get_particles_from_labeled_image
    (mk_Labeled (mk_ndarray [2%nat; 2%nat] [0; 1; 0; 0]) (Some "YX"%string) [])
    Particle
  <> Raise (AssertionError monochromatic_msg).
Proof.
  split.
  - destruct (proj1 (monochromatic_image_rejected
             (mk_Labeled (mk_ndarray [2%nat; 2%nat] [1; 1; 1; 1])
                         (Some "YX"%string) []) Particle))
      as (e & E & He).
    + exists 1. intros x Hx; simpl in Hx; intuition.
    + rewrite E, He; [reflexivity | discriminate].
  - apply (proj2 (monochromatic_image_rejected
             (mk_Labeled (mk_ndarray [2%nat; 2%nat] [0; 1; 0; 0])
                         (Some "YX"%string) []) Particle)).
    exists 0, 1; simpl; repeat split; auto; lia.
Defined.

(** ** The side of the local neighbourhood *)

Lemma mod2_eqb_even (n : Z) : (0 =? n mod 2) = Z.even n.
Proof. rewrite Zmod_even. destruct (Z.even n); reflexivity. Qed.

Lemma set_local_side_value (self : BinarizerSettings) (value : Z) :
  local_side (set_local_side self value)
  = if Z.even value then value else value + 1.
Proof.
  unfold local_side, set_local_side; cbn [_local_side].
  rewrite mod2_eqb_even. destruct (Z.even value); reflexivity.
Qed.

(** C2.  The code does the opposite of the claim.  The setter leaves an
    even value as it is and adds one to an odd value, so the side it
    stores is always even; [threshold_adaptive] rejects every odd side on
    its assertion, and for an even side stops on the unbound name [i]: no
    side length is accepted and used.  The value 101, the class default
    and a value the segmentation script lets through (it asserts that the
    side is odd), is stored as 102. *)
Theorem local_side_forced_even (self : BinarizerSettings) (value : Z)
    (threshold_local : ndarray -> Z -> ndarray) (I : ndarray) :
  Z.odd (local_side (set_local_side self value)) = false
  /\ local_side (set_local_side self value)
     = (if Z.even value then value else value + 1)
  /\ threshold_adaptive threshold_local I value
     = (if Z.odd value then Raise (AssertionError "") else Raise (NameError "i"))
  /\ check_neighbour 101 = Ok tt
  /\ local_side (set_local_side self 101) = 102
  /\ local_side (set_local_side self 100) = 100
  /\ threshold_adaptive threshold_local I (local_side BinarizerSettings_default)
     = Raise (AssertionError "").
Proof.
  repeat split; try reflexivity.
  - rewrite set_local_side_value. destruct (Z.even value) eqn:E.
    + rewrite <- Z.negb_even, E; reflexivity.
    + rewrite Z.odd_add, <- Z.negb_even, E; reflexivity.
  - apply set_local_side_value.
  - unfold threshold_adaptive. rewrite mod2_eqb_even, <- Z.negb_even.
    destruct (Z.even value); reflexivity.
Qed.

(** ** Unloading and reloading *)

(** Whatever the store answers, [load_from_local] gives back the image it
    was called on. *)
Lemma load_from_local_keeps_self (w : world) (self self' : ImageBase) :
  load_from_local w self = Ok self' -> self' = self.
Proof.
  unfold load_from_local. destruct (_path_to_local self); [|discriminate].
  intros H. apply bind_Ok in H as (u & _ & H).
  apply bind_Ok in H as (img & _ & H). inversion H; reflexivity.
Qed.

(** An image whose buffer was discarded never gets it back: the property
    returns [None] whenever it returns. *)
Lemma pixels_after_unload (w : world) (self : ImageBase)
    (r : ImageBase * option ndarray) :
  _pixels self = None -> pixels w self = Ok r -> r = (self, None).
Proof.
  unfold pixels. intros E. rewrite E.
  destruct (_path_to_local self).
  - intros H. apply bind_Ok in H as (self' & E' & H).
    apply load_from_local_keeps_self in E'. subst self'.
    rewrite E in H. inversion H; reflexivity.
  - intros H; inversion H; reflexivity.
Qed.

(** Without a backing path, [unload] changes nothing and logs an error. *)
Lemma unload_without_path (w : world) (self : ImageBase) (log : list string) :
  _path_to_local self = None ->
  unload w self log
  = (self, log ++ ["cannot unload Image without path_to_local."%string]).
Proof. unfold unload. intros ->. reflexivity. Qed.

(** With a backing path that is a file, [unload] discards the buffer. *)
Lemma unload_with_path (w : world) (self : ImageBase) (log : list string)
    (p : string) :
  _path_to_local self = Some p -> isfile w p = true ->
  unload w self log = (set_pixels self None, log).
Proof. unfold unload. intros -> ->. reflexivity. Qed.



(** ** Volume *)

Lemma truncate_exact (x : Q) (k : Z) : (x == inject_Z k)%Q -> truncate x = k.
Proof.
  unfold truncate, Qeq, inject_Z. destruct x as [a b]; simpl. intros H.
  rewrite Z.mul_1_r in H. subst a. apply Z.quot_mul. discriminate.
Qed.

Lemma truncate_bounds_nonneg (x : Q) :
  (0 <= x)%Q ->
  (inject_Z (truncate x) <= x)%Q /\ (x < inject_Z (truncate x) + 1)%Q.
Proof.
  unfold truncate, Qle, Qlt, Qplus, inject_Z. destruct x as [a b]; simpl.
  intros H. rewrite Z.mul_1_r in H.
  pose proof (Z.quot_rem' a (Z.pos b)) as E.
  pose proof (Z.rem_bound_pos a (Z.pos b) H (Pos2Z.is_pos b)) as B.
  split; nia.
Qed.

Lemma truncate_bounds_nonpos (x : Q) :
  (x <= 0)%Q ->
  (inject_Z (truncate x) - 1 < x)%Q /\ (x <= inject_Z (truncate x))%Q.
Proof.
  unfold truncate, Qle, Qlt, Qminus, Qplus, Qopp, inject_Z.
  destruct x as [a b]; simpl.
  intros H. rewrite Z.mul_1_r in H.
  pose proof (Z.quot_rem' a (Z.pos b)) as E.
  pose proof (Z.rem_bound_pos_neg a (Z.pos b) (Pos2Z.is_pos b) H) as B.
  split; nia.
Qed.

(** Rounding depends on the number only, not on the fraction that
    writes it. *)
Lemma float64_of_Q_Qeq (x y : Q) :
  (x == y)%Q -> float64_of_Q x = float64_of_Q y.
Proof.
  intros H. unfold float64_of_Q. rewrite (Qred_complete x y H). reflexivity.
Qed.

Lemma Qred_inject_Z (n : Z) : Qred (inject_Z n) = inject_Z n.
Proof.
  pose proof (Qred_correct (inject_Z n)) as E.
  pose proof (gcd_Qred (inject_Z n)) as G.
  destruct (Qred (inject_Z n)) as [a b]. unfold Qeq, inject_Z in *.
  cbn [Qnum Qden] in *. rewrite Z.mul_1_r in E. subst a.
  rewrite Z.gcd_comm, Z.mul_comm, Z.gcd_mul_diag_l in G by lia.
  assert (b = 1%positive) by lia. subst b. rewrite Z.mul_1_r. reflexivity.
Qed.

(** An integer below [2^53] is a float. *)
Lemma float64_of_int (n : Z) :
  0 < n < 2 ^ 53 ->
  float64_of_Q (inject_Z n)
  = Finite (n * 2 ^ (52 - Z.log2 n)) (Z.log2 n - 52).
Proof.
  intros [Hpos Hlt]. unfold float64_of_Q. rewrite Qred_inject_Z.
  cbn [inject_Z Qnum Qden]. cbv zeta.
  rewrite (Z.abs_eq n) by lia.
  destruct (Z.eqb_spec n 0) as [E|_]; [lia|].
  pose proof (Z.log2_spec n Hpos) as [Hlo _].
  pose proof (Z.log2_nonneg n) as Hl0.
  assert (Hl52 : Z.log2 n < 53) by (apply Z.log2_lt_pow2; lia).
  unfold floor_log2. change (Z.log2 1) with 0. rewrite Z.sub_0_r.
  destruct (Z.leb_spec 0 (Z.log2 n)) as [_|]; [|lia].
  rewrite Z.mul_1_l.
  destruct (Z.leb_spec (2 ^ Z.log2 n) n) as [_|]; [|lia].
  rewrite Z.max_l by lia.
  assert (Hs : Z.sgn n = 1) by (apply Z.sgn_pos; exact Hpos).
  rewrite Hs, Z.mul_1_l.
  assert (Hrhe : forall N, round_half_even N 1 = N).
  { intros N. unfold round_half_even. rewrite Z.div_1_r, Z.mod_1_r.
    reflexivity. }
  destruct (Z.leb_spec 0 (Z.log2 n - 52)) as [Hge|Hneg].
  - assert (E : Z.log2 n = 52) by lia. rewrite E.
    change (52 - 52) with 0. change (2 ^ 0) with 1.
    rewrite !Z.mul_1_r, Hrhe.
    destruct (Z.leb_spec (2 ^ 1024) n) as [Hbig|_].
    + exfalso. assert (2 ^ 53 < 2 ^ 1024) by (vm_compute; reflexivity). lia.
    + cbn [andb]. rewrite ?Z.mul_1_l. reflexivity.
  - cbn [andb]. rewrite ?Hrhe, ?Z.mul_1_l.
    replace (- (Z.log2 n - 52)) with (52 - Z.log2 n) by lia. reflexivity.
Qed.

Lemma float_value_scaled (n k : Z) :
  0 <= k -> (float_value (n * 2 ^ k) (- k) == inject_Z n)%Q.
Proof.
  intros Hk. unfold float_value, pow2.
  destruct (Z.leb_spec 0 (- k)) as [H0|Hneg].
  - assert (k = 0) by lia. subst k. cbn. unfold Qeq. cbn. lia.
  - rewrite Z.opp_involutive.
    assert (Hp : 0 < 2 ^ k) by (apply Z.pow_pos_nonneg; lia).
    unfold Qeq, Qmult, inject_Z. cbn [Qnum Qden].
    rewrite Pos.mul_1_l, Z2Pos.id by exact Hp. lia.
Qed.

(** The value of the float of an integer below [2^53] is that integer,
    and multiplying it by 1.0 changes nothing. *)
Lemma float_of_int_exact (n : Z) :
  0 <= n < 2 ^ 53 ->
  exists m e,
    float_of_int n = Ok (Finite m e) /\
    (float_value m e == inject_Z n)%Q /\
    fmul (Finite m e) (float64_of_Q 1) = Finite m e.
Proof.
  intros [H0 Hlt]. destruct (Z.eq_dec n 0) as [->|Hnz].
  - exists 0, 0. repeat split; vm_compute; reflexivity.
  - assert (Hn : 0 < n < 2 ^ 53) by lia.
    pose proof (Z.log2_nonneg n) as Hl0.
    assert (Hl52 : Z.log2 n < 53) by (apply Z.log2_lt_pow2; lia).
    exists (n * 2 ^ (52 - Z.log2 n)), (Z.log2 n - 52).
    assert (Hv : (float_value (n * 2 ^ (52 - Z.log2 n)) (Z.log2 n - 52)
                  == inject_Z n)%Q).
    { replace (Z.log2 n - 52) with (- (52 - Z.log2 n)) by lia.
      apply float_value_scaled. lia. }
    split; [|split].
    + unfold float_of_int. rewrite (float64_of_int n Hn). reflexivity.
    + exact Hv.
    + change (float64_of_Q 1) with (Finite 4503599627370496 (-52)).
      cbn [fmul]. rewrite <- (float64_of_int n Hn).
      apply float64_of_Q_Qeq. rewrite Hv.
      assert (E1 : (float_value 4503599627370496 (-52) == 1)%Q)
        by (vm_compute; reflexivity).
      rewrite E1. ring.
Qed.

(** The running product of floats that are all 1.0 is 1.0. *)
Lemma prod_ones (a : list Q) :
  Forall (fun q => q == 1)%Q a ->
  prod (map float64_of_Q a) = float64_of_Q 1.
Proof.
  intros H.
  assert (Hfold : forall l, Forall (fun q => q == 1)%Q l ->
            fold_left fmul (map float64_of_Q l) (float64_of_Q 1)
            = float64_of_Q 1).
  { induction 1 as [|q l Hq _ IH]; [reflexivity|]. cbn [map fold_left].
    rewrite (float64_of_Q_Qeq q 1 Hq).
    replace (fmul (float64_of_Q 1) (float64_of_Q 1)) with (float64_of_Q 1)
      by (vm_compute; reflexivity).
    exact IH. }
  destruct H as [|q l Hq Hl]; [reflexivity|]. cbn [map prod].
  rewrite (float64_of_Q_Qeq q 1 Hq). apply Hfold. exact Hl.
Qed.

Lemma total_size_fresh (P : ParticleBase) (px : ndarray) :
  _pixels (image P) = Some px -> _total_size P = None ->
  exists P', total_size P = Ok (P', Z.of_nat (count_nonzero (data px))).
Proof.
  unfold total_size, foreground, the_pixels. intros -> ->; simpl.
  eexists; reflexivity.
Qed.

(** C7, as stated, fails: the particle that the finder extracts from the
    2 x 2 labeled image [[1, 1], [1, 0]] has 3 foreground voxels; with the
    voxel scales (0.5, 1.0, 1.0) its volume is 1, while 3 times the
    product of the scales is 1.5, in floating point (where 0.5 and 1.5
    are exact) as over the rationals. *)
Lemma volume_is_not_the_product :
  exists P,
    get_particles_from_labeled_image
      (mk_Labeled (mk_ndarray [2%nat; 2%nat] [1; 1; 1; 0]) (Some "YX"%string)
                  [(1 # 2)%Q; 1%Q; 1%Q]) Particle = Ok [P]
    /\ total_size P = Ok (mk_ParticleBase (particle_class P) (image P)
                            (_region_of_interest P) (idx P) (Some 3)
                            (aspect P), 3)
    /\ aspect P = Some [(1 # 2)%Q; 1%Q; 1%Q]
    /\ volume P = Ok 1
    /\ (exists m e,
          fmul (float64_of_Q 3)
               (prod (map float64_of_Q [(1 # 2)%Q; 1%Q; 1%Q]))
          = Finite m e /\
          (float_value m e == 3 # 2)%Q)
    /\ ~ (inject_Z 1 == inject_Z 3 * ((1 # 2) * 1 * 1))%Q.
Proof.
  eexists. split; [vm_compute; reflexivity|].
  split; [vm_compute; reflexivity|].
  split; [reflexivity|].
  split; [vm_compute; reflexivity|].
  split.
  - eexists. eexists. split; [vm_compute; reflexivity|].
    vm_compute. reflexivity.
  - vm_compute. discriminate.
Qed.

(** The products are rounded as floats are: with one voxel and the scales
    (0x1.5555555555555p-2, 3.0), whose exact product is 1 - 2^-54, the
    float product is 1.0 and the volume 1; with five voxels and the scales
    (1.4, 3.0), whose exact product with 5 is above 20.99999999999999,
    the float product is 20.999999999999996 and the volume 20. *)
Lemma volume_rounds_as_floats_do :
  volume (mk_ParticleBase Particle
            (mk_ImageBase TZYX None (Some (mk_ndarray [1%nat] [1])))
            [(0, 1)%nat] (Some 1) None
            (Some [(6004799503160661 # 18014398509481984)%Q; 3%Q]))
  = Ok 1
  /\ volume (mk_ParticleBase Particle
               (mk_ImageBase TZYX None
                  (Some (mk_ndarray [5%nat] [1; 1; 1; 1; 1])))
               [(0, 5)%nat] (Some 1) None
               (Some [(7 # 5)%Q; 3%Q]))
     = Ok 20
  /\ fmul (float64_of_Q 5) (prod (map float64_of_Q [(7 # 5)%Q; 3%Q]))
     = Finite 5910974510923775 (-48).
Proof. repeat split; vm_compute; reflexivity. Qed.

(** C7, amended.  The volume of a particle is
    [int(total_size * np.prod(aspect))] as floats compute it: the voxel
    count that [total_size] answers (the count kept from its first
    access, which for a particle not yet measured is the foreground
    count), turned into a float, times the running float product of the
    scales, truncated towards zero.  The call returns exactly when that
    float product is finite; the volume then lies within one unit of it,
    on the side of zero, and equals it when it is an integer.  With all
    scales equal to 1 and a count below 2^53 the volume is the count. *)
Theorem volume_is_truncated_product (P P' : ParticleBase) (n : Z)
    (a : list Q) :
  total_size P = Ok (P', n) -> aspect P = Some a ->
  (forall v,
     volume P = Ok v <->
     exists f m e,
       float_of_int n = Ok f /\
       fmul f (prod (map float64_of_Q a)) = Finite m e /\
       v = truncate (float_value m e))
  /\
  (forall m e,
     ((0 <= float_value m e)%Q ->
      (inject_Z (truncate (float_value m e)) <= float_value m e)%Q /\
      (float_value m e < inject_Z (truncate (float_value m e)) + 1)%Q) /\
     ((float_value m e <= 0)%Q ->
      (inject_Z (truncate (float_value m e)) - 1 < float_value m e)%Q /\
      (float_value m e <= inject_Z (truncate (float_value m e)))%Q) /\
     (forall k, (float_value m e == inject_Z k)%Q ->
                truncate (float_value m e) = k))
  /\
  (Forall (fun q => q == 1)%Q a -> 0 <= n < 2 ^ 53 -> volume P = Ok n)
  /\
  (_total_size P = None ->
   exists px, _pixels (image P) = Some px /\
              n = Z.of_nat (count_nonzero (data px))).
Proof.
  intros Hts Ha. split; [|split; [|split]].
  - intros v. unfold volume. rewrite Hts, Ha. cbn [bind snd]. split.
    + intros H. apply bind_Ok in H as (f & Hf & H).
      destruct (fmul f (prod (map float64_of_Q a))) as [m e| |] eqn:Em;
        cbn [int] in H; try discriminate.
      inversion H. exists f, m, e. auto.
    + intros (f & m & e & Hf & Hm & ->). rewrite Hf. cbn [bind].
      rewrite Hm. reflexivity.
  - intros m e. split; [apply truncate_bounds_nonneg|].
    split; [apply truncate_bounds_nonpos|]. intros k. apply truncate_exact.
  - intros H1 Hn. unfold volume. rewrite Hts, Ha. cbn [bind snd].
    destruct (float_of_int_exact n Hn) as (m & e & Hf & Hv & Hmul).
    rewrite Hf. cbn [bind]. rewrite (prod_ones a H1), Hmul. cbn [int].
    f_equal. apply truncate_exact. exact Hv.
  - intros Hnone. unfold total_size in Hts. rewrite Hnone in Hts.
    unfold foreground, the_pixels in Hts.
    destruct (_pixels (image P)) as [px|]; [|discriminate].
    cbn [bind] in Hts. inversion Hts. exists px. auto.
Qed.

Lemma volume_is_truncated_product_witness :
  volume (mk_ParticleBase Particle
            (mk_ImageBase TZYX None
               (Some (mk_ndarray [1%nat; 1%nat; 3%nat] [1; 0; 1])))
            [(0, 1); (0, 1); (0, 3)]%nat (Some 1) None
            (Some [1%Q; 1%Q; 1%Q]))
  = Ok 2.
Proof.
  refine (proj1 (proj2 (proj2
            (volume_is_truncated_product
               (mk_ParticleBase Particle
                  (mk_ImageBase TZYX None
                     (Some (mk_ndarray [1%nat; 1%nat; 3%nat] [1; 0; 1])))
                  [(0, 1); (0, 1); (0, 3)]%nat (Some 1) None
                  (Some [1%Q; 1%Q; 1%Q]))
               _ 2 [1%Q; 1%Q; 1%Q] eq_refl eq_refl))) _ _).
  - repeat constructor.
  - split; [lia | reflexivity].
Defined.

(** ** Shape descriptor *)

Lemma count_nonzero_cons (x : Z) (l : list Z) :
  count_nonzero (x :: l)
  = ((if (x =? 0)%Z then 0 else 1) + count_nonzero l)%nat.
Proof. unfold count_nonzero; simpl. destruct (x =? 0); reflexivity. Qed.

Lemma hull_sum_count (m h : list Z) :
  hull_of m h ->
  fold_right Z.add 0 h = Z.of_nat (count_nonzero h) /\
  (count_nonzero m <= count_nonzero h)%nat /\
  (count_nonzero m = count_nonzero h <-> perfectly_convex m h).
Proof.
  unfold hull_of, perfectly_convex.
  induction 1 as [|x y m' h' Hxy0 HF IH].
  - simpl. repeat split; constructor.
  - destruct Hxy0 as [Hy Hxy]. destruct IH as (IH1 & IH2 & IH3).
    rewrite !count_nonzero_cons. cbn [fold_right]. rewrite IH1.
    destruct (Z.eqb_spec x 0) as [Ex|Hx].
    + subst x. destruct Hy as [Ey|Ey]; subst y; cbn [Z.eqb].
      * split; [lia|]. split; [lia|]. split.
        -- intros E. constructor; [intros H0; exact H0 | apply IH3; lia].
        -- intros E. inversion E; subst.
           assert (count_nonzero m' = count_nonzero h') by (apply IH3; assumption).
           lia.
      * split; [lia|]. split; [lia|]. split.
        -- intros E. lia.
        -- intros E. inversion E; subst. exfalso.
           match goal with H : 1 <> 0 -> 0 <> 0 |- _ =>
             apply H; [discriminate | reflexivity] end.
    + rewrite (Hxy Hx). cbn [Z.eqb].
      split; [lia|]. split; [lia|]. split.
      * intros E. constructor; [intros _; exact Hx | apply IH3; lia].
      * intros E. inversion E; subst.
        assert (count_nonzero m' = count_nonzero h') by (apply IH3; assumption).
        lia.
Qed.

Lemma amax_one_has_foreground (px : ndarray) :
  amax px = Ok 1 -> (0 < count_nonzero (data px))%nat.
Proof.
  intros H. apply amax_spec in H as [Hin _].
  revert Hin. induction (data px) as [|x l IH]; simpl; [intros []|].
  rewrite count_nonzero_cons. intros [->|Hin]; simpl; [lia|].
  specialize (IH Hin). lia.
Qed.

Section ShapeDescriptor.

Variable convex_hull_image : ndarray -> ndarray.
Variable sphericity : ParticleBase -> Q.

Hypothesis convex_hull_image_spec :
  forall m, hull_of (data m) (data (convex_hull_image m)).


End ShapeDescriptor.

Lemma full_frame_hull (m : ndarray) : hull_of (data m) (data (full_frame m)).
Proof.
  unfold hull_of, full_frame; simpl.
  induction (data m) as [|x l IH]; simpl; constructor; auto.
Qed.


(** ** Cropping to the bounding box *)

Lemma count_select_from (f : nat -> bool) (l : list Z) (s : nat) :
  (forall j, (j < length l)%nat -> nth j l 0 <> 0 -> f (s + j)%nat = true) ->
  count_nonzero
    (map snd (filter (fun p => f (fst p)) (combine (seq s (length l)) l)))
  = count_nonzero l.
Proof.
  revert s; induction l as [|x l IH]; intros s H; [reflexivity|].
  cbn [length seq combine filter fst].
  assert (Hl : forall j, (j < length l)%nat -> nth j l 0 <> 0 ->
                         f (S s + j)%nat = true).
  { intros j Hj Hn. replace (S s + j)%nat with (s + S j)%nat by lia.
    apply H; [simpl; lia | exact Hn]. }
  specialize (IH (S s) Hl).
  rewrite count_nonzero_cons.
  destruct (f s) eqn:Ef.
  - cbn [map snd]. rewrite count_nonzero_cons, IH. reflexivity.
  - rewrite IH. destruct (Z.eqb_spec x 0) as [_|Hx]; [reflexivity|].
    exfalso. specialize (H 0%nat). rewrite Nat.add_0_r in H.
    rewrite H in Ef; [discriminate | simpl; lia | exact Hx].
Qed.

(** Selecting positions that include every non-zero sample keeps the
    number of non-zero samples. *)
Lemma count_select (f : nat -> bool) (l : list Z) :
  (forall j, (j < length l)%nat -> nth j l 0 <> 0 -> f j = true) ->
  count_nonzero (select f l) = count_nonzero l.
Proof. intros H. apply (count_select_from f l 0). exact H. Qed.

Lemma In_fg_from (l : list Z) (s j : nat) :
  (j < length l)%nat -> nth j l 0 <> 0 ->
  In (s + j)%nat
     (map fst (filter (fun p => negb (snd p =? 0)) (combine (seq s (length l)) l))).
Proof.
  revert s j; induction l as [|x l IH]; intros s j Hj Hn; [simpl in Hj; lia|].
  cbn [length seq combine filter snd].
  destruct j as [|j].
  - simpl in Hn. destruct (Z.eqb_spec x 0); [contradiction|].
    rewrite Nat.add_0_r. left; reflexivity.
  - replace (s + S j)%nat with (S s + j)%nat by lia.
    assert (In (S s + j)%nat
              (map fst (filter (fun p => negb (snd p =? 0))
                               (combine (seq (S s) (length l)) l)))).
    { apply IH; [simpl in Hj; lia | exact Hn]. }
    destruct (negb (x =? 0)); [right|]; assumption.
Qed.

Lemma In_fg_positions (B : ndarray) (j : nat) :
  (j < length (data B))%nat -> nth j (data B) 0 <> 0 -> In j (fg_positions B).
Proof. intros Hj Hn. apply (In_fg_from (data B) 0 j Hj Hn). Qed.

Lemma fold_min_nat_le_init (l : list nat) (a : nat) :
  (fold_left Nat.min l a <= a)%nat.
Proof.
  revert a; induction l as [|z l IH]; intros a; simpl; [lia|].
  specialize (IH (Nat.min a z)). lia.
Qed.

Lemma fold_min_nat_le (l : list nat) (a c : nat) :
  In c l -> (fold_left Nat.min l a <= c)%nat.
Proof.
  revert a; induction l as [|z l IH]; intros a H; simpl; [destruct H|].
  destruct H as [->|H]; [|auto].
  pose proof (fold_min_nat_le_init l (Nat.min a c)). lia.
Qed.

Lemma min_list_le (l : list nat) (c : nat) : In c l -> (min_list l <= c)%nat.
Proof.
  destruct l as [|x l]; [intros []|]. simpl.
  intros [->|H]; [apply fold_min_nat_le_init | now apply fold_min_nat_le].
Qed.

Lemma le_list_max (l : list nat) (c : nat) : In c l -> (c <= list_max l)%nat.
Proof.
  intros H. pose proof (proj1 (list_max_le l (list_max l)) (Nat.le_refl _)) as F.
  rewrite Forall_forall in F. apply F, H.
Qed.

Lemma In_combine_map_seq {A B : Type} (f : nat -> A) (s n : nat) (l : list B)
    (a : A) (b : B) :
  In (a, b) (combine (map f (seq s n)) l) ->
  exists j, a = f (s + j)%nat /\ nth_error l j = Some b.
Proof.
  revert s l; induction n as [|n IH]; intros s l H; [destruct H|].
  destruct l as [|y l]; [destruct H|]. simpl in H.
  destruct H as [H|H].
  - inversion H; subst. exists 0%nat. rewrite Nat.add_0_r. auto.
  - destruct (IH (S s) l H) as (j & -> & E).
    exists (S j). split; [f_equal; lia | exact E].
Qed.

(** Every non-zero sample lies in the bounding box of the non-zero
    samples. *)
Lemma fg_in_box (B : ndarray) (j : nat) :
  (j < length (data B))%nat -> nth j (data B) 0 <> 0 ->
  in_box (from_binary_pixels B) (unravel (shape B) j) = true.
Proof.
  intros Hj Hn. pose proof (In_fg_positions B j Hj Hn) as Hin.
  unfold in_box, from_binary_pixels. apply forallb_forall.
  intros [[lo hi] c] Hp. cbn [fst snd].
  apply In_combine_map_seq in Hp as (k & Eb & Ec). simpl in Eb.
  assert (Hc : In c (map (fun i => nth k (unravel (shape B) i) 0%nat)
                         (fg_positions B))).
  { apply in_map_iff. exists j. split; [|exact Hin].
    now apply nth_error_nth. }
  unfold axis_bounds in Eb.
  destruct (map (fun i => nth k (unravel (shape B) i) 0%nat) (fg_positions B))
    as [|c0 cs] eqn:Ecs; [destruct Hc|].
  inversion Eb; subst lo hi.
  apply andb_true_iff. split.
  - apply Nat.leb_le. exact (min_list_le (c0 :: cs) c Hc).
  - apply Nat.ltb_lt. pose proof (le_list_max (c0 :: cs) c Hc) as Hm.
    simpl in Hm. simpl. lia.
Qed.

(** The crop to the bounding box keeps every foreground voxel. *)
Lemma crop_keeps_foreground (B : ndarray) :
  count_nonzero (data (apply_to_pixels (from_binary_pixels B) B))
  = count_nonzero (data B).
Proof.
  unfold apply_to_pixels; cbn [data]. apply count_select.
  intros j Hj Hn. now apply fg_in_box.
Qed.

Lemma count_nonzero_eq_scalar (px : ndarray) (v : Z) :
  count_nonzero (data (eq_scalar px v)) = count_eq v (data px).
Proof.
  unfold eq_scalar, count_eq; cbn [data].
  induction (data px) as [|x l IH]; [reflexivity|].
  cbn [map filter]. rewrite count_nonzero_cons.
  destruct (x =? v); cbn [Z.eqb length]; rewrite IH; reflexivity.
Qed.

Lemma eq_scalar_binary (px : ndarray) (v : Z) : binary (data (eq_scalar px v)).
Proof.
  intros x Hx. simpl in Hx. apply in_map_iff in Hx as [y [<- _]].
  destruct (y =? v); auto.
Qed.

Lemma In_select {A : Type} (f : nat -> bool) (l : list A) (x : A) :
  In x (select f l) -> In x l.
Proof.
  unfold select, indexed. intros H.
  apply in_map_iff in H as ([i y] & <- & H). apply filter_In in H as [H _].
  apply in_combine_r in H. exact H.
Qed.

Lemma crop_binary (roi : BoundingElement) (B : ndarray) :
  binary (data B) -> binary (data (apply_to_pixels roi B)).
Proof. intros H x Hx. apply H. eapply In_select; exact Hx. Qed.

(** On a mask of 0 and 1, comparing with the minimum 0 changes nothing. *)
Lemma gt_scalar_zero_binary (a : ndarray) :
  binary (data a) -> gt_scalar a 0 = a.
Proof.
  destruct a as [sh d]; unfold gt_scalar; cbn [shape data]. intros H. f_equal.
  induction d as [|x d IH]; [reflexivity|]. cbn [map]. f_equal.
  - destruct (H x (or_introl eq_refl)) as [-> | ->]; reflexivity.
  - apply IH. intros y Hy. apply H. right; exact Hy.
Qed.

(** ** Distinct labels *)

Lemma insert_unique_In (v x : Z) (l : list Z) :
  In x (insert_unique v l) <-> x = v \/ In x l.
Proof.
  induction l as [|y l IH]; simpl.
  - intuition.
  - destruct (Z.ltb_spec v y); [simpl; intuition|].
    destruct (Z.eqb_spec v y); [subst; simpl; intuition|].
    simpl. rewrite IH. intuition.
Qed.

Lemma unique_In (x : Z) (l : list Z) : In x (unique l) <-> In x l.
Proof.
  unfold unique. induction l as [|y l IH]; simpl; [reflexivity|].
  rewrite insert_unique_In, IH. intuition.
Qed.

Lemma insert_unique_ascending (v : Z) (l : list Z) :
  ascending l -> ascending (insert_unique v l).
Proof.
  induction l as [|y l IH]; simpl; [intuition|].
  intros [Hy Hl].
  destruct (Z.ltb_spec v y).
  - simpl. repeat split; auto.
    intros z [<-|Hz]; [assumption|]. specialize (Hy z Hz). lia.
  - destruct (Z.eqb_spec v y); [simpl; auto|].
    simpl. split; [|auto].
    intros z Hz. apply insert_unique_In in Hz as [->|Hz]; [lia | auto].
Qed.

Lemma unique_ascending (l : list Z) : ascending (unique l).
Proof.
  unfold unique. induction l as [|y l IH]; simpl; [exact I|].
  now apply insert_unique_ascending.
Qed.

Lemma ascending_NoDup (l : list Z) : ascending l -> NoDup l.
Proof.
  induction l as [|x l IH]; simpl; [constructor|].
  intros [Hx Hl]. constructor; [|auto].
  intros Hin. specialize (Hx x Hin). lia.
Qed.

(** ** The particles of a labeled image *)

Lemma list_nat_eqb_refl (a : list nat) : list_nat_eqb a a = true.
Proof. unfold list_nat_eqb. destruct (list_eq_dec Nat.eq_dec a a); congruence. Qed.

Lemma ndim_cropped_mask (px : ndarray) (lab : Z) :
  ndim (cropped_mask px lab) = ndim px.
Proof.
  unfold cropped_mask, apply_to_pixels, from_binary_pixels, roi_shape, ndim.
  cbn [shape eq_scalar]. now rewrite !length_map, length_seq.
Qed.

Lemma cropped_mask_binary (px : ndarray) (lab : Z) :
  binary (data (cropped_mask px lab)).
Proof. apply crop_binary, eq_scalar_binary. Qed.

Lemma cropped_mask_count (px : ndarray) (lab : Z) :
  count_nonzero (data (cropped_mask px lab)) = count_eq lab (data px).
Proof.
  unfold cropped_mask. now rewrite crop_keeps_foreground, count_nonzero_eq_scalar.
Qed.

Lemma binary_amax_one_In (l : ndarray) :
  binary (data l) -> (amax l = Ok 1 <-> In 1 (data l)).
Proof.
  intros Hb. rewrite amax_spec. split; [intros [H _]; exact H|].
  intros H. split; [exact H|]. intros x Hx. destruct (Hb x Hx); lia.
Qed.

Lemma binary_amin_zero_In (l : ndarray) :
  binary (data l) -> (amin l = Ok 0 <-> In 0 (data l)).
Proof.
  intros Hb. rewrite amin_spec. split; [intros [H _]; exact H|].
  intros H. split; [exact H|]. intros x Hx. destruct (Hb x Hx); lia.
Qed.

Lemma binary_count_In (l : list Z) :
  binary l -> (0 < count_nonzero l)%nat -> In 1 l.
Proof.
  induction l as [|x l IH]; intros Hb Hc;
    [unfold count_nonzero in Hc; simpl in Hc; lia|].
  rewrite count_nonzero_cons in Hc.
  destruct (Hb x (or_introl eq_refl)) as [-> | ->]; [|left; reflexivity].
  right. apply IH; [|simpl in Hc; exact Hc].
  intros y Hy. apply Hb. right; exact Hy.
Qed.

Lemma count_eq_In (v : Z) (l : list Z) : In v l -> (0 < count_eq v l)%nat.
Proof.
  unfold count_eq. induction l as [|x l IH]; [intros []|].
  intros [->|H]; simpl.
  - rewrite Z.eqb_refl. simpl. lia.
  - specialize (IH H). destruct (x =? v); simpl; lia.
Qed.

(** A binary image built from a mask of 0 and 1 keeps the mask. *)
Lemma ImageBinary_init_binary (B : ndarray) (b : bool) (img : ImageBase) :
  binary (data B) -> (ndim B <= 4)%nat ->
  ImageBinary_init B None b = Ok img ->
  img = mk_ImageBase TZYX None (Some B).
Proof.
  intros Hb Hnd H.
  apply ImageBinary_init_Ok in H as (px & px' & E & Hreb & Hmax & ->).
  rewrite (extract_nd_small _ _ Hnd) in E. inversion E; subst px; clear E.
  destruct b; [|subst px'; reflexivity].
  destruct Hreb as (m & Hm & ->).
  assert (m = 0).
  { apply amax_spec in Hmax as [Hin _]. simpl in Hin.
    apply in_map_iff in Hin as (x & Hx & Hin).
    apply amin_spec in Hm as [Hm Hlb].
    destruct (Z.gtb_spec x m); [|discriminate].
    destruct (Hb x Hin); destruct (Hb m Hm); lia. }
  subst m. now rewrite gt_scalar_zero_binary.
Qed.

Lemma ImageBinary_init_binary_Ok (B : ndarray) (b : bool) :
  binary (data B) -> (ndim B <= 4)%nat -> In 1 (data B) ->
  (b = true -> In 0 (data B)) ->
  ImageBinary_init B None b = Ok (mk_ImageBase TZYX None (Some B)).
Proof.
  intros Hb Hnd H1 H0.
  rewrite ImageBinary_init_eq, (extract_nd_small _ _ Hnd). cbn [bind].
  destruct b.
  - rewrite (proj2 (binary_amin_zero_In B Hb) (H0 eq_refl)). cbn [bind].
    rewrite (gt_scalar_zero_binary B Hb).
    rewrite (proj2 (binary_amax_one_In B Hb) H1). reflexivity.
  - cbn [bind]. rewrite (proj2 (binary_amax_one_In B Hb) H1). reflexivity.
Qed.

Lemma ParticleBase_init_cropped (cls : ParticleClass) (px : ndarray) (lab : Z)
    (axes : option string) (p : ParticleBase) :
  (ndim px <= 4)%nat ->
  ParticleBase_init cls (cropped_mask px lab)
    (from_binary_pixels (eq_scalar px lab)) axes = Ok p ->
  p = mk_ParticleBase cls (mk_ImageBase TZYX None (Some (cropped_mask px lab)))
        (from_binary_pixels (eq_scalar px lab)) None None None.
Proof.
  intros Hnd H. unfold ParticleBase_init in H.
  apply bind_Ok in H as (u & _ & H).
  apply bind_Ok in H as (img & E & H).
  apply ImageBinary_init_binary in E.
  - subst img. inversion H; reflexivity.
  - apply cropped_mask_binary.
  - now rewrite ndim_cropped_mask.
Qed.

Lemma ParticleBase_init_cropped_Ok (cls : ParticleClass) (px : ndarray)
    (lab : Z) (axes : option string) :
  (ndim px <= 4)%nat -> In lab (data px) ->
  (truthy axes = true -> In 0 (data (cropped_mask px lab))) ->
  exists p, ParticleBase_init cls (cropped_mask px lab)
              (from_binary_pixels (eq_scalar px lab)) axes = Ok p.
Proof.
  intros Hnd Hin H0. unfold ParticleBase_init.
  replace (shape (cropped_mask px lab))
    with (roi_shape (from_binary_pixels (eq_scalar px lab))) by reflexivity.
  rewrite list_nat_eqb_refl. cbn [assert bind].
  rewrite ImageBinary_init_binary_Ok; [cbn [bind]; eauto| | | |exact H0].
  - apply cropped_mask_binary.
  - now rewrite ndim_cropped_mask.
  - apply binary_count_In; [apply cropped_mask_binary|].
    rewrite cropped_mask_count. now apply count_eq_In.
Qed.

Lemma particle_of_built (L : Labeled) (cls : ParticleClass) (lab : Z) :
  particle_of L lab
    (mk_ParticleBase cls
       (mk_ImageBase TZYX None (Some (cropped_mask (L_pixels L) lab)))
       (from_binary_pixels (eq_scalar (L_pixels L) lab))
       (Some lab) None (Some (L_aspect L))).
Proof.
  unfold particle_of; cbn [idx aspect _region_of_interest]. repeat split.
  unfold total_size, foreground, the_pixels;
    cbn [_total_size image _pixels bind].
  rewrite cropped_mask_count. eexists; reflexivity.
Qed.

Lemma extract_labels_Ok (L : Labeled) (cls : ParticleClass) (labels : list Z)
    (acc ps : list ParticleBase) :
  (ndim (L_pixels L) <= 4)%nat ->
  extract_labels L cls labels acc = Ok ps ->
  exists ps', ps = acc ++ ps' /\
    Forall2 (particle_of L) (filter (fun v => negb (0 =? v)) labels) ps'.
Proof.
  intros Hnd. revert acc; induction labels as [|lab rest IH]; intros acc H;
    cbn [extract_labels filter] in *.
  - inversion H; subst. exists []. rewrite app_nil_r. split; [auto|constructor].
  - destruct (0 =? lab); cbn [negb]; [now apply IH|].
    apply bind_Ok in H as (p & Ep & H).
    apply (ParticleBase_init_cropped cls (L_pixels L) lab) in Ep; [|exact Hnd].
    subst p. cbn in H.
    apply IH in H as (ps' & -> & HF).
    eexists. rewrite <- app_assoc. split; [reflexivity|].
    constructor; [apply particle_of_built | exact HF].
Qed.

Lemma extract_labels_total (L : Labeled) (cls : ParticleClass)
    (labels : list Z) (acc : list ParticleBase) :
  (ndim (L_pixels L) <= 4)%nat ->
  (forall lab, In lab labels -> In lab (data (L_pixels L))) ->
  (truthy (L_axes L) = true ->
   forall lab, In lab labels -> lab <> 0 ->
               In 0 (data (cropped_mask (L_pixels L) lab))) ->
  exists ps, extract_labels L cls labels acc = Ok ps.
Proof.
  intros Hnd. revert acc; induction labels as [|lab rest IH];
    intros acc Hin H0; cbn [extract_labels].
  - eauto.
  - assert (Hrest : forall acc', exists ps,
               extract_labels L cls rest acc' = Ok ps).
    { intros acc'. apply IH.
      - intros l Hl. apply Hin. right; exact Hl.
      - intros Ht l Hl. apply H0; [exact Ht | right; exact Hl]. }
    destruct (Z.eqb_spec 0 lab) as [E|E]; [apply Hrest|].
    destruct (ParticleBase_init_cropped_Ok cls (L_pixels L) lab (L_axes L))
      as [p Ep]; auto.
    { apply Hin. left; reflexivity. }
    { intros Ht. apply H0; [exact Ht | left; reflexivity | congruence]. }
    unfold cropped_mask in Ep. rewrite Ep. cbn [bind]. apply Hrest.
Qed.

(** X1.  On a labeled image of rank at most 4 the finder, when it
    returns, returns one particle per distinct non-zero label, in
    ascending order of the labels, each with as many foreground voxels as
    the image has voxels of that label.  It returns whenever the image
    holds two different samples and, in case the axes string is read as a
    request to rebinarize, the bounding box of every label holds a voxel
    outside the label. *)
Lemma finder_one_particle_per_label (L : Labeled) (cls : ParticleClass) :
  (ndim (L_pixels L) <= 4)%nat ->
  ascending (particle_labels (L_pixels L)) /\
  (forall lab, In lab (particle_labels (L_pixels L)) <->
               lab <> 0 /\ In lab (data (L_pixels L))) /\
  (forall ps, get_particles_from_labeled_image L cls = Ok ps ->
              Forall2 (particle_of L) (particle_labels (L_pixels L)) ps) /\
  ((exists x y, In x (data (L_pixels L)) /\ In y (data (L_pixels L)) /\ x <> y) ->
   (truthy (L_axes L) = true ->
    forall lab, In lab (particle_labels (L_pixels L)) ->
                In 0 (data (cropped_mask (L_pixels L) lab))) ->
   exists ps, get_particles_from_labeled_image L cls = Ok ps).
Proof.
  intros Hnd.
  assert (Hlab : forall lab, In lab (particle_labels (L_pixels L)) <->
                             lab <> 0 /\ In lab (data (L_pixels L))).
  { intros lab. unfold particle_labels. rewrite filter_In, unique_In.
    destruct (Z.eqb_spec 0 lab); simpl; intuition congruence. }
  split; [|split; [exact Hlab|split]].
  - unfold particle_labels.
    pose proof (unique_ascending (data (L_pixels L))) as Ha. revert Ha.
    induction (unique (data (L_pixels L))) as [|x l IH];
      cbn [filter ascending]; [auto|].
    intros [Hx Hl]. destruct (0 =? x); cbn [negb ascending]; [auto|].
    split; [|auto]. intros y Hy. apply filter_In in Hy as [Hy _]. auto.
  - intros ps H. unfold get_particles_from_labeled_image in H.
    apply bind_Ok in H as (mn & _ & H). apply bind_Ok in H as (mx & _ & H).
    apply bind_Ok in H as (u & _ & H).
    apply (extract_labels_Ok L cls _ [] ps Hnd) in H as (ps' & -> & HF).
    exact HF.
  - intros (x & y & Hx & Hy & Hxy) H0.
    unfold get_particles_from_labeled_image.
    destruct (amin_total (L_pixels L)) as [mn Emn].
    { intros E; rewrite E in Hx; destruct Hx. }
    destruct (amax_total (L_pixels L)) as [mx Emx].
    { intros E; rewrite E in Hx; destruct Hx. }
    rewrite Emn, Emx. cbn [bind].
    apply amin_spec in Emn as [_ Hlb]. apply amax_spec in Emx as [_ Hub].
    assert (mn <> mx).
    { pose proof (Hlb x Hx). pose proof (Hub x Hx).
      pose proof (Hlb y Hy). pose proof (Hub y Hy). lia. }
    destruct (Z.eqb_spec mn mx); [contradiction|]. cbn [negb assert bind].
    apply extract_labels_total; [exact Hnd | |].
    + intros lab Hl. now apply unique_In.
    + intros Ht lab Hl Hnz. apply H0; [exact Ht|].
      apply Hlab. split; [exact Hnz | now apply unique_In].
Qed.

(** C1.  The claim fails on the code for a particle that fills its
    bounding box.  In the 1 x 2 labeled image [[0, 1]] the label 1 has one
    voxel, and its mask cropped to its bounding box is [[True]].
    [ParticleBase.__init__] passes the axes string to
    [ImageBinary.__init__] in the position of [doRebinarize]; the image
    is rebinarized against its own minimum, becomes all false, and the
    assertion on the maximum fails: the finder raises instead of
    returning one particle with one voxel.  With no axes string the same
    image yields that particle. *)
Theorem finder_fails_on_box_shaped_particle :
  let px := mk_ndarray [1%nat; 2%nat] [0; 1] in
  particle_labels px = [1]
  /\ count_eq 1 (data px) = 1%nat
  /\ cropped_mask px 1 = mk_ndarray [1%nat; 1%nat] [1]
  /\ get_particles_from_labeled_image
       (mk_Labeled px (Some "YX"%string) [1%Q; 1%Q]) Particle
     = Raise (AssertionError "")
  /\ get_particles_from_binary_image binarize
       px (Some "YX"%string) [1%Q; 1%Q] Particle
     = Raise (AssertionError "")
  /\ exists p,
       get_particles_from_labeled_image
         (mk_Labeled px None [1%Q; 1%Q]) Particle = Ok [p]
       /\ particle_of (mk_Labeled px None [1%Q; 1%Q]) 1 p.
Proof.
  intros px.
  split; [reflexivity|]. split; [reflexivity|]. split; [reflexivity|].
  split; [reflexivity|]. split; [reflexivity|].
  eexists. split; [vm_compute; reflexivity|].
  unfold particle_of; cbn. repeat split. eexists. vm_compute. reflexivity.
Qed.

(** ** Labellings *)

Lemma connected_same_value (X : ndarray) (i j : nat) :
  connected X i j -> get X i = get X j.
Proof. induction 1; congruence. Qed.

Lemma connected_in_range (X : ndarray) (i j : nat) :
  (i < length (data X))%nat -> connected X i j -> (j < length (data X))%nat.
Proof. intros Hi H; induction H; auto. Qed.

Lemma connected_trans (X : ndarray) (i j k : nat) :
  connected X i j -> connected X j k -> connected X i k.
Proof.
  intros Hij Hjk.
  induction Hjk as [j|j k m Hjk IH Hm Hadj Hval]; [exact Hij|].
  apply (connected_step X i k m); auto.
Qed.

(** Relabelling keeps the connected regions: the regions of a labelling
    of [X] are the regions of [X]. *)
Lemma connected_labelling (X R : ndarray) (i j : nat) :
  is_labelling X R -> (i < length (data X))%nat -> get X i <> 0 ->
  (connected R i j <-> connected X i j).
Proof.
  intros (Hsh & Hlen & H0 & Hpart & _) Hi Hnz. split.
  - induction 1 as [|i j k Hij IH Hk Hadj Hval]; [constructor|].
    specialize (IH Hi Hnz).
    pose proof (connected_in_range X i j Hi IH) as Hj.
    pose proof (connected_same_value X i j IH) as Hv.
    rewrite Hlen in Hk.
    assert (HXj : get X j <> 0) by congruence.
    assert (HXk : get X k <> 0).
    { intros E. apply (H0 k Hk) in E. rewrite <- Hval in E.
      apply (H0 j Hj) in E. contradiction. }
    apply (connected_trans X i j k IH).
    apply (Hpart j k Hj Hk HXj HXk). exact Hval.
  - induction 1 as [|i j k Hij IH Hk Hadj Hval]; [constructor|].
    specialize (IH Hi Hnz).
    pose proof (connected_in_range X i j Hi Hij) as Hj.
    pose proof (connected_same_value X i j Hij) as Hv.
    assert (HXj : get X j <> 0) by congruence.
    assert (HXk : get X k <> 0) by congruence.
    eapply connected_step; [exact IH | now rewrite Hlen | now rewrite Hsh |].
    apply (Hpart j k Hj Hk HXj HXk).
    eapply connected_step; [constructor | exact Hk | exact Hadj | exact Hval].
Qed.

Lemma firstn_S_nth (l : list Z) (i : nat) :
  (i < length l)%nat -> firstn (S i) l = firstn i l ++ [nth i l 0].
Proof.
  revert i; induction l as [|x l IH]; intros i Hi; [simpl in Hi; lia|].
  destruct i as [|i]; [reflexivity|].
  cbn [firstn nth app]. f_equal. apply IH. simpl in Hi; lia.
Qed.

Lemma max_before_S (l : list Z) (i : nat) :
  (i < length l)%nat ->
  max_before l (S i) = Z.max (max_before l i) (nth i l 0).
Proof.
  intros Hi. unfold max_before. rewrite (firstn_S_nth l i Hi), fold_left_app.
  reflexivity.
Qed.

Lemma max_before_nonneg (l : list Z) (i : nat) : 0 <= max_before l i.
Proof. unfold max_before. apply fold_max_ge_init. Qed.

Lemma max_before_ge (l : list Z) (i k : nat) :
  (k < i)%nat -> (i <= length l)%nat -> nth k l 0 <= max_before l i.
Proof.
  intros Hk Hi. unfold max_before. apply fold_max_ge.
  replace (nth k l 0) with (nth k (firstn i l) 0).
  - apply nth_In. rewrite length_firstn. lia.
  - rewrite nth_firstn. destruct (Nat.ltb_spec k i); [reflexivity | lia].
Qed.

(** With labels numbered in order of first appearance, every label
    between 1 and the largest one met so far has been met. *)
Lemma numbered_all_met (l : list Z) (i : nat) (v : Z) :
  numbered_in_order l -> (i <= length l)%nat -> 1 <= v <= max_before l i ->
  exists k, (k < i)%nat /\ nth k l 0 = v.
Proof.
  intros Hn. induction i as [|i IH]; intros Hi Hv.
  - unfold max_before in Hv; simpl in Hv. lia.
  - rewrite max_before_S in Hv by lia.
    destruct (Z_le_gt_dec v (max_before l i)) as [Hle|Hgt].
    + destruct IH as (k & Hk & E); [lia | lia |]. exists k. split; [lia | exact E].
    + exists i. split; [lia|]. pose proof (Hn i ltac:(lia)). lia.
Qed.

(** Two numberings in order of first appearance that draw the same
    regions are the same. *)
Lemma numbered_unique (l l' : list Z) :
  length l = length l' ->
  numbered_in_order l -> numbered_in_order l' ->
  (forall i, (i < length l)%nat -> (nth i l 0 = 0 <-> nth i l' 0 = 0)) ->
  (forall i j, (i < length l)%nat -> (j < length l)%nat ->
               nth i l 0 <> 0 -> nth j l 0 <> 0 ->
               (nth i l 0 = nth j l 0 <-> nth i l' 0 = nth j l' 0)) ->
  l = l'.
Proof.
  intros Hlen Hn Hn' H0 Hp.
  assert (Hpre : forall i, (i <= length l)%nat -> firstn i l = firstn i l').
  { induction i as [|i IH]; intros Hi; [reflexivity|].
    specialize (IH ltac:(lia)).
    rewrite (firstn_S_nth l i), (firstn_S_nth l' i) by lia.
    rewrite IH. f_equal. f_equal.
    assert (Hk : forall k, (k < i)%nat -> nth k l 0 = nth k l' 0).
    { intros k Hk.
      pose proof (nth_firstn i l k 0) as E1.
      pose proof (nth_firstn i l' k 0) as E2.
      destruct (Nat.ltb_spec k i); [|lia]. congruence. }
    assert (HM : max_before l i = max_before l' i).
    { unfold max_before. now rewrite IH. }
    pose proof (Hn i ltac:(lia)) as Ha.
    pose proof (Hn' i ltac:(lia)) as Hb.
    destruct (Z.eq_dec (nth i l 0) 0) as [E|E].
    { rewrite E. symmetry. apply H0; [lia | exact E]. }
    assert (E' : nth i l' 0 <> 0).
    { intros E0. apply E. apply H0; [lia | exact E0]. }
    destruct (Z_le_gt_dec (nth i l 0) (max_before l i)) as [Hle|Hgt].
    - destruct (numbered_all_met l i (nth i l 0) Hn) as (k & Hk1 & Hk2);
        [lia | lia |].
      assert (nth i l' 0 = nth k l' 0).
      { apply Hp; [lia | lia | exact E | congruence | congruence]. }
      rewrite (Hk k Hk1) in Hk2. congruence.
    - destruct (Z_le_gt_dec (nth i l' 0) (max_before l' i)) as [Hle'|Hgt'].
      + destruct (numbered_all_met l' i (nth i l' 0) Hn') as (k & Hk1 & Hk2);
          [lia | lia |].
        pose proof (Hk k Hk1) as Hkk.
        assert (nth i l 0 = nth k l 0).
        { apply Hp; [lia | lia | exact E | congruence | congruence]. }
        pose proof (max_before_ge l i k Hk1 ltac:(lia)). lia.
      + lia. }
  rewrite <- (firstn_all l), <- (firstn_all l'), <- Hlen.
  apply Hpre. lia.
Qed.

(** Labelling a labelling gives it back. *)
Lemma labelling_idempotent (X R R' : ndarray) :
  is_labelling X R -> is_labelling R R' -> R' = R.
Proof.
  intros HXR HRR'.
  pose proof HXR as (Hsh & Hlen & H0 & Hpart & Hnum).
  pose proof HRR' as (Hsh' & Hlen' & H0' & Hpart' & Hnum').
  assert (E : data R = data R').
  { apply numbered_unique; auto.
    - intros i Hi. symmetry. apply (H0' i Hi).
    - intros i j Hi Hj Hni Hnj.
      fold (get R i) (get R j) (get R' i) (get R' j).
      fold (get R i) in Hni. fold (get R j) in Hnj.
      rewrite (Hpart' i j Hi Hj Hni Hnj).
      rewrite Hlen in Hi, Hj.
      assert (HXi : get X i <> 0).
      { intros E. apply (H0 i Hi) in E. contradiction. }
      assert (HXj : get X j <> 0).
      { intros E. apply (H0 j Hj) in E. contradiction. }
      rewrite (connected_labelling X R i j HXR Hi HXi).
      apply (Hpart i j Hi Hj HXi HXj). }
  destruct R as [sh d], R' as [sh' d']; cbn [shape data] in *.
  congruence.
Qed.

(** ** Removing labels *)

Lemma zero_labels_shape (labs : list Z) (L : ndarray) :
  shape (zero_labels labs L) = shape L.
Proof.
  unfold zero_labels. revert L; induction labs as [|lab labs IH]; intros L;
    [reflexivity|]. cbn [fold_left]. rewrite IH. reflexivity.
Qed.

Lemma zero_labels_data (labs : list Z) (L : ndarray) :
  data (zero_labels labs L)
  = map (fun x => if existsb (Z.eqb x) labs then 0 else x) (data L).
Proof.
  unfold zero_labels. revert L; induction labs as [|lab labs IH]; intros L.
  - cbn [fold_left existsb]. now rewrite map_id.
  - cbn [fold_left]. rewrite IH. cbn [zero_where_eq data]. rewrite map_map.
    apply map_ext. intros x. cbn [existsb].
    destruct (x =? lab); cbn [orb]; [|reflexivity].
    destruct (existsb (Z.eqb 0) labs); reflexivity.
Qed.

Lemma zero_labels_length (labs : list Z) (L : ndarray) :
  length (data (zero_labels labs L)) = length (data L).
Proof. now rewrite zero_labels_data, length_map. Qed.

Lemma zero_labels_get (labs : list Z) (L : ndarray) (i : nat) :
  get (zero_labels labs L) i
  = if existsb (Z.eqb (get L i)) labs then 0 else get L i.
Proof.
  unfold get. rewrite zero_labels_data.
  set (f := fun x => if existsb (Z.eqb x) labs then 0 else x).
  assert (E : f 0 = 0) by (unfold f; destruct (existsb (Z.eqb 0) labs); reflexivity).
  rewrite <- E at 1. now rewrite map_nth.
Qed.

Lemma existsb_eqb_In (x : Z) (labs : list Z) :
  existsb (Z.eqb x) labs = true <-> In x labs.
Proof.
  rewrite existsb_exists. split.
  - intros (y & Hy & E). apply Z.eqb_eq in E. now subst.
  - intros H. exists x. split; [exact H | apply Z.eqb_refl].
Qed.

(** Removing labels that are all 0 removes nothing. *)
Lemma zero_labels_none (labs : list Z) (L : ndarray) :
  (forall v, In v labs -> v = 0) -> zero_labels labs L = L.
Proof.
  intros H. destruct L as [sh d].
  pose proof (zero_labels_shape labs (mk_ndarray sh d)) as Es.
  pose proof (zero_labels_data labs (mk_ndarray sh d)) as Ed.
  destruct (zero_labels labs (mk_ndarray sh d)) as [sh' d'].
  cbn [shape data] in *. subst sh'. f_equal. rewrite Ed.
  rewrite <- (map_id d) at 2. apply map_ext. intros x.
  destruct (existsb (Z.eqb x) labs) eqn:E; [|reflexivity].
  apply existsb_eqb_In in E. symmetry. now apply H.
Qed.

(** Removing labels leaves the regions of the other labels as they
    were. *)
Lemma connected_zero_labels (L : ndarray) (labs : list Z) (i j : nat) :
  get L i <> 0 -> ~ In (get L i) labs ->
  (connected (zero_labels labs L) i j <-> connected L i j).
Proof.
  intros Hnz Hkeep.
  assert (Hsame : forall k, get L k = get L i ->
                            get (zero_labels labs L) k = get L k).
  { intros k E. rewrite zero_labels_get.
    destruct (existsb (Z.eqb (get L k)) labs) eqn:Eb; [|reflexivity].
    apply existsb_eqb_In in Eb. rewrite E in Eb. contradiction. }
  split.
  - induction 1 as [|i j k Hij IH Hk Hadj Hval]; [constructor|].
    specialize (IH Hnz Hkeep Hsame).
    pose proof (connected_same_value L i j IH) as Ej.
    rewrite zero_labels_length in Hk. rewrite zero_labels_shape in Hadj.
    rewrite (Hsame j (eq_sym Ej)) in Hval.
    apply (connected_step L i j k IH Hk Hadj).
    rewrite zero_labels_get in Hval.
    destruct (existsb (Z.eqb (get L k)) labs); [congruence | exact Hval].
  - induction 1 as [|i j k Hij IH Hk Hadj Hval]; [constructor|].
    specialize (IH Hnz Hkeep Hsame).
    pose proof (connected_same_value L i j Hij) as Ej.
    apply (connected_step _ i j k IH).
    + now rewrite zero_labels_length.
    + now rewrite zero_labels_shape.
    + rewrite (Hsame j (eq_sym Ej)), (Hsame k); congruence.
Qed.

(** ** Faces *)

Lemma In_select_from (f : nat -> bool) (l : list Z) (s : nat) (v : Z) :
  In v (map snd (filter (fun p => f (fst p)) (combine (seq s (length l)) l)))
  <-> exists j, (j < length l)%nat /\ f (s + j)%nat = true /\ nth j l 0 = v.
Proof.
  revert s; induction l as [|x l IH]; intros s.
  - simpl. split; [intros [] | intros (j & Hj & _); lia].
  - cbn [length seq combine filter fst]. split.
    + intros H.
      assert (Hcase : (f s = true /\ x = v) \/
                      In v (map snd (filter (fun p => f (fst p))
                                            (combine (seq (S s) (length l)) l)))).
      { destruct (f s) eqn:E; [|right; exact H].
        cbn [map snd] in H. destruct H as [H|H]; [left; auto | right; exact H]. }
      destruct Hcase as [[Ef Ex]|H'].
      * exists 0%nat. rewrite Nat.add_0_r. simpl. repeat split; auto; lia.
      * apply IH in H' as (j & Hj & Ef & Ev).
        exists (S j). replace (s + S j)%nat with (S s + j)%nat by lia.
        simpl. repeat split; auto; lia.
    + intros (j & Hj & Ef & Ev). destruct j as [|j].
      * rewrite Nat.add_0_r in Ef. rewrite Ef. simpl in Ev. left; exact Ev.
      * assert (In v (map snd (filter (fun p => f (fst p))
                                      (combine (seq (S s) (length l)) l)))).
        { apply IH. exists j. replace (S s + j)%nat with (s + S j)%nat by lia.
          simpl in Hj, Ev. repeat split; auto; lia. }
        destruct (f s); [right|]; assumption.
Qed.

(** The samples selected are the samples at the selected positions. *)
Lemma In_select_iff (f : nat -> bool) (a : ndarray) (v : Z) :
  In v (select f (data a))
  <-> exists i, (i < length (data a))%nat /\ f i = true /\ get a i = v.
Proof. apply (In_select_from f (data a) 0 v). Qed.

Lemma take_axis_first (a : ndarray) (axis : nat) :
  take_axis a axis 0
  = if (0 <? nth axis (shape a) 0)%nat
    then Ok (select (at_index (shape a) axis 0)
                    (data a))
    else Raise IndexError.
Proof.
  unfold take_axis. cbn [Z.ltb Z.compare Z.leb].
  destruct (Nat.ltb_spec 0 (nth axis (shape a) 0%nat));
    destruct (Z.ltb_spec 0 (Z.of_nat (nth axis (shape a) 0%nat)));
    try lia; reflexivity.
Qed.

Lemma take_axis_last (a : ndarray) (axis : nat) :
  take_axis a axis (-1)
  = if (0 <? nth axis (shape a) 0)%nat
    then Ok (select (at_index (shape a) axis (nth axis (shape a) 0 - 1)%nat)
                    (data a))
    else Raise IndexError.
Proof.
  unfold take_axis. cbn [Z.ltb Z.compare].
  set (n := nth axis (shape a) 0%nat).
  destruct (Nat.ltb_spec 0 n);
    destruct (Z.leb_spec 0 (Z.of_nat n + -1));
    destruct (Z.ltb_spec (Z.of_nat n + -1) (Z.of_nat n));
    try lia; cbn [andb]; try reflexivity.
  replace (Z.to_nat (Z.of_nat n + -1)) with (n - 1)%nat by lia. reflexivity.
Qed.

Lemma In_set_of (v : Z) (l : list Z) : In v (set_of l) <-> In v l.
Proof. unfold set_of. apply nodup_In. Qed.

(** The labels collected by [clear_XY_borders] are the labels of the
    voxels on the row and column faces; whether they can be collected
    depends on the shape alone. *)
Lemma XY_border_labels_eq (L : ndarray) :
  XY_border_labels L
  = if (0 <? nth 1 (shape L) 0)%nat && (0 <? nth 2 (shape L) 0)%nat
    then Ok (set_of
      (unique (select (at_index (shape L) 1 0) (data L))
       ++ unique (select (at_index (shape L) 1 (nth 1 (shape L) 0 - 1)%nat)
                         (data L))
       ++ unique (select (at_index (shape L) 2 0) (data L))
       ++ unique (select (at_index (shape L) 2 (nth 2 (shape L) 0 - 1)%nat)
                         (data L))))
    else Raise IndexError.
Proof.
  unfold XY_border_labels. rewrite !take_axis_first, !take_axis_last.
  destruct (0 <? nth 1 (shape L) 0)%nat; [|reflexivity].
  destruct (0 <? nth 2 (shape L) 0)%nat; reflexivity.
Qed.

Lemma Z_border_labels_eq (L : ndarray) :
  Z_border_labels L
  = if (0 <? nth 0 (shape L) 0)%nat
    then Ok (set_of
      (unique (select (at_index (shape L) 0 0) (data L))
       ++ unique (select (at_index (shape L) 0 (nth 0 (shape L) 0 - 1)%nat)
                         (data L))))
    else Raise IndexError.
Proof.
  unfold Z_border_labels. rewrite !take_axis_first, !take_axis_last.
  destruct (0 <? nth 0 (shape L) 0)%nat; reflexivity.
Qed.

Lemma XY_border_labels_spec (L : ndarray) (labs : list Z) (v : Z) :
  XY_border_labels L = Ok labs ->
  (In v labs <->
   exists i, (i < length (data L))%nat /\ XY_face (shape L) i = true /\ get L i = v).
Proof.
  rewrite XY_border_labels_eq.
  destruct ((0 <? nth 1 (shape L) 0)%nat && (0 <? nth 2 (shape L) 0)%nat);
    [|discriminate].
  intros H; inversion H; subst labs; clear H.
  rewrite In_set_of, !in_app_iff, !unique_In, !In_select_iff.
  unfold XY_face. split.
  - intros [H|[H|[H|H]]]; destruct H as (i & Hi & Hf & Hv); exists i;
      repeat split; auto; rewrite Hf; rewrite ?orb_true_r; reflexivity.
  - intros (i & Hi & Hf & Hv).
    apply orb_true_iff in Hf as [Hf|Hf]; [|right; right; right; eauto].
    apply orb_true_iff in Hf as [Hf|Hf]; [|right; right; left; eauto].
    apply orb_true_iff in Hf as [Hf|Hf]; [left; eauto | right; left; eauto].
Qed.

Lemma Z_border_labels_spec (L : ndarray) (labs : list Z) (v : Z) :
  Z_border_labels L = Ok labs ->
  (In v labs <->
   exists i, (i < length (data L))%nat /\ Z_face (shape L) i = true /\ get L i = v).
Proof.
  rewrite Z_border_labels_eq.
  destruct (0 <? nth 0 (shape L) 0)%nat; [|discriminate].
  intros H; inversion H; subst labs; clear H.
  rewrite In_set_of, !in_app_iff, !unique_In, !In_select_iff.
  unfold Z_face. split.
  - intros [H|H]; destruct H as (i & Hi & Hf & Hv); exists i;
      repeat split; auto; rewrite Hf; rewrite ?orb_true_r; reflexivity.
  - intros (i & Hi & Hf & Hv).
    apply orb_true_iff in Hf as [Hf|Hf]; [left; eauto | right; eauto].
Qed.

Lemma XY_border_labels_shape (L L' : ndarray) (labs : list Z) :
  XY_border_labels L = Ok labs -> shape L' = shape L ->
  exists labs', XY_border_labels L' = Ok labs'.
Proof.
  rewrite !XY_border_labels_eq. intros H ->.
  destruct ((0 <? nth 1 (shape L) 0)%nat && (0 <? nth 2 (shape L) 0)%nat);
    [eauto | discriminate].
Qed.

Lemma Z_border_labels_shape (L L' : ndarray) (labs : list Z) :
  Z_border_labels L = Ok labs -> shape L' = shape L ->
  exists labs', Z_border_labels L' = Ok labs'.
Proof.
  rewrite !Z_border_labels_eq. intros H ->.
  destruct (0 <? nth 0 (shape L) 0)%nat; [eauto | discriminate].
Qed.

(** ** Clearing the faces of a stack *)

Section ClearFaces.

Variable faces : ndarray -> result (list Z).
Variable face : list nat -> nat -> bool.

Hypothesis faces_spec :
  forall L labs v, faces L = Ok labs ->
    (In v labs <->
     exists i, (i < length (data L))%nat /\ face (shape L) i = true /\ get L i = v).

Hypothesis faces_shape :
  forall L L' labs, faces L = Ok labs -> shape L' = shape L ->
    exists labs', faces L' = Ok labs'.

(** After the labels met on the faces are removed and the rest is
    relabeled, the voxels that remain are those of the labels that have no
    voxel on a face. *)
Lemma cleared_support (L R : ndarray) (labs : list Z) (i : nat) :
  faces L = Ok labs -> is_labelling (zero_labels labs L) R ->
  (i < length (data L))%nat ->
  (get R i <> 0 <-> get L i <> 0 /\ ~ In (get L i) labs).
Proof.
  intros Hf (_ & _ & H0 & _) Hi.
  rewrite zero_labels_length in H0. rewrite (H0 i Hi), zero_labels_get.
  destruct (existsb (Z.eqb (get L i)) labs) eqn:E.
  - apply existsb_eqb_In in E. intuition.
  - assert (~ In (get L i) labs).
    { intros Hin. apply existsb_eqb_In in Hin. congruence. }
    intuition.
Qed.

Lemma cleared_faces_are_zero (L R : ndarray) (labs : list Z) (i : nat) :
  faces L = Ok labs -> is_labelling (zero_labels labs L) R ->
  (i < length (data L))%nat -> face (shape L) i = true -> get R i = 0.
Proof.
  intros Hf HR Hi Hface.
  destruct (Z.eq_dec (get R i) 0) as [E|E]; [exact E|].
  apply (cleared_support L R labs i Hf HR Hi) in E as [_ Hn].
  exfalso. apply Hn. apply (faces_spec L labs _ Hf). eauto.
Qed.

(** A second pass finds only background on the faces and removes
    nothing. *)
Lemma cleared_again (L R : ndarray) (labs : list Z) :
  faces L = Ok labs -> is_labelling (zero_labels labs L) R ->
  exists labs', faces R = Ok labs' /\ zero_labels labs' R = R.
Proof.
  intros Hf HR. pose proof HR as (Hsh & Hlen & _).
  rewrite zero_labels_shape in Hsh. rewrite zero_labels_length in Hlen.
  destruct (faces_shape L R labs Hf Hsh) as [labs' Hf'].
  exists labs'. split; [exact Hf'|].
  apply zero_labels_none. intros v Hv.
  apply (faces_spec R labs' v Hf') in Hv as (i & Hi & Hface & <-).
  rewrite Hsh in Hface. rewrite Hlen in Hi.
  now apply (cleared_faces_are_zero L R labs i).
Qed.

End ClearFaces.

(** ** Clearing the border of a 2-D image *)

Lemma nth_map_combine (g : Z * Z -> Z) (l l' : list Z) (n : nat) :
  g (0, 0) = 0 -> length l = length l' ->
  nth n (map g (combine l l')) 0 = g (nth n l 0, nth n l' 0).
Proof.
  intros Hg Hlen. rewrite <- Hg at 1. rewrite map_nth. f_equal.
  now apply combine_nth.
Qed.

Lemma clear_border_eq (label : ndarray -> ndarray) (image : ndarray) :
  clear_border label image
  = if existsb (Nat.eqb 0) (shape image) then Raise ValueError
    else Ok (mk_ndarray (shape image)
          (map (fun p =>
                  if existsb (Z.eqb (snd p))
                       (unique (select (on_border (shape image))
                                       (data (label image))))
                  then 0 else fst p)
               (combine (data image) (data (label image))))).
Proof. reflexivity. Qed.

Lemma clear_border_get (label : ndarray -> ndarray) (L R : ndarray) (i : nat) :
  clear_border label L = Ok R -> length (data (label L)) = length (data L) ->
  shape R = shape L /\ length (data R) = length (data L) /\
  get R i
  = if existsb (Z.eqb (get (label L) i))
         (unique (select (on_border (shape L)) (data (label L))))
    then 0 else get L i.
Proof.
  rewrite clear_border_eq. destruct (existsb (Nat.eqb 0) (shape L)); [discriminate|].
  intros H Hlen. inversion H; subst R; clear H. cbn [shape data].
  split; [reflexivity|]. split.
  - rewrite length_map, length_combine. lia.
  - unfold get; cbn [data]. rewrite nth_map_combine; [reflexivity | | congruence].
    cbn [fst snd]. destruct (existsb _ _); reflexivity.
Qed.

(** [clear_border] leaves no foreground on the border. *)
Lemma clear_border_border_zero (label : ndarray -> ndarray) (L R : ndarray)
    (i : nat) :
  clear_border label L = Ok R -> length (data (label L)) = length (data L) ->
  (i < length (data L))%nat -> on_border (shape L) i = true -> get R i = 0.
Proof.
  intros H Hlen Hi Hb.
  destruct (clear_border_get label L R i H Hlen) as (_ & _ & ->).
  replace (existsb _ _) with true; [reflexivity|].
  symmetry. apply existsb_eqb_In, unique_In, In_select_iff.
  exists i. rewrite Hlen. auto.
Qed.

Lemma clear_border_idempotent (label : ndarray -> ndarray) (L R : ndarray) :
  clear_border label L = Ok R ->
  labels_correctly label L -> labels_correctly label R ->
  clear_border label R = Ok R.
Proof.
  intros H (_ & HlenL & _) (_ & HlenR & H0 & _).
  destruct (clear_border_get label L R 0 H HlenL) as (Hsh & Hlen & _).
  assert (Hne : existsb (Nat.eqb 0) (shape L) = false).
  { rewrite clear_border_eq in H.
    destruct (existsb (Nat.eqb 0) (shape L)); [discriminate | reflexivity]. }
  rewrite clear_border_eq, Hsh, Hne.
  destruct R as [sh d]; cbn [shape data] in *. subst sh. f_equal. f_equal.
  apply nth_ext with (d := 0) (d' := 0).
  - rewrite length_map, length_combine. lia.
  - intros n Hn. rewrite nth_map_combine;
      [|cbn [fst snd];
        match goal with |- (if ?c then _ else _) = _ => destruct c end;
        reflexivity
       |congruence].
    cbn [fst snd].
    match goal with |- (if ?c then _ else _) = _ => destruct c eqn:E end;
      [|reflexivity].
    apply existsb_eqb_In, unique_In, In_select_iff in E
      as (i & Hi & Hb & Hv).
    rewrite HlenR in Hi.
    assert (Hz : get (mk_ndarray (shape L) d) i = 0).
    { apply (clear_border_border_zero label L _ i H HlenL); [lia | exact Hb]. }
    apply (H0 i Hi) in Hz. rewrite Hz in Hv.
    symmetry. rewrite length_map, length_combine in Hn.
    apply (H0 n ltac:(lia)). exact (eq_sym Hv).
Qed.

(** ** Border clearing *)

Lemma ndim_eqb_3 (L : ndarray) :
  ndim L = 3%nat -> (2 =? ndim L)%nat = false /\ (3 =? ndim L)%nat = true.
Proof. intros ->. split; reflexivity. Qed.

Lemma clear_XY_borders_3D (label : ndarray -> ndarray) (L R : ndarray) :
  ndim L = 3%nat -> clear_XY_borders label L = Ok R ->
  exists labs, XY_border_labels L = Ok labs /\
               XY_label_input L = zero_labels labs L /\
               R = label (zero_labels labs L).
Proof.
  intros Hnd H. unfold clear_XY_borders, XY_label_input in *.
  destruct (ndim_eqb_3 L Hnd) as [E2 E3]. rewrite ?E2, ?E3 in *.
  destruct (XY_border_labels L) as [labs|e]; [|discriminate].
  cbn [bind] in H. inversion H. eauto.
Qed.

Lemma clear_Z_borders_3D (label : ndarray -> ndarray) (L R : ndarray) :
  ndim L = 3%nat -> clear_Z_borders label L = Ok R ->
  exists labs, Z_border_labels L = Ok labs /\
               Z_label_input L = zero_labels labs L /\
               R = label (zero_labels labs L).
Proof.
  intros Hnd H. unfold clear_Z_borders, Z_label_input in *.
  destruct (ndim_eqb_3 L Hnd) as [E2 E3]. rewrite ?E2, ?E3 in *.
  destruct (Z_border_labels L) as [labs|e]; [|discriminate].
  cbn [bind] in H. inversion H. eauto.
Qed.

(** C4.  On a 3-D labeled image, XY border clearing keeps (as foreground
    of the relabeled result) exactly the voxels whose label is not 0 and
    has no voxel on a row or column face: a label is removed exactly when
    it has a voxel on such a face, and a label whose voxels lie on the
    first or last depth slice but on no row or column face is kept.  The
    voxels that are kept form the same regions as before: two of them
    share a label in the result exactly when they were connected.  The
    clearing returns a result whenever the row and column extents are not
    empty.  On a 2-D image, Z border clearing returns the image
    unchanged. *)
Theorem XY_clearing_removes_face_labels (label : ndarray -> ndarray)
    (L : ndarray) :
  (ndim L = 3%nat -> labels_correctly label (XY_label_input L) ->
   forall R, clear_XY_borders label L = Ok R ->
     (forall i, (i < length (data L))%nat ->
        (get R i <> 0 <->
         get L i <> 0 /\
         ~ exists j, (j < length (data L))%nat /\
                     XY_face (shape L) j = true /\ get L j = get L i))
     /\
     (forall i, (i < length (data L))%nat -> get L i <> 0 ->
        Z_face (shape L) i = true ->
        (forall j, (j < length (data L))%nat -> XY_face (shape L) j = true ->
                   get L j <> get L i) ->
        get R i <> 0)
     /\
     (forall i j, (i < length (data L))%nat -> (j < length (data L))%nat ->
        get R i <> 0 -> get R j <> 0 ->
        (get R i = get R j <-> connected L i j)))
  /\
  (ndim L = 3%nat ->
   (0 < nth 1 (shape L) 0)%nat -> (0 < nth 2 (shape L) 0)%nat ->
   exists R, clear_XY_borders label L = Ok R)
  /\
  (ndim L = 2%nat -> clear_Z_borders label L = Ok L).
Proof.
  split; [|split].
  - intros Hnd Hlab R H.
    destruct (clear_XY_borders_3D label L R Hnd H) as (labs & Hf & Hin & ->).
    unfold labels_correctly in Hlab. rewrite Hin in Hlab.
    pose proof (cleared_support XY_border_labels L
                  (label (zero_labels labs L)) labs) as Hsup.
    assert (Hkeep : forall i, (i < length (data L))%nat ->
              (get (label (zero_labels labs L)) i <> 0 <->
               get L i <> 0 /\
               ~ exists j, (j < length (data L))%nat /\
                           XY_face (shape L) j = true /\ get L j = get L i)).
    { intros i Hi. rewrite (Hsup i Hf Hlab Hi).
      rewrite (XY_border_labels_spec L labs (get L i) Hf). reflexivity. }
    split; [exact Hkeep|]. split.
    + intros i Hi Hnz _ Hno. apply (Hkeep i Hi). split; [exact Hnz|].
      intros (j & Hj & Hface & E). exact (Hno j Hj Hface E).
    + intros i j Hi Hj Hri Hrj.
      apply (Hsup i Hf Hlab Hi) in Hri as [Hni Hki].
      apply (Hsup j Hf Hlab Hj) in Hrj as [Hnj Hkj].
      rewrite <- (connected_zero_labels L labs i j Hni Hki).
      destruct Hlab as (_ & _ & _ & Hpart & _).
      rewrite zero_labels_length in Hpart.
      apply (Hpart i j Hi Hj); rewrite zero_labels_get.
      * destruct (existsb (Z.eqb (get L i)) labs) eqn:E; [|exact Hni].
        apply existsb_eqb_In in E. contradiction.
      * destruct (existsb (Z.eqb (get L j)) labs) eqn:E; [|exact Hnj].
        apply existsb_eqb_In in E. contradiction.
  - intros Hnd H1 H2. unfold clear_XY_borders.
    destruct (ndim_eqb_3 L Hnd) as [E2 E3]. rewrite E2, E3, XY_border_labels_eq.
    destruct (Nat.ltb_spec 0 (nth 1 (shape L) 0%nat)); [|lia].
    destruct (Nat.ltb_spec 0 (nth 2 (shape L) 0%nat)); [|lia].
    cbn [andb bind]. eauto.
  - intros Hnd. unfold clear_Z_borders. rewrite Hnd. reflexivity.
Qed.

(** C5.  Clearing a cleared image gives the cleared image again, for XY
    and for Z clearing, on images of any rank; [label] is assumed to
    behave as the library documents on the arrays the two runs hand to
    it.  Both clearings return a result on every image without an empty
    axis. *)
Theorem border_clearing_idempotent (label : ndarray -> ndarray) (L : ndarray) :
  (forall R, clear_XY_borders label L = Ok R ->
     labels_correctly label (XY_label_input L) -> labels_correctly label R ->
     clear_XY_borders label R = Ok R)
  /\
  (forall R, clear_Z_borders label L = Ok R ->
     labels_correctly label (Z_label_input L) -> labels_correctly label R ->
     clear_Z_borders label R = Ok R)
  /\
  (Forall (fun d => 0 < d)%nat (shape L) ->
   (exists R, clear_XY_borders label L = Ok R) /\
   (exists R, clear_Z_borders label L = Ok R)).
Proof.
  split; [|split].
  - intros R H HL HR.
    destruct (Nat.eq_dec (ndim L) 2) as [E2|N2].
    { unfold clear_XY_borders, XY_label_input in *. rewrite E2 in *.
      cbn [Nat.eqb] in *.
      assert (Hsh : shape R = shape L).
      { destruct HL as (_ & Hlen & _).
        now destruct (clear_border_get label L R 0 H Hlen). }
      unfold ndim. rewrite Hsh. fold (ndim L). rewrite E2. cbn [Nat.eqb].
      exact (clear_border_idempotent label L R H HL HR). }
    destruct (Nat.eq_dec (ndim L) 3) as [E3|N3].
    { destruct (clear_XY_borders_3D label L R E3 H) as (labs & Hf & Hin & ->).
      unfold labels_correctly in HL. rewrite Hin in HL.
      destruct (cleared_again XY_border_labels XY_face XY_border_labels_spec
                  XY_border_labels_shape L _ labs Hf HL) as (labs' & Hf' & Hz).
      pose proof HL as (Hsh & _). rewrite zero_labels_shape in Hsh.
      unfold clear_XY_borders, ndim. rewrite Hsh. fold (ndim L).
      destruct (ndim_eqb_3 L E3) as [B2 B3]. rewrite ?B2, ?B3.
      rewrite Hf'. cbn [bind]. rewrite Hz. f_equal.
      exact (labelling_idempotent _ _ _ HL HR). }
    unfold clear_XY_borders in *.
    destruct (Nat.eqb_spec 2 (ndim L)); [congruence|].
    destruct (Nat.eqb_spec 3 (ndim L)); [congruence|].
    inversion H; subst R.
    destruct (Nat.eqb_spec 2 (ndim L)); [congruence|].
    destruct (Nat.eqb_spec 3 (ndim L)); [congruence|]. reflexivity.
  - intros R H HL HR.
    destruct (Nat.eq_dec (ndim L) 3) as [E3|N3].
    { destruct (clear_Z_borders_3D label L R E3 H) as (labs & Hf & Hin & ->).
      unfold labels_correctly in HL. rewrite Hin in HL.
      destruct (cleared_again Z_border_labels Z_face Z_border_labels_spec
                  Z_border_labels_shape L _ labs Hf HL) as (labs' & Hf' & Hz).
      pose proof HL as (Hsh & _). rewrite zero_labels_shape in Hsh.
      unfold clear_Z_borders, ndim. rewrite Hsh. fold (ndim L).
      destruct (ndim_eqb_3 L E3) as [B2 B3]. rewrite ?B2, ?B3.
      rewrite Hf'. cbn [bind]. rewrite Hz. f_equal.
      exact (labelling_idempotent _ _ _ HL HR). }
    unfold clear_Z_borders in *.
    destruct (Nat.eqb_spec 3 (ndim L)); [congruence|].
    assert (R = L) by (destruct (2 =? ndim L)%nat; inversion H; reflexivity).
    subst R. destruct (Nat.eqb_spec 3 (ndim L)); [congruence|].
    destruct (2 =? ndim L)%nat; reflexivity.
  - intros Hpos. rewrite Forall_forall in Hpos.
    assert (Hne : existsb (Nat.eqb 0) (shape L) = false).
    { destruct (existsb (Nat.eqb 0) (shape L)) eqn:E; [|reflexivity].
      apply existsb_exists in E as (d & Hd & E). apply Nat.eqb_eq in E.
      specialize (Hpos d Hd). lia. }
    assert (Hnth : ndim L = 3%nat -> forall k, (k < 3)%nat ->
                   (0 <? nth k (shape L) 0)%nat = true).
    { intros E3 k Hk. apply Nat.ltb_lt. apply Hpos. apply nth_In.
      unfold ndim in E3. lia. }
    split.
    + unfold clear_XY_borders. rewrite clear_border_eq, Hne.
      destruct (2 =? ndim L)%nat; [eauto|].
      destruct (Nat.eqb_spec 3 (ndim L)) as [E3|]; [|eauto].
      rewrite XY_border_labels_eq, !Hnth by (auto; lia). cbn [andb bind]. eauto.
    + unfold clear_Z_borders.
      destruct (2 =? ndim L)%nat; [eauto|].
      destruct (Nat.eqb_spec 3 (ndim L)) as [E3|]; [|eauto].
      rewrite Z_border_labels_eq, !Hnth by (auto; lia). cbn [bind]. eauto.
Qed.

(** ** A stack with a corner voxel and a centre voxel *)

Lemma nth_map_zero (f : Z -> Z) (l : list Z) (i : nat) :
  f 0 = 0 -> nth i (map f l) 0 = f (nth i l 0).
Proof. intros E. rewrite <- E at 1. apply map_nth. Qed.

Lemma binarize_get (X : ndarray) (i : nat) :
  get (binarize X) i = if get X i =? 0 then 0 else 1.
Proof.
  unfold get, binarize; cbn [data]. now rewrite nth_map_zero.
Qed.

Lemma binarize_labelling (X : ndarray) :
  (forall i j, (i < length (data X))%nat -> (j < length (data X))%nat ->
               get X i <> 0 -> get X j <> 0 -> i = j) ->
  is_labelling X (binarize X).
Proof.
  intros Hone. unfold is_labelling.
  split; [reflexivity|]. split; [apply length_map|]. split; [|split].
  - intros i _. rewrite binarize_get.
    destruct (Z.eqb_spec (get X i) 0); split; intros; congruence || lia.
  - intros i j Hi Hj Hni Hnj. rewrite (Hone i j Hi Hj Hni Hnj).
    split; [constructor | reflexivity].
  - intros i _. fold (get (binarize X) i). rewrite binarize_get.
    pose proof (max_before_nonneg (data (binarize X)) i).
    destruct (get X i =? 0); lia.
Qed.

Lemma forall_below (P : nat -> Prop) (n : nat) :
  Forall P (seq 0 n) -> forall i, (i < n)%nat -> P i.
Proof.
  intros H i Hi. rewrite Forall_forall in H. apply H, in_seq. lia.
Qed.

Lemma centre_only_labelling (v : Z) :
  labels_correctly binarize (centre_only v).
Proof.
  apply binarize_labelling.
  assert (H : forall i, (i < 27)%nat -> get (centre_only v) i <> 0 -> i = 13%nat).
  { apply (forall_below
             (fun i => get (centre_only v) i <> 0 -> i = 13%nat) 27).
    repeat (constructor;
            [intros H; try reflexivity; exfalso; apply H; reflexivity|]).
    constructor. }
  intros i j Hi Hj Hni Hnj. rewrite (H i Hi Hni), (H j Hj Hnj). reflexivity.
Qed.

Lemma border_clearing_idempotent_witness :
  clear_XY_borders binarize corner_and_centre = Ok (centre_only 1)
  /\ clear_XY_borders binarize (centre_only 1) = Ok (centre_only 1)
  /\ clear_Z_borders binarize corner_and_centre = Ok (centre_only 1)
  /\ clear_Z_borders binarize (centre_only 1) = Ok (centre_only 1).
Proof.
  destruct (border_clearing_idempotent binarize corner_and_centre)
    as (HXY & HZ & _).
  split; [reflexivity|]. split; [|split; [reflexivity|]].
  - apply HXY; [reflexivity | | apply centre_only_labelling].
    change (XY_label_input corner_and_centre) with (centre_only 7).
    apply centre_only_labelling.
  - apply HZ; [reflexivity | | apply centre_only_labelling].
    change (Z_label_input corner_and_centre) with (centre_only 7).
    apply centre_only_labelling.
Defined.

Lemma XY_clearing_removes_face_labels_witness :
  clear_XY_borders binarize corner_and_centre = Ok (centre_only 1)
  /\ (get (centre_only 1) 13 <> 0 <->
      get corner_and_centre 13 <> 0 /\
      ~ exists j, (j < 27)%nat /\
                  XY_face [3; 3; 3]%nat j = true /\
                  get corner_and_centre j = get corner_and_centre 13)
  /\ clear_Z_borders binarize (mk_ndarray [2; 2]%nat [1; 1; 1; 1])
     = Ok (mk_ndarray [2; 2]%nat [1; 1; 1; 1]).
Proof.
  destruct (XY_clearing_removes_face_labels binarize corner_and_centre)
    as (HXY & _ & _).
  destruct (HXY eq_refl) with (R := centre_only 1) as (Hkeep & _ & _).
  - change (XY_label_input corner_and_centre) with (centre_only 7).
    apply centre_only_labelling.
  - reflexivity.
  - split; [reflexivity|]. split.
    + apply (Hkeep 13%nat). simpl; lia.
    + apply (proj2 (proj2 (XY_clearing_removes_face_labels binarize
                             (mk_ndarray [2; 2]%nat [1; 1; 1; 1])))).
      reflexivity.
Defined.

(** * Further properties *)

(** ** The finder on images it accepts *)

Lemma finder_one_particle_per_label_witness :
  exists ps,
    get_particles_from_labeled_image
      (mk_Labeled two_diagonals (Some "YX"%string) [1%Q; 1%Q]) Nucleus = Ok ps
    /\ Forall2 (particle_of (mk_Labeled two_diagonals (Some "YX"%string)
                                        [1%Q; 1%Q]))
               [1; 2] ps.
Proof.
  destruct (finder_one_particle_per_label
              (mk_Labeled two_diagonals (Some "YX"%string) [1%Q; 1%Q]) Nucleus)
    as (_ & _ & Hret & Hprog).
  { unfold ndim; simpl; lia. }
  destruct Hprog as [ps Hps].
  - exists 0, 1. simpl. repeat split; auto; lia.
  - intros _ lab Hlab.
    change (particle_labels (L_pixels _)) with [1; 2] in Hlab.
    destruct Hlab as [<-|[<-|[]]]; vm_compute; auto.
  - exists ps. split; [exact Hps|]. exact (Hret ps Hps).
Defined.

(** ** Border clearing: the faces afterwards, and clearing in depth *)

(** X2.  After border clearing no foreground is left on the cleared
    faces: on the row and column faces of a stack after XY clearing, on
    its first and last depth slice after Z clearing, and on the border of
    a 2-D image after XY clearing. *)
Theorem cleared_faces_are_background (label : ndarray -> ndarray)
    (L R : ndarray) (i : nat) :
  (i < length (data L))%nat ->
  (ndim L = 3%nat -> labels_correctly label (XY_label_input L) ->
   clear_XY_borders label L = Ok R -> XY_face (shape L) i = true ->
   get R i = 0)
  /\
  (ndim L = 3%nat -> labels_correctly label (Z_label_input L) ->
   clear_Z_borders label L = Ok R -> Z_face (shape L) i = true ->
   get R i = 0)
  /\
  (ndim L = 2%nat -> labels_correctly label L ->
   clear_XY_borders label L = Ok R -> on_border (shape L) i = true ->
   get R i = 0).
Proof.
  intros Hi. split; [|split].
  - intros Hnd Hlab H Hface.
    destruct (clear_XY_borders_3D label L R Hnd H) as (labs & Hf & Hin & ->).
    unfold labels_correctly in Hlab. rewrite Hin in Hlab.
    exact (cleared_faces_are_zero XY_border_labels XY_face
             XY_border_labels_spec L _ labs i Hf Hlab Hi Hface).
  - intros Hnd Hlab H Hface.
    destruct (clear_Z_borders_3D label L R Hnd H) as (labs & Hf & Hin & ->).
    unfold labels_correctly in Hlab. rewrite Hin in Hlab.
    exact (cleared_faces_are_zero Z_border_labels Z_face
             Z_border_labels_spec L _ labs i Hf Hlab Hi Hface).
  - intros Hnd (_ & Hlen & _) H Hb.
    unfold clear_XY_borders in H. rewrite Hnd in H. cbn [Nat.eqb] in H.
    exact (clear_border_border_zero label L R i H Hlen Hi Hb).
Qed.

Lemma cleared_faces_are_background_witness :
  clear_XY_borders binarize corner_and_centre = Ok (centre_only 1)
  /\ XY_face (shape corner_and_centre) 0 = true
  /\ get corner_and_centre 0 = 4
  /\ get (centre_only 1) 0 = 0.
Proof.
  split; [reflexivity|]. split; [reflexivity|]. split; [reflexivity|].
  refine (proj1 (cleared_faces_are_background binarize corner_and_centre
                   (centre_only 1) 0 _) eq_refl _ eq_refl eq_refl).
  - simpl; lia.
  - change (XY_label_input corner_and_centre) with (centre_only 7).
    apply centre_only_labelling.
Defined.

(** X3.  On a 3-D labeled image, Z border clearing keeps (as foreground
    of the relabeled result) exactly the voxels whose label is not 0 and
    has no voxel on the first or last depth slice, and the voxels it keeps
    form the same regions as before.  It returns a result whenever the
    depth axis is not empty. *)
Theorem Z_clearing_removes_slice_labels (label : ndarray -> ndarray)
    (L : ndarray) :
  (ndim L = 3%nat -> labels_correctly label (Z_label_input L) ->
   forall R, clear_Z_borders label L = Ok R ->
     (forall i, (i < length (data L))%nat ->
        (get R i <> 0 <->
         get L i <> 0 /\
         ~ exists j, (j < length (data L))%nat /\
                     Z_face (shape L) j = true /\ get L j = get L i))
     /\
     (forall i j, (i < length (data L))%nat -> (j < length (data L))%nat ->
        get R i <> 0 -> get R j <> 0 ->
        (get R i = get R j <-> connected L i j)))
  /\
  (ndim L = 3%nat -> (0 < nth 0 (shape L) 0)%nat ->
   exists R, clear_Z_borders label L = Ok R).
Proof.
  split.
  - intros Hnd Hlab R H.
    destruct (clear_Z_borders_3D label L R Hnd H) as (labs & Hf & Hin & ->).
    unfold labels_correctly in Hlab. rewrite Hin in Hlab.
    pose proof (cleared_support Z_border_labels L
                  (label (zero_labels labs L)) labs) as Hsup.
    split.
    + intros i Hi. rewrite (Hsup i Hf Hlab Hi).
      rewrite (Z_border_labels_spec L labs (get L i) Hf). reflexivity.
    + intros i j Hi Hj Hri Hrj.
      apply (Hsup i Hf Hlab Hi) in Hri as [Hni Hki].
      apply (Hsup j Hf Hlab Hj) in Hrj as [Hnj Hkj].
      rewrite <- (connected_zero_labels L labs i j Hni Hki).
      destruct Hlab as (_ & _ & _ & Hpart & _).
      rewrite zero_labels_length in Hpart.
      apply (Hpart i j Hi Hj); rewrite zero_labels_get.
      * destruct (existsb (Z.eqb (get L i)) labs) eqn:E; [|exact Hni].
        apply existsb_eqb_In in E. contradiction.
      * destruct (existsb (Z.eqb (get L j)) labs) eqn:E; [|exact Hnj].
        apply existsb_eqb_In in E. contradiction.
  - intros Hnd H0. unfold clear_Z_borders.
    destruct (ndim_eqb_3 L Hnd) as [E2 E3]. rewrite E2, E3, Z_border_labels_eq.
    destruct (Nat.ltb_spec 0 (nth 0 (shape L) 0%nat)); [|lia].
    cbn [bind]. eauto.
Qed.

Lemma Z_clearing_removes_slice_labels_witness :
  clear_Z_borders binarize corner_and_centre = Ok (centre_only 1)
  /\ (get (centre_only 1) 13 <> 0 <->
      get corner_and_centre 13 <> 0 /\
      ~ exists j, (j < 27)%nat /\
                  Z_face [3; 3; 3]%nat j = true /\
                  get corner_and_centre j = get corner_and_centre 13).
Proof.
  destruct (Z_clearing_removes_slice_labels binarize corner_and_centre)
    as (HZ & _).
  destruct (HZ eq_refl) with (R := centre_only 1) as (Hkeep & _).
  - change (Z_label_input corner_and_centre) with (centre_only 7).
    apply centre_only_labelling.
  - reflexivity.
  - split; [reflexivity|]. apply (Hkeep 13%nat). simpl; lia.
Defined.

(** X4.  How border clearing answers images it cannot clear.  An image
    whose rank is neither 2 nor 3 comes back unchanged from both
    clearings, whatever [label] is.  A stack with an empty row or column
    axis makes XY clearing raise IndexError, and a stack with an empty
    depth axis makes Z clearing raise IndexError.  A 2-D image with an
    empty axis makes XY clearing raise ValueError. *)
Theorem border_clearing_on_odd_shapes (label : ndarray -> ndarray)
    (L : ndarray) :
  (ndim L <> 2%nat -> ndim L <> 3%nat ->
   clear_XY_borders label L = Ok L /\ clear_Z_borders label L = Ok L)
  /\
  (ndim L = 3%nat ->
   (nth 1 (shape L) 0%nat = 0%nat \/ nth 2 (shape L) 0%nat = 0%nat) ->
   clear_XY_borders label L = Raise IndexError)
  /\
  (ndim L = 3%nat -> nth 0 (shape L) 0%nat = 0%nat ->
   clear_Z_borders label L = Raise IndexError)
  /\
  (ndim L = 2%nat -> In 0%nat (shape L) ->
   clear_XY_borders label L = Raise ValueError).
Proof.
  split; [|split; [|split]].
  - intros N2 N3. unfold clear_XY_borders, clear_Z_borders.
    destruct (Nat.eqb_spec 2 (ndim L)); [congruence|].
    destruct (Nat.eqb_spec 3 (ndim L)); [congruence|]. auto.
  - intros Hnd H0. unfold clear_XY_borders.
    destruct (ndim_eqb_3 L Hnd) as [E2 E3]. rewrite E2, E3, XY_border_labels_eq.
    destruct H0 as [-> | ->]; cbn [Nat.ltb Nat.leb andb bind];
      [reflexivity | rewrite andb_false_r; reflexivity].
  - intros Hnd H0. unfold clear_Z_borders.
    destruct (ndim_eqb_3 L Hnd) as [E2 E3]. rewrite E2, E3, Z_border_labels_eq.
    rewrite H0. reflexivity.
  - intros Hnd H0. unfold clear_XY_borders. rewrite Hnd. cbn [Nat.eqb].
    rewrite clear_border_eq.
    replace (existsb (Nat.eqb 0) (shape L)) with true; [reflexivity|].
    symmetry. apply existsb_exists. exists 0%nat. split; [exact H0|reflexivity].
Qed.

Lemma border_clearing_on_odd_shapes_witness :
  clear_XY_borders binarize (mk_ndarray [2; 0; 3]%nat []) = Raise IndexError
  /\ clear_XY_borders binarize (mk_ndarray [0; 3]%nat []) = Raise ValueError
  /\ clear_Z_borders binarize (mk_ndarray [4]%nat [1; 0; 2; 2])
     = Ok (mk_ndarray [4]%nat [1; 0; 2; 2]).
Proof.
  split; [|split].
  - apply (proj1 (proj2 (border_clearing_on_odd_shapes binarize
                           (mk_ndarray [2; 0; 3]%nat [])))).
    + reflexivity.
    + left; reflexivity.
  - apply (proj2 (proj2 (proj2 (border_clearing_on_odd_shapes binarize
                                  (mk_ndarray [0; 3]%nat []))))).
    + reflexivity.
    + left; reflexivity.
  - apply (proj1 (border_clearing_on_odd_shapes binarize
                    (mk_ndarray [4]%nat [1; 0; 2; 2]))).
    + unfold ndim; simpl; lia.
    + unfold ndim; simpl; lia.
Defined.

(** ** The sample type of an image *)

(** X5.  The type name that [dtype] gives for a loaded image is the
    narrowest of uint8, uint16 and uint that holds its largest sample:
    with "uint8" every sample is at most 255; with "uint16" every sample
    is at most 65535 and some sample exceeds 255; "uint" is given only
    when some sample exceeds 65535.  The image itself is not changed.  On
    an image without samples the access raises ValueError. *)
Theorem dtype_is_narrowest (w : world) (self : ImageBase) (px : ndarray) :
  _pixels self = Some px ->
  (data px = [] -> dtype w self = Raise ValueError)
  /\
  (data px <> [] ->
   exists d, dtype w self = Ok (self, d) /\
     (d = "uint8"%string \/ d = "uint16"%string \/ d = "uint"%string) /\
     (d = "uint8"%string -> forall x, In x (data px) -> x <= 255) /\
     (d = "uint16"%string ->
      (forall x, In x (data px) -> x <= 65535) /\
      exists x, In x (data px) /\ 255 < x) /\
     (d = "uint"%string -> exists x, In x (data px) /\ 65535 < x)).
Proof.
  intros Hpx.
  assert (Hp : pixels w self = Ok (self, Some px)).
  { unfold pixels. rewrite Hpx. reflexivity. }
  unfold dtype. rewrite Hp. cbn [bind snd fst]. split.
  - intros E. unfold amax. rewrite E. reflexivity.
  - intros Hne. destruct (amax_total px Hne) as [m Hm]. rewrite Hm. cbn [bind].
    apply amax_spec in Hm as [Hin Hub].
    exists (get_dtype m). split; [reflexivity|].
    unfold get_dtype, get_dtype_loop.
    change (2 ^ 8 - 1) with 255. change (2 ^ 16 - 1) with 65535.
    change (format_uint 8) with "uint8"%string.
    change (format_uint 16) with "uint16"%string.
    destruct (Z.leb_spec m 255) as [H8|H8].
    + repeat split; auto; try discriminate.
      intros _ x Hx. specialize (Hub x Hx). lia.
    + destruct (Z.leb_spec m 65535) as [H16|H16].
      * repeat split; auto; try discriminate.
        -- intros x Hx. specialize (Hub x Hx). lia.
        -- exists m. auto.
      * repeat split; auto; try discriminate.
        intros _. exists m. auto.
Qed.

Lemma dtype_is_narrowest_witness :
  exists d,
    dtype (single_file "a.tif" (mk_ndarray [0]%nat []))
          (mk_ImageBase TZYX None (Some (mk_ndarray [3]%nat [7; 300; 12])))
    = Ok (mk_ImageBase TZYX None (Some (mk_ndarray [3]%nat [7; 300; 12])), d)
    /\ (d = "uint8"%string \/ d = "uint16"%string \/ d = "uint"%string).
Proof.
  destruct (proj2 (dtype_is_narrowest
                     (single_file "a.tif" (mk_ndarray [0]%nat []))
                     (mk_ImageBase TZYX None
                        (Some (mk_ndarray [3]%nat [7; 300; 12])))
                     (mk_ndarray [3]%nat [7; 300; 12]) eq_refl))
    as (d & E & Hd & _).
  - discriminate.
  - exists d. split; assumption.
Defined.

(** ** Dropping leading axes, in full *)

Lemma size_of_skipn_le (k : nat) (sh : list nat) :
  Forall (fun d => 0 < d)%nat (firstn k sh) ->
  (size_of (skipn k sh) <= size_of sh)%nat.
Proof.
  revert sh; induction k as [|k IH]; intros sh H; [simpl; lia|].
  destruct sh as [|d sh]; [simpl; lia|].
  cbn [firstn] in H. inversion H as [|? ? Hd Hrest]; subst.
  cbn [skipn]. specialize (IH sh Hrest).
  change (size_of (d :: sh)) with (d * size_of sh)%nat. nia.
Qed.

Lemma extract_nd_loop_drops (nd k : nat) :
  forall fuel sh d,
    length sh = (nd + S k)%nat -> (S k <= fuel)%nat ->
    Forall (fun x => 0 < x)%nat (firstn (S k) sh) ->
    extract_nd_loop fuel (mk_ndarray sh d) nd
    = Ok (mk_ndarray (skipn (S k) sh)
            (firstn (size_of (skipn (S k) sh)) d)).
Proof.
  induction k as [|k IH]; intros fuel sh d Hlen Hfuel Hpos.
  - destruct fuel as [|fuel]; [lia|]. destruct sh as [|d0 sh]; [simpl in Hlen; lia|].
    cbn [extract_nd_loop]. unfold ndim at 1. cbn [shape].
    destruct (Nat.leb_spec (length (d0 :: sh)) nd); [simpl in *; lia|].
    inversion Hpos as [|? ? Hd0 _]; subst.
    unfold getitem0. cbn [shape data]. destruct d0 as [|d0]; [lia|].
    cbn [bind skipn]. destruct fuel; cbn [extract_nd_loop]; unfold ndim;
      cbn [shape]; destruct (Nat.leb_spec (length sh) nd);
      try reflexivity; simpl in Hlen; lia.
  - destruct fuel as [|fuel]; [lia|]. destruct sh as [|d0 sh]; [simpl in Hlen; lia|].
    cbn [extract_nd_loop]. unfold ndim at 1. cbn [shape].
    destruct (Nat.leb_spec (length (d0 :: sh)) nd); [simpl in *; lia|].
    change (firstn (S (S k)) (d0 :: sh)) with (d0 :: firstn (S k) sh) in Hpos.
    inversion Hpos as [|? ? Hd0 Hrest]; subst.
    unfold getitem0. cbn [shape data]. destruct d0 as [|d0]; [lia|].
    cbn [bind]. rewrite IH; [|simpl in Hlen; lia|lia|exact Hrest].
    change (skipn (S (S k)) (S d0 :: sh)) with (skipn (S k) sh).
    f_equal. f_equal. rewrite firstn_firstn. f_equal.
    pose proof (size_of_skipn_le (S k) sh Hrest). lia.
Qed.

Lemma extract_nd_loop_empty_axis (nd k : nat) :
  forall fuel sh d,
    length sh = (nd + S k)%nat -> (S k <= fuel)%nat ->
    In 0%nat (firstn (S k) sh) ->
    extract_nd_loop fuel (mk_ndarray sh d) nd = Raise IndexError.
Proof.
  induction k as [|k IH]; intros fuel sh d Hlen Hfuel Hin;
    (destruct fuel as [|fuel]; [lia|]);
    (destruct sh as [|d0 sh]; [simpl in Hlen; lia|]);
    cbn [extract_nd_loop]; unfold ndim at 1; cbn [shape];
    (destruct (Nat.leb_spec (length (d0 :: sh)) nd); [simpl in *; lia|]);
    unfold getitem0; cbn [shape data].
  - change (firstn 1 (d0 :: sh)) with [d0] in Hin.
    destruct Hin as [-> | []]. reflexivity.
  - change (firstn (S (S k)) (d0 :: sh)) with (d0 :: firstn (S k) sh) in Hin.
    destruct Hin as [-> | Hin]; [reflexivity|].
    destruct d0 as [|d0]; [reflexivity|]. cbn [bind].
    apply IH; [simpl in Hlen; lia | lia | exact Hin].
Qed.

(** X6.  [extract_nd] keeps an array of rank at most [nd] as it is.
    From an array of higher rank it drops the leading axes, whatever their
    extent, by taking the first item of each: it keeps the last [nd]
    extents and the samples of the first items, which is a well-formed
    array when the input is.  It raises IndexError exactly when one of the
    axes to drop is empty. *)
Theorem extract_nd_keeps_last_axes (I : ndarray) (nd : nat) :
  (ndim I <= nd -> extract_nd I nd = Ok I)%nat
  /\
  (nd < ndim I ->
   Forall (fun d => 0 < d) (firstn (ndim I - nd) (shape I)) ->
   extract_nd I nd
   = Ok (mk_ndarray (skipn (ndim I - nd) (shape I))
           (firstn (size_of (skipn (ndim I - nd) (shape I))) (data I)))
   /\ (wf I ->
       length (firstn (size_of (skipn (ndim I - nd) (shape I))) (data I))
       = size_of (skipn (ndim I - nd) (shape I))))%nat
  /\
  (nd < ndim I -> In 0 (firstn (ndim I - nd) (shape I)) ->
   extract_nd I nd = Raise IndexError)%nat.
Proof.
  split; [apply extract_nd_small|].
  destruct I as [sh d]. unfold extract_nd, ndim, wf. cbn [shape data].
  split.
  - intros Hnd Hpos.
    assert (Ek : (length sh - nd = S (length sh - nd - 1))%nat) by lia.
    split.
    + rewrite Ek in Hpos |- *.
      apply (extract_nd_loop_drops nd (length sh - nd - 1));
        [lia | lia | exact Hpos].
    + intros Hwf. rewrite length_firstn.
      pose proof (size_of_skipn_le _ _ Hpos). lia.
  - intros Hnd Hin.
    assert (Ek : (length sh - nd = S (length sh - nd - 1))%nat) by lia.
    rewrite Ek in Hin.
    apply (extract_nd_loop_empty_axis nd (length sh - nd - 1));
      [lia | lia | exact Hin].
Qed.

Lemma extract_nd_keeps_last_axes_witness :
  extract_nd (mk_ndarray [2; 1; 2; 2]%nat [1; 2; 3; 4; 5; 6; 7; 8]) 2
  = Ok (mk_ndarray [2; 2]%nat [1; 2; 3; 4])
  /\ extract_nd (mk_ndarray [2; 0; 2; 2]%nat []) 2 = Raise IndexError.
Proof.
  split.
  - refine (proj1 (proj1 (proj2 (extract_nd_keeps_last_axes
             (mk_ndarray [2; 1; 2; 2]%nat [1; 2; 3; 4; 5; 6; 7; 8]) 2)) _ _)).
    + unfold ndim; simpl; lia.
    + repeat constructor.
  - refine (proj2 (proj2 (extract_nd_keeps_last_axes
             (mk_ndarray [2; 0; 2; 2]%nat []) 2)) _ _).
    + unfold ndim; simpl; lia.
    + simpl. auto.
Defined.

(** ** Images read from a file *)

(** X7.  An image obtained with [from_tiff] does not remember its file:
    [unload] leaves it exactly as it is, buffer included, and logs the
    error of an image without path; the samples stay available.  (The
    constructor drops the path it is given.) *)
Theorem from_tiff_cannot_unload (w : world) (path : string)
    (img : ImageBase) (log : list string) :
  from_tiff w path = Ok img ->
  _path_to_local img = None
  /\ unload w img log
     = (img, log ++ ["cannot unload Image without path_to_local."%string])
  /\ exists I px,
       imread w path = Ok I /\ extract_nd I 4 = Ok px /\
       pixels w (fst (unload w img log)) = Ok (img, Some px).
Proof.
  intros H. unfold from_tiff, read_tiff in H.
  apply bind_Ok in H as (I & HI & H).
  apply bind_Ok in HI as (u & _ & HI).
  apply ImageBase_init_Ok in H as (px & Hpx & ->).
  split; [reflexivity|]. split; [reflexivity|].
  exists I, px. repeat split; auto.
Qed.

Lemma from_tiff_cannot_unload_witness :
  exists img,
    from_tiff (single_file "a.tif" (mk_ndarray [2]%nat [5; 9])) "a.tif" = Ok img
    /\ unload (single_file "a.tif" (mk_ndarray [2]%nat [5; 9])) img []
       = (img, ["cannot unload Image without path_to_local."%string])
    /\ _pixels img = Some (mk_ndarray [2]%nat [5; 9]).
Proof.
  eexists. split; [reflexivity|].
  split; [|reflexivity].
  exact (proj1 (proj2 (from_tiff_cannot_unload
           (single_file "a.tif" (mk_ndarray [2]%nat [5; 9])) "a.tif" _ []
           eq_refl))).
Defined.

(** ** Morphology of binary images *)

Lemma extract_nd_rank (I px : ndarray) (n : nat) :
  extract_nd I n = Ok px -> (ndim px <= n)%nat.
Proof.
  intros H. destruct (Nat.le_gt_cases (ndim I) n) as [Hle|Hgt].
  - rewrite (extract_nd_small I n Hle) in H. inversion H; subst; exact Hle.
  - destruct I as [sh d]. unfold extract_nd, ndim in *. cbn [shape] in *.
    assert (Ek : (length sh = n + S (length sh - n - 1))%nat) by lia.
    destruct (in_dec Nat.eq_dec 0%nat (firstn (S (length sh - n - 1)) sh))
      as [Hin|Hnin].
    + rewrite (extract_nd_loop_empty_axis n _ (length sh) sh d Ek) in H;
        [discriminate | lia | exact Hin].
    + rewrite (extract_nd_loop_drops n _ (length sh) sh d Ek) in H.
      * remember (S (length sh - n - 1)) as m eqn:Em.
        inversion H; subst px. cbn [shape]. rewrite length_skipn. lia.
      * lia.
      * apply Forall_forall. intros x Hx.
        destruct x; [contradiction | lia].
Qed.

Lemma update_pixels_eq (f : ndarray -> result ndarray) (self : ImageBase)
    (px : ndarray) :
  _pixels self = Some px ->
  update_pixels f self = (px' <- f px ;; Ok (set_pixels self (Some px'))).
Proof. intros H. unfold update_pixels, the_pixels. rewrite H. reflexivity. Qed.

Ltac morphology_cases mask H :=
  rewrite H; cbn [bind assert Z.eqb Pos.eqb];
  destruct (2 =? ndim mask)%nat; reflexivity.

Lemma closing2_on_mask (op : morphology) (mask : ndarray) :
  amax mask = Ok 1 ->
  closing2 op mask
  = if (2 =? ndim mask)%nat then Ok (op mask (square 3))
    else Raise (NameError "i").
Proof. intros H. unfold closing2. morphology_cases mask H. Qed.

Lemma opening2_on_mask (op : morphology) (mask : ndarray) :
  amax mask = Ok 1 ->
  opening2 op mask
  = if (2 =? ndim mask)%nat then Ok (op mask (square 3))
    else Raise (NameError "i").
Proof. intros H. unfold opening2. morphology_cases mask H. Qed.

Lemma dilate_on_mask (op : morphology) (mask : ndarray) :
  amax mask = Ok 1 ->
  dilate op mask
  = if (2 =? ndim mask)%nat then Ok (op mask (square 3))
    else Raise (NameError "i").
Proof. intros H. unfold dilate. morphology_cases mask H. Qed.

Lemma erode_on_mask (op : morphology) (mask : ndarray) :
  amax mask = Ok 1 ->
  erode op mask
  = if (2 =? ndim mask)%nat then Ok (op mask (square 3))
    else Raise (NameError "i").
Proof. intros H. unfold erode. morphology_cases mask H. Qed.

Lemma ImageBinary_init_mask (pixels : ndarray) (path : option string)
    (b : bool) (img : ImageBase) :
  ImageBinary_init pixels path b = Ok img ->
  exists mask, img = mk_ImageBase TZYX None (Some mask) /\
               amax mask = Ok 1 /\ (ndim mask <= 4)%nat.
Proof.
  intros H. apply ImageBinary_init_Ok in H as (px & px' & Hx & Hb & Hm & ->).
  exists px'. repeat split; auto.
  apply extract_nd_rank in Hx.
  destruct b; [destruct Hb as (m & _ & ->) | subst px']; exact Hx.
Qed.

(** X8.  On a binary image as its constructor builds it, [close], [open],
    [dilate] and [erode] never fail on their assertion; they apply the
    operator of skimage with the 3 x 3 square when the mask has rank 2,
    and for every other rank (the constructor leaves at most 4 axes) they
    raise NameError on the name [i]: a stack is never processed. *)
Theorem morphology_only_on_2D (op : morphology) (pixels : ndarray)
    (path : option string) (doRebinarize : bool) (img : ImageBase) :
  ImageBinary_init pixels path doRebinarize = Ok img ->
  exists mask,
    _pixels img = Some mask /\ (ndim mask <= 4)%nat /\
    (ndim mask = 2%nat ->
     ImageBinary_close op img = Ok (set_pixels img (Some (op mask (square 3))))
     /\ ImageBinary_open op img = Ok (set_pixels img (Some (op mask (square 3))))
     /\ ImageBinary_dilate op img = Ok (set_pixels img (Some (op mask (square 3))))
     /\ ImageBinary_erode op img = Ok (set_pixels img (Some (op mask (square 3)))))
    /\
    (ndim mask <> 2%nat ->
     ImageBinary_close op img = Raise (NameError "i")
     /\ ImageBinary_open op img = Raise (NameError "i")
     /\ ImageBinary_dilate op img = Raise (NameError "i")
     /\ ImageBinary_erode op img = Raise (NameError "i")).
Proof.
  intros H. apply ImageBinary_init_mask in H as (mask & -> & Hm & Hr).
  exists mask. split; [reflexivity|]. split; [exact Hr|].
  unfold ImageBinary_close, ImageBinary_open, ImageBinary_dilate,
    ImageBinary_erode.
  rewrite !(update_pixels_eq _ (mk_ImageBase TZYX None (Some mask)) mask eq_refl).
  rewrite closing2_on_mask, opening2_on_mask, dilate_on_mask, erode_on_mask
    by exact Hm.
  split; intros Hnd.
  - rewrite Hnd. cbn [Nat.eqb bind]. auto.
  - destruct (Nat.eqb_spec 2 (ndim mask)) as [E|_]; [congruence|].
    cbn [bind]. auto.
Qed.

Lemma morphology_only_on_2D_witness :
  exists mask,
    _pixels (mk_ImageBase TZYX None
               (Some (mk_ndarray [1; 1; 2]%nat [0; 1]))) = Some mask
    /\ ImageBinary_dilate (fun a _ => a)
         (mk_ImageBase TZYX None (Some (mk_ndarray [1; 1; 2]%nat [0; 1])))
       = Raise (NameError "i").
Proof.
  destruct (morphology_only_on_2D (fun a _ => a)
              (mk_ndarray [1; 1; 2]%nat [0; 5]) None true
              (mk_ImageBase TZYX None (Some (mk_ndarray [1; 1; 2]%nat [0; 1])))
              eq_refl) as (mask & Hp & _ & _ & H3).
  exists mask. split; [exact Hp|].
  apply H3. cbn [_pixels] in Hp. inversion Hp. unfold ndim; simpl; lia.
Defined.

(** ** Inverting a mask *)

Lemma count_nonzero_logical_not (a : ndarray) :
  (count_nonzero (data (logical_not a)) + count_nonzero (data a))%nat
  = length (data a).
Proof.
  destruct a as [sh l]. cbn [logical_not data].
  induction l as [|x l IH]; [reflexivity|].
  cbn [map length]. rewrite !count_nonzero_cons.
  destruct (Z.eqb_spec x 0); cbn [Z.eqb]; lia.
Qed.

Lemma logical_not_involutive (l : list Z) :
  binary l ->
  map (fun x => if x =? 0 then 1 else 0)
      (map (fun x => if x =? 0 then 1 else 0) l) = l.
Proof.
  induction l as [|x l IH]; intros Hb; [reflexivity|].
  cbn [map]. rewrite IH by (intros y Hy; apply Hb; right; exact Hy).
  destruct (Hb x (or_introl eq_refl)) as [-> | ->]; reflexivity.
Qed.

(** X9.  [invert] on a loaded image keeps the shape and exchanges
    background and foreground: a sample becomes 1 exactly where it was 0
    and 0 elsewhere, so the new foreground count is the number of samples
    minus the old one.  On samples in {0, 1} inverting twice gives the
    image back.  The largest sample of the inverted mask is 1 exactly when
    the mask had background: inverting a mask made of foreground only
    leaves an image whose largest sample is 0. *)
Theorem invert_complements (self : ImageBase) (px : ndarray) :
  _pixels self = Some px ->
  exists px',
    _pixels (ImageBinary_invert self) = Some px' /\
    shape px' = shape px /\
    (forall i, (i < length (data px))%nat ->
               (get px' i = 1 <-> get px i = 0) /\
               (get px' i = 0 <-> get px i <> 0)) /\
    (count_nonzero (data px') + count_nonzero (data px))%nat
    = length (data px) /\
    (binary (data px) -> ImageBinary_invert (ImageBinary_invert self) = self) /\
    (amax px' = Ok 1 <-> In 0 (data px)) /\
    (data px <> [] -> ~ In 0 (data px) -> amax px' = Ok 0).
Proof.
  intros Hpx. exists (logical_not px).
  unfold ImageBinary_invert. rewrite Hpx. cbn [set_pixels _pixels].
  split; [reflexivity|]. split; [reflexivity|].
  assert (Hbin : binary (data (logical_not px))).
  { intros y Hy. cbn [logical_not data] in Hy. apply in_map_iff in Hy
      as (x & <- & _). destruct (x =? 0); auto. }
  split; [|split; [|split; [|split]]].
  - intros i Hi. unfold get, logical_not. cbn [data].
    rewrite (nth_indep _ 0 ((fun x => if x =? 0 then 1 else 0) 0))
      by (rewrite length_map; exact Hi).
    rewrite (map_nth (fun x => if x =? 0 then 1 else 0)).
    destruct (Z.eqb_spec (nth i (data px) 0) 0); split; split;
      intros; try congruence; try discriminate; try reflexivity.
  - apply count_nonzero_logical_not.
  - intros Hb. destruct self as [ax p q]. cbn [_pixels] in Hpx. subst q.
    unfold set_pixels, logical_not.
    cbn [_axes_order _path_to_local shape data].
    rewrite (logical_not_involutive _ Hb). destruct px; reflexivity.
  - rewrite (binary_amax_one_In _ Hbin). cbn [logical_not data].
    rewrite in_map_iff. split.
    + intros (x & Hx & Hin). destruct (Z.eqb_spec x 0); [subst; exact Hin|].
      discriminate.
    + intros Hin. exists 0. split; [reflexivity | exact Hin].
  - intros Hne Hno. apply amax_spec. cbn [logical_not data]. split.
    + destruct (data px) as [|x l] eqn:E; [congruence|]. left.
      destruct (Z.eqb_spec x 0); [|reflexivity].
      subst x. exfalso. apply Hno. left; reflexivity.
    + intros y Hy. destruct (Hbin y Hy) as [-> | ->]; [lia|].
      exfalso. apply in_map_iff in Hy as (x & Hx & Hin).
      destruct (Z.eqb_spec x 0); [subst; exact (Hno Hin) | discriminate].
Qed.

Lemma invert_complements_witness :
  exists px',
    _pixels (ImageBinary_invert
               (mk_ImageBase TZYX None (Some (mk_ndarray [3]%nat [0; 1; 1]))))
    = Some px'
    /\ (count_nonzero (data px') + 2 = 3)%nat.
Proof.
  destruct (invert_complements
              (mk_ImageBase TZYX None (Some (mk_ndarray [3]%nat [0; 1; 1])))
              (mk_ndarray [3]%nat [0; 1; 1]) eq_refl)
    as (px' & Hp & _ & _ & Hc & _).
  exists px'. split; [exact Hp | exact Hc].
Defined.

(** X10.  The voxel count of a particle is computed once: after a first
    access to [total_size], inverting the particle changes its foreground
    (to the number of samples minus the old count) but [total_size] keeps
    answering the old count; a particle inverted before any access
    answers the new one. *)
Theorem total_size_stale_after_invert (P : ParticleBase) (px : ndarray) :
  _pixels (image P) = Some px -> _total_size P = None ->
  exists P1 P2,
    total_size P = Ok (P1, Z.of_nat (count_nonzero (data px))) /\
    total_size (ParticleBase_invert P1)
    = Ok (ParticleBase_invert P1, Z.of_nat (count_nonzero (data px))) /\
    foreground (ParticleBase_invert P1)
    = Ok (Z.of_nat (length (data px)) - Z.of_nat (count_nonzero (data px))) /\
    total_size (ParticleBase_invert P)
    = Ok (P2, Z.of_nat (length (data px)) - Z.of_nat (count_nonzero (data px))).
Proof.
  intros Hpx Hts.
  pose proof (count_nonzero_logical_not px) as Hc.
  cbn [logical_not data] in Hc.
  unfold total_size at 1. rewrite Hts. unfold foreground at 1, the_pixels.
  rewrite Hpx. cbn [bind].
  eexists. eexists. split; [reflexivity|].
  split; [reflexivity|].
  unfold total_size, foreground, the_pixels, ParticleBase_invert,
    ImageBinary_invert.
  cbn [image _total_size]. rewrite Hpx, Hts.
  cbn [set_pixels _pixels bind logical_not data].
  split.
  - f_equal. lia.
  - replace (Z.of_nat (count_nonzero
               (map (fun x : Z => if x =? 0 then 1 else 0) (data px))))
      with (Z.of_nat (length (data px)) - Z.of_nat (count_nonzero (data px)))
      by lia.
    reflexivity.
Qed.

Lemma total_size_stale_after_invert_witness :
  exists P1 P2,
    total_size (mk_ParticleBase Nucleus
                  (mk_ImageBase TZYX None (Some (mk_ndarray [3]%nat [0; 1; 1])))
                  [(0, 3)%nat] None None None)
    = Ok (P1, 2)
    /\ total_size (ParticleBase_invert P1) = Ok (ParticleBase_invert P1, 2)
    /\ foreground (ParticleBase_invert P1) = Ok 1
    /\ total_size (ParticleBase_invert
                     (mk_ParticleBase Nucleus
                        (mk_ImageBase TZYX None
                           (Some (mk_ndarray [3]%nat [0; 1; 1])))
                        [(0, 3)%nat] None None None))
       = Ok (P2, 1).
Proof.
  exact (total_size_stale_after_invert
           (mk_ParticleBase Nucleus
              (mk_ImageBase TZYX None (Some (mk_ndarray [3]%nat [0; 1; 1])))
              [(0, 3)%nat] None None None)
           (mk_ndarray [3]%nat [0; 1; 1]) eq_refl eq_refl).
Defined.

(** ** Labels inherited from a 2-D mask *)

Lemma list_nat_eqb_eq (a b : list nat) : list_nat_eqb a b = true <-> a = b.
Proof.
  unfold list_nat_eqb. destruct (list_eq_dec Nat.eq_dec a b); split;
    intros; congruence.
Qed.

Lemma filter_both_positive (a b : list Z) :
  map fst (filter (fun p => negb (snd p =? 0))
     (combine b
        (map (fun p => if negb (fst p =? 0) && negb (snd p =? 0) then 1 else 0)
           (combine (map (fun x => if x >? 0 then 1 else 0) a)
                    (map (fun x => if x >? 0 then 1 else 0) b)))))
  = map snd (filter (fun p => (0 <? fst p) && (0 <? snd p)) (combine a b)).
Proof.
  revert b; induction a as [|x a IH]; intros b.
  - destruct b; reflexivity.
  - destruct b as [|y b]; [reflexivity|].
    cbn [map combine filter fst snd]. rewrite !Z.gtb_ltb.
    destruct (0 <? x), (0 <? y); cbn [negb andb Z.eqb fst snd map];
      try (f_equal; apply IH); apply IH.
Qed.

(** X11.  [inherit_labels] never returns a stack: with a mask of rank 3
    it fails on its assertion whatever the 2-D mask is (the shape of
    [mask[-2:]] has three extents), and with a mask of rank other than 2
    or 3 it raises NameError on [self].  With two masks of one 2-D shape
    it returns, as a 1-D array, the samples of the 2-D mask at the
    positions where both masks are positive, in buffer order: not an image
    of that shape. *)
Theorem inherit_labels_never_a_stack
    (per_slice : ndarray -> ndarray -> result ndarray)
    (mask mask2d : ndarray) :
  (ndim mask = 3%nat ->
   inherit_labels per_slice mask mask2d = Raise (AssertionError ""))
  /\
  (ndim mask2d = 2%nat -> ndim mask <> 2%nat -> ndim mask <> 3%nat ->
   inherit_labels per_slice mask mask2d = Raise (NameError "self"))
  /\
  (ndim mask2d = 2%nat -> shape mask = shape mask2d ->
   exists R,
     inherit_labels per_slice mask mask2d = Ok R /\
     data R = map snd (filter (fun p => (0 <? fst p) && (0 <? snd p))
                              (combine (data mask) (data mask2d))) /\
     shape R = [length (data R)] /\
     forall v, In v (data R) -> 0 < v /\ In v (data mask2d)).
Proof.
  unfold inherit_labels. split; [|split].
  - intros H3. destruct (Nat.eqb_spec 2 (ndim mask2d)) as [E2|E2];
      [|reflexivity].
    cbn [assert bind]. rewrite H3. cbn [Nat.eqb].
    replace (list_nat_eqb (shape mask2d) (shape (last_items 2 mask)))
      with false; [reflexivity|].
    symmetry. apply not_true_iff_false. rewrite list_nat_eqb_eq. intros E.
    apply (f_equal (@length nat)) in E. fold (ndim mask2d) in E.
    unfold last_items, ndim in *. destruct (shape mask) as [|d0 sh'];
      [discriminate H3|]. cbn [shape length] in *. lia.
  - intros H2 Hn2 Hn3. rewrite H2. change (2 =? 2)%nat with true.
    cbn [assert bind].
    destruct (Nat.eqb_spec 2 (ndim mask)); [congruence|].
    destruct (Nat.eqb_spec 3 (ndim mask)); [congruence|]. reflexivity.
  - intros H2 Hsh.
    assert (E : ndim mask = 2%nat) by (unfold ndim in *; congruence).
    rewrite H2, E. cbn [Nat.eqb assert bind].
    replace (list_nat_eqb (shape mask2d) (shape mask)) with true
      by (symmetry; apply list_nat_eqb_eq; congruence).
    cbn [assert bind]. eexists. split; [reflexivity|].
    unfold boolean_index, logical_and, gt_scalar. cbn [shape data].
    rewrite filter_both_positive. split; [reflexivity|].
    split; [reflexivity|].
    intros v Hv. apply in_map_iff in Hv as ([x y] & <- & Hin).
    apply filter_In in Hin as [Hin Hpos]. cbn [fst snd] in *.
    apply andb_prop in Hpos as [_ Hy]. apply Z.ltb_lt in Hy.
    split; [exact Hy|]. exact (in_combine_r _ _ _ _ Hin).
Qed.

Lemma inherit_labels_never_a_stack_witness :
  inherit_labels (fun m _ => Ok m)
    (mk_ndarray [2; 1; 2]%nat [1; 0; 1; 1]) (mk_ndarray [1; 2]%nat [7; 7])
  = Raise (AssertionError "")
  /\ exists R,
       inherit_labels (fun m _ => Ok m)
         (mk_ndarray [2; 2]%nat [1; 0; 1; 1]) (mk_ndarray [2; 2]%nat [7; 7; 0; 9])
       = Ok R
       /\ data R = [7; 9] /\ shape R = [length (data R)].
Proof.
  split.
  - exact (proj1 (inherit_labels_never_a_stack (fun m _ => Ok m)
                    (mk_ndarray [2; 1; 2]%nat [1; 0; 1; 1])
                    (mk_ndarray [1; 2]%nat [7; 7])) eq_refl).
  - destruct (proj2 (proj2 (inherit_labels_never_a_stack (fun m _ => Ok m)
                    (mk_ndarray [2; 2]%nat [1; 0; 1; 1])
                    (mk_ndarray [2; 2]%nat [7; 7; 0; 9]))) eq_refl eq_refl)
      as (R & HR & Hd & Hs & _).
    exists R. split; [exact HR|]. split; [exact Hd | exact Hs].
Defined.

(** ** Projections along the first axis *)

Lemma nth_map_seq (f : nat -> Z) (n j : nat) (d : Z) :
  (j < n)%nat -> nth j (map f (seq 0 n)) d = f j.
Proof.
  intros H. rewrite (nth_indep _ d (f 0%nat)) by (rewrite length_map, length_seq; exact H).
  rewrite map_nth, seq_nth by exact H. reflexivity.
Qed.

Lemma map_nth_seq_id (l : list Z) :
  map (fun j => nth j l 0) (seq 0 (length l)) = l.
Proof.
  induction l as [|x l IH]; [reflexivity|].
  cbn [length seq map nth]. f_equal.
  rewrite <- seq_shift, map_map. exact IH.
Qed.

Lemma sum_list_app (l l' : list Z) :
  sum_list (l ++ l') = sum_list l + sum_list l'.
Proof.
  induction l as [|x l IH]; [reflexivity|].
  change (sum_list ((x :: l) ++ l')) with (x + sum_list (l ++ l')).
  change (sum_list (x :: l)) with (x + sum_list l). lia.
Qed.

Lemma sum_list_map_add (f g : nat -> Z) (l : list nat) :
  sum_list (map (fun j => f j + g j) l)
  = sum_list (map f l) + sum_list (map g l).
Proof.
  induction l as [|x l IH]; [reflexivity|].
  change (sum_list (map (fun j => f j + g j) (x :: l)))
    with (f x + g x + sum_list (map (fun j => f j + g j) l)).
  change (sum_list (map f (x :: l))) with (f x + sum_list (map f l)).
  change (sum_list (map g (x :: l))) with (g x + sum_list (map g l)). lia.
Qed.

Lemma sum_list_zeros (l : list nat) : sum_list (map (fun _ => 0) l) = 0.
Proof.
  induction l as [|x l IH]; [reflexivity|].
  change (sum_list (map (fun _ => 0) (x :: l)))
    with (0 + sum_list (map (fun _ : nat => 0) l)). lia.
Qed.

(** Adding up the columns of a buffer of [d] rows of [s] samples adds up
    the buffer. *)
Lemma sum_columns (s d : nat) :
  forall l : list Z, length l = (d * s)%nat ->
    sum_list (map (fun j => sum_list (map (fun k => nth (k * s + j) l 0)
                                          (seq 0 d)))
                  (seq 0 s))
    = sum_list l.
Proof.
  induction d as [|d IH]; intros l Hlen.
  - destruct l; [|discriminate]. cbn [seq map sum_list fold_right].
    apply sum_list_zeros.
  - replace (sum_list l) with (sum_list (firstn s l) + sum_list (skipn s l))
      by (rewrite <- sum_list_app, firstn_skipn; reflexivity).
    assert (H1 : length (firstn s l) = s) by (rewrite length_firstn; lia).
    assert (H2 : length (skipn s l) = (d * s)%nat) by (rewrite length_skipn; lia).
    rewrite <- (IH (skipn s l) H2).
    pose proof (map_nth_seq_id (firstn s l)) as Hid. rewrite H1 in Hid.
    replace (sum_list (firstn s l))
      with (sum_list (map (fun j => nth j (firstn s l) 0) (seq 0 s)))
      by (f_equal; exact Hid).
    rewrite <- sum_list_map_add. f_equal.
    apply map_ext_in. intros j Hj. apply in_seq in Hj.
    change (seq 0 (S d)) with (0%nat :: seq 1 d).
    rewrite <- seq_shift, map_cons, map_map.
    change (sum_list (?x :: ?r)) with (x + sum_list r).
    f_equal.
    + rewrite nth_firstn. destruct (Nat.ltb_spec j s); [reflexivity | lia].
    + f_equal. apply map_ext. intros k. rewrite nth_skipn. f_equal. lia.
Qed.

Lemma max_list_ge (l : list Z) (x : Z) : In x l -> x <= max_list l.
Proof.
  destruct l as [|y l]; [contradiction|]. cbn [max_list].
  intros [->|H]; [apply fold_max_ge_init | apply fold_max_ge; exact H].
Qed.

Lemma max_list_In (l : list Z) : l <> [] -> In (max_list l) l.
Proof.
  destruct l as [|y l]; [congruence|]. intros _. apply fold_max_In.
Qed.

Lemma column_spec (a : ndarray) (j : nat) (x : Z) :
  In x (column a j) <->
  exists k, (k < hd 0 (shape a))%nat /\
            x = get a (k * size_of (tl (shape a)) + j).
Proof.
  unfold column, get. rewrite in_map_iff. split.
  - intros (k & <- & Hk). apply in_seq in Hk. exists k. split; [lia | reflexivity].
  - intros (k & Hk & ->). exists k. split; [reflexivity|]. apply in_seq. lia.
Qed.

(** X12.  The maximum projection of a well-formed array with a non-empty
    first axis drops that axis and keeps the array well formed; each
    sample of the result is the largest of the samples over it, and is one
    of them, so the largest sample of the image is unchanged.  (The
    conversion back to the type of the image is assumed to keep the
    samples of the image.)  Along an empty first axis the projection
    raises ValueError; with a projection type that is neither sum nor
    maximum the image is returned as it is. *)
Theorem max_projection_keeps_maximum (cast : Z -> Z) (I : ndarray)
    (d : nat) (sh' : list nat) :
  wf I -> (forall x, In x (data I) -> cast x = x) ->
  (shape I = S d :: sh' ->
   exists R,
     z_project cast I (Some MAX_PROJECTION) = Ok R /\
     shape R = sh' /\ wf R /\
     (forall j, (j < size_of sh')%nat ->
        (forall k, (k < S d)%nat -> get I (k * size_of sh' + j) <= get R j) /\
        (exists k, (k < S d)%nat /\ get R j = get I (k * size_of sh' + j))) /\
     amax R = amax I)
  /\
  (shape I = 0%nat :: sh' ->
   z_project cast I (Some MAX_PROJECTION) = Raise ValueError)
  /\
  z_project cast I None = Ok I.
Proof.
  intros Hwf Hcast. split; [|split]; [| |reflexivity].
  2:{ intros Hsh. unfold z_project, max0. rewrite Hsh. reflexivity. }
  intros Hsh. unfold z_project, max0. rewrite Hsh. cbn [bind].
  unfold wf in Hwf. rewrite Hsh in Hwf.
  change (size_of (S d :: sh')) with (S d * size_of sh')%nat in Hwf.
  set (s := size_of sh') in *.
  assert (Hidx : forall j k, (j < s)%nat -> (k < S d)%nat ->
                             (k * s + j < length (data I))%nat) by (intros; nia).
  assert (Hcol : forall j, (j < s)%nat -> column I j <> []).
  { intros j Hj. unfold column. rewrite Hsh. cbn [hd seq map]. discriminate. }
  assert (Hin : forall j x, (j < s)%nat -> In x (column I j) -> In x (data I)).
  { intros j x Hj Hx. apply column_spec in Hx as (k & Hk & ->).
    rewrite Hsh in Hk. cbn [hd] in Hk. rewrite Hsh. cbn [tl]. fold s.
    apply nth_In. apply Hidx; assumption. }
  assert (Hget : forall j, (j < s)%nat ->
            get (astype cast (mk_ndarray sh'
                   (map (fun j => max_list (column I j)) (seq 0 s)))) j
            = max_list (column I j)).
  { intros j Hj. unfold get, astype. cbn [data]. rewrite map_map.
    rewrite nth_map_seq by exact Hj. apply Hcast.
    apply (Hin j _ Hj). apply max_list_In. apply Hcol; exact Hj. }
  eexists. split; [reflexivity|]. split; [reflexivity|].
  split; [unfold wf, astype; cbn [shape data];
          rewrite !length_map, length_seq; reflexivity|].
  assert (Hper : forall j, (j < s)%nat ->
     (forall k, (k < S d)%nat ->
        get I (k * s + j) <= max_list (column I j)) /\
     (exists k, (k < S d)%nat /\ max_list (column I j) = get I (k * s + j))).
  { intros j Hj. split.
    - intros k Hk. apply max_list_ge. apply column_spec. exists k.
      rewrite Hsh. cbn [hd tl]. split; [exact Hk | reflexivity].
    - pose proof (max_list_In _ (Hcol j Hj)) as Hm.
      apply column_spec in Hm as (k & Hk & E). rewrite Hsh in Hk, E.
      cbn [hd tl] in Hk, E. exists k. split; [exact Hk | exact E]. }
  split.
  - intros j Hj. rewrite (Hget j Hj). exact (Hper j Hj).
  - destruct (Nat.eq_dec s 0) as [Hs0|Hs0].
    + unfold amax, astype. cbn [data]. rewrite Hs0. cbn [seq map].
      destruct (data I) as [|x l]; [reflexivity|]. cbn [length] in Hwf. lia.
    + assert (Hne : data I <> []).
      { intros E. rewrite E in Hwf. cbn [length] in Hwf. nia. }
      destruct (amax_total I Hne) as [m Hm]. rewrite Hm.
      pose proof Hm as Hspec. apply amax_spec in Hspec as [Hmin Hub].
      apply amax_spec.
      assert (Hall : forall y,
                In y (data (astype cast (mk_ndarray sh'
                   (map (fun j => max_list (column I j)) (seq 0 s))))) ->
                exists j, (j < s)%nat /\ y = max_list (column I j)).
      { intros y Hy. unfold astype in Hy. cbn [data] in Hy.
        rewrite map_map in Hy. apply in_map_iff in Hy as (j & <- & Hj).
        apply in_seq in Hj. exists j. split; [lia|].
        apply Hcast. apply (Hin j); [lia|]. apply max_list_In. apply Hcol; lia. }
      split.
      * apply In_nth with (d := 0) in Hmin as (i & Hi & Ei).
        assert (Hj : (i mod s < s)%nat) by (apply Nat.mod_upper_bound; exact Hs0).
        assert (Hk : (i / s < S d)%nat).
        { apply Nat.Div0.div_lt_upper_bound. lia. }
        assert (Ei' : get I (i / s * s + i mod s) = m).
        { unfold get. rewrite <- Ei. f_equal.
          pose proof (Nat.div_mod_eq i s). lia. }
        destruct (Hper _ Hj) as [Hge (k & Hk' & Emax)].
        specialize (Hge _ Hk). rewrite Ei' in Hge.
        assert (Emx : max_list (column I (i mod s)) = m).
        { apply Z.le_antisymm; [|exact Hge]. rewrite Emax. apply Hub.
          apply nth_In. apply Hidx; assumption. }
        rewrite <- Emx, <- (Hget _ Hj). apply nth_In.
        unfold astype. cbn [data]. rewrite !length_map, length_seq. exact Hj.
      * intros y Hy. apply Hall in Hy as (j & Hj & ->).
        apply Hub. apply (Hin j _ Hj). apply max_list_In. apply Hcol; exact Hj.
Qed.

Lemma max_projection_keeps_maximum_witness :
  exists R,
    z_project (fun x => x mod 256)
      (mk_ndarray [2; 2]%nat [3; 200; 7; 5]) (Some MAX_PROJECTION) = Ok R
    /\ shape R = [2%nat] /\ wf R
    /\ amax R = amax (mk_ndarray [2; 2]%nat [3; 200; 7; 5]).
Proof.
  destruct (proj1 (max_projection_keeps_maximum (fun x => x mod 256)
                     (mk_ndarray [2; 2]%nat [3; 200; 7; 5]) 1 [2%nat]
                     eq_refl
                     ltac:(intros x [<-|[<-|[<-|[<-|[]]]]]; reflexivity))
                  eq_refl)
    as (R & HR & Hs & Hw & _ & Hm).
  exists R. repeat split; assumption.
Defined.

(** X13.  The sum projection of a well-formed array of rank at least 1
    drops the first axis; when the conversion back to the type of the
    image keeps every column sum (no overflow), the samples of the result
    add up to the samples of the image.  Along an empty first axis the
    result is the conversion of 0 everywhere. *)
Theorem sum_projection_keeps_total (cast : Z -> Z) (I : ndarray)
    (d : nat) (sh' : list nat) :
  wf I -> shape I = d :: sh' ->
  exists R,
    z_project cast I (Some SUM_PROJECTION) = Ok R /\
    shape R = sh' /\ wf R /\
    ((forall j, (j < size_of sh')%nat ->
                cast (sum_list (column I j)) = sum_list (column I j)) ->
     asum R = asum I) /\
    (d = 0%nat -> data R = repeat (cast 0) (size_of sh')).
Proof.
  intros Hwf Hsh. unfold z_project, sum0. rewrite Hsh. cbn [bind].
  eexists. split; [reflexivity|]. split; [reflexivity|].
  split; [unfold wf, astype; cbn [shape data];
          rewrite !length_map, length_seq; reflexivity|].
  unfold astype. cbn [shape data]. rewrite map_map. split.
  - intros Hcast. unfold asum. cbn [data].
    unfold wf in Hwf. rewrite Hsh in Hwf.
    change (size_of (d :: sh')) with (d * size_of sh')%nat in Hwf.
    change (fold_right Z.add 0) with sum_list.
    rewrite <- (sum_columns (size_of sh') d (data I) Hwf). f_equal.
    apply map_ext_in. intros j Hj. apply in_seq in Hj.
    rewrite Hcast by lia. unfold column. rewrite Hsh. reflexivity.
  - intros ->. unfold column. rewrite Hsh. cbn [hd seq map sum_list fold_right].
    generalize (size_of sh') at 1 2. intros n. generalize 0%nat.
    induction n as [|n IH]; intros st; [reflexivity|].
    cbn [seq map repeat]. f_equal. apply IH.
Qed.

Lemma sum_projection_keeps_total_witness :
  exists R,
    z_project (fun x => x mod 256)
      (mk_ndarray [2; 2]%nat [3; 200; 7; 5]) (Some SUM_PROJECTION) = Ok R
    /\ asum R = 215
    /\ z_project (fun x => x mod 256)
         (mk_ndarray [2; 2]%nat [3; 200; 7; 100]) (Some SUM_PROJECTION)
       = Ok (mk_ndarray [2]%nat [10; 44]).
Proof.
  destruct (sum_projection_keeps_total (fun x => x mod 256)
              (mk_ndarray [2; 2]%nat [3; 200; 7; 5]) 2 [2%nat]
              eq_refl eq_refl)
    as (R & HR & _ & _ & Hs & _).
  exists R. split; [exact HR|]. split; [|reflexivity].
  apply Hs. intros j Hj.
  destruct j as [|[|j]]; [reflexivity | reflexivity | simpl in Hj; lia].
Defined.

(** ** Writing an image *)

Lemma pad_shape_eq (fuel n : nat) :
  forall sh, (n - length sh <= fuel)%nat ->
             pad_shape fuel n sh = repeat 1%nat (n - length sh) ++ sh.
Proof.
  induction fuel as [|fuel IH]; intros sh Hf; cbn [pad_shape];
    destruct (Nat.ltb_spec (length sh) n) as [Hlt|Hge].
  - lia.
  - replace (n - length sh)%nat with 0%nat by lia. reflexivity.
  - rewrite IH by (cbn [length]; lia). cbn [length].
    replace (n - length sh)%nat with (S (n - S (length sh))) by lia.
    cbn [repeat]. rewrite repeat_cons, <- app_assoc. reflexivity.
  - replace (n - length sh)%nat with 0%nat by lia. reflexivity.
Qed.

Lemma size_of_ones (k : nat) (sh : list nat) :
  size_of (repeat 1%nat k ++ sh) = size_of sh.
Proof.
  induction k as [|k IH]; [reflexivity|].
  cbn [repeat app]. change (size_of (1%nat :: ?l)) with (1 * size_of l)%nat.
  rewrite IH. lia.
Qed.

(** X14.  [save_tiff] writes under the axes given, with a leading "C" when
    they name no channel axis.  An image with no more axes than that is
    reshaped, in the array of the caller too, by leading axes of extent 1
    up to that number; its samples and their count are unchanged; the
    file gets level 9 or 0 of compression, and its metadata name the
    axes, the unit "um" when asked, and always a spacing, which is [None]
    when no resolution was given.  An image with more axes is refused by
    the assertion. *)
Theorem save_tiff_pads_axes (cast : string -> Z -> Z) (path : string)
    (I : ndarray) (dtype : string) (compressed : bool)
    (bundled_axes axes : string) (inMicrons : bool)
    (ResolutionZ : option Q) (forImageJ : bool) :
  axes = (if has_char "C"%char bundled_axes then bundled_axes
          else "C" ++ bundled_axes)%string ->
  ((ndim I <= String.length axes)%nat ->
   exists I' call,
     save_tiff cast path I dtype compressed bundled_axes inMicrons
       ResolutionZ forImageJ = Ok (I', call) /\
     shape I' = repeat 1%nat (String.length axes - ndim I) ++ shape I /\
     data I' = data I /\
     size_of (shape I') = size_of (shape I) /\
     ndim I' = String.length axes /\
     call_shape call = shape I' /\
     call_data call = astype (cast dtype) I' /\
     call_compress call = (if compressed then 9 else 0) /\
     call_metadata call
     = [("axes"%string, MetaStr axes)]
       ++ (if inMicrons then [("unit"%string, MetaStr "um")] else [])
       ++ [("spacing"%string, MetaNum ResolutionZ)])
  /\
  ((String.length axes < ndim I)%nat ->
   save_tiff cast path I dtype compressed bundled_axes inMicrons
     ResolutionZ forImageJ
   = Raise (AssertionError "shape mismatch between bundled axes and image.")).
Proof.
  intros Hax. unfold save_tiff.
  replace (if negb (has_char "C"%char bundled_axes)
           then ("C" ++ bundled_axes)%string else bundled_axes) with axes
    by (rewrite Hax; destruct (has_char "C"%char bundled_axes); reflexivity).
  cbv zeta. unfold ndim in *. cbn [shape].
  rewrite pad_shape_eq by lia.
  rewrite length_app, repeat_length. split; intros Hn.
  - replace (String.length axes
             =? String.length axes - length (shape I) + length (shape I))%nat
      with true by (symmetry; apply Nat.eqb_eq; lia).
    cbn [assert bind negb is_NoneType].
    destruct compressed, inMicrons;
      (eexists; eexists; split; [reflexivity|]);
      cbn [shape data call_shape call_data call_compress call_metadata app];
      rewrite size_of_ones, length_app, repeat_length;
      repeat split; try reflexivity; lia.
  - replace (String.length axes - length (shape I))%nat with 0%nat by lia.
    destruct (Nat.eqb_spec (String.length axes) (0 + length (shape I)))
      as [E|_]; [lia | reflexivity].
Qed.

Lemma save_tiff_pads_axes_witness :
  exists I' call,
    save_tiff (fun _ x => x) "a.tif" (mk_ndarray [1; 2]%nat [4; 6]) "uint8"
      true "ZYX" false None false = Ok (I', call)
    /\ shape I' = [1; 1; 1; 2]%nat
    /\ call_metadata call
       = [("axes"%string, MetaStr "CZYX"); ("spacing"%string, MetaNum None)].
Proof.
  destruct (proj1 (save_tiff_pads_axes (fun _ x => x) "a.tif"
                     (mk_ndarray [1; 2]%nat [4; 6]) "uint8" true "ZYX" "CZYX"
                     false None false eq_refl))
    as (I' & call & H & Hs & _ & _ & _ & _ & _ & _ & Hm).
  - unfold ndim; simpl; lia.
  - exists I', call. split; [exact H|]. split; [exact Hs | exact Hm].
Defined.

(** X15.  Writing an image under the type that [get_dtype] names for its
    largest sample, as the callers of [save_tiff] do, writes the samples
    unchanged, provided none is negative or beyond 64 bits.  (numpy
    converts to an unsigned type of w bits modulo 2^w; "uint" has 64
    bits.) *)
Theorem save_tiff_keeps_samples (cast : string -> Z -> Z) (path : string)
    (I : ndarray) (m : Z) (compressed : bool) (bundled_axes : string)
    (inMicrons : bool) (ResolutionZ : option Q) (forImageJ : bool)
    (I' : ndarray) (call : imsave_call) :
  (forall x, cast "uint8"%string x = x mod 2 ^ 8) ->
  (forall x, cast "uint16"%string x = x mod 2 ^ 16) ->
  (forall x, cast "uint"%string x = x mod 2 ^ 64) ->
  (forall x, In x (data I) -> 0 <= x < 2 ^ 64) ->
  amax I = Ok m ->
  save_tiff cast path I (get_dtype m) compressed bundled_axes inMicrons
    ResolutionZ forImageJ = Ok (I', call) ->
  data (call_data call) = data I /\ call_dtype call = get_dtype m.
Proof.
  intros H8 H16 H64 Hrange Hm Hs.
  apply amax_spec in Hm as [_ Hub].
  unfold save_tiff in Hs. cbv zeta in Hs.
  apply bind_Ok in Hs as (u & _ & Hs).
  assert (Hcast : map (cast (get_dtype m)) (data I) = data I).
  { rewrite <- (map_id (data I)) at 2. apply map_ext_in. intros x Hx.
    pose proof (Hrange x Hx) as Hr. pose proof (Hub x Hx) as Hle.
    unfold get_dtype, get_dtype_loop.
    change (2 ^ 8 - 1) with 255. change (2 ^ 16 - 1) with 65535.
    change (format_uint 8) with "uint8"%string.
    change (format_uint 16) with "uint16"%string.
    destruct (Z.leb_spec m 255).
    - rewrite H8. apply Z.mod_small. lia.
    - destruct (Z.leb_spec m 65535).
      + rewrite H16. apply Z.mod_small. lia.
      + rewrite H64. apply Z.mod_small. lia. }
  destruct compressed; inversion Hs; subst; cbn [call_data call_dtype];
    unfold astype; cbn [data]; rewrite Hcast; auto.
Qed.

Lemma save_tiff_keeps_samples_witness :
  data (call_data
          (mk_imsave_call "a.tif"
             (astype (fun x => x mod 2 ^ 16)
                     (mk_ndarray [1; 1; 1; 2]%nat [4; 600]))
             [1; 1; 1; 2]%nat 0 "uint16" false
             [("axes"%string, MetaStr "CZYX");
              ("spacing"%string, MetaNum None)]))
  = [4; 600]
  /\ "uint16"%string = get_dtype 600.
Proof.
  exact (save_tiff_keeps_samples
           (fun t x => if String.eqb t "uint8" then x mod 2 ^ 8
                       else if String.eqb t "uint16" then x mod 2 ^ 16
                       else x mod 2 ^ 64)
           "a.tif" (mk_ndarray [1; 2]%nat [4; 600]) 600 false "ZYX" false
           None false
           (mk_ndarray [1; 1; 1; 2]%nat [4; 600])
           (mk_imsave_call "a.tif"
              (astype (fun x => x mod 2 ^ 16)
                      (mk_ndarray [1; 1; 1; 2]%nat [4; 600]))
              [1; 1; 1; 2]%nat 0 "uint16" false
              [("axes"%string, MetaStr "CZYX");
               ("spacing"%string, MetaNum None)])
           (fun _ => eq_refl) (fun _ => eq_refl) (fun _ => eq_refl)
           ltac:(intros x [<-|[<-|[]]]; lia)
           eq_refl eq_refl).
Defined.

(** ** Relabeling *)

Lemma ImageLabeled_init_Ok (label : ndarray -> ndarray) (pixels : ndarray)
    (path : option string) (img : ImageBase) :
  ImageLabeled_init label pixels path true = Ok img ->
  exists px m,
    extract_nd pixels 4 = Ok px /\ amin px = Ok m /\
    img = mk_ImageBase TZYX None (Some (label (gt_scalar px m))).
Proof.
  intros H. unfold ImageLabeled_init in H.
  apply bind_Ok in H as (self & Hs & H).
  apply ImageBase_init_Ok in Hs as (px & Hx & ->).
  unfold _relabel, the_pixels in H. cbn [_pixels bind] in H.
  apply bind_Ok in H as (m & Hm & H). inversion H; subst.
  exists px, m. repeat split; assumption.
Qed.

Lemma get_gt_scalar (a : ndarray) (v : Z) (i : nat) :
  (i < length (data a))%nat ->
  get (gt_scalar a v) i = if get a i >? v then 1 else 0.
Proof.
  intros Hi. unfold get, gt_scalar. cbn [data].
  rewrite (nth_indep _ 0 ((fun x => if x >? v then 1 else 0) 0))
    by (rewrite length_map; exact Hi).
  apply (map_nth (fun x => if x >? v then 1 else 0)).
Qed.

(** A labelling that gives the label 1 to all the foreground is right
    when the foreground is one region. *)
Lemma binarize_labelling_connected (X : ndarray) :
  (forall i j, (i < length (data X))%nat -> (j < length (data X))%nat ->
               get X i <> 0 -> get X j <> 0 -> connected X i j) ->
  is_labelling X (binarize X).
Proof.
  intros Hone. unfold is_labelling.
  split; [reflexivity|]. split; [apply length_map|]. split; [|split].
  - intros i _. rewrite binarize_get.
    destruct (Z.eqb_spec (get X i) 0); split; intros; congruence || lia.
  - intros i j Hi Hj Hni Hnj. rewrite !binarize_get.
    destruct (Z.eqb_spec (get X i) 0); [contradiction|].
    destruct (Z.eqb_spec (get X j) 0); [contradiction|].
    split; [intros _; apply Hone; assumption | reflexivity].
  - intros i _. fold (get (binarize X) i). rewrite binarize_get.
    pose proof (max_before_nonneg (data (binarize X)) i).
    destruct (get X i =? 0); lia.
Qed.

Lemma touching_labels_labelling :
  labels_correctly binarize (gt_scalar touching_labels 3).
Proof.
  apply binarize_labelling_connected.
  assert (H12 : connected (gt_scalar touching_labels 3) 1 2).
  { apply (connected_step _ 1 1 2); [constructor | simpl; lia | | reflexivity].
    repeat constructor. }
  assert (H21 : connected (gt_scalar touching_labels 3) 2 1).
  { apply (connected_step _ 2 2 1); [constructor | simpl; lia | | reflexivity].
    repeat constructor. }
  intros i j Hi Hj Hni Hnj. cbn [gt_scalar touching_labels data map length] in Hi, Hj.
  destruct i as [|[|[|i]]]; [exfalso; apply Hni; reflexivity | | | lia];
    (destruct j as [|[|[|j]]]; [exfalso; apply Hnj; reflexivity | | | lia]);
    try constructor; assumption.
Qed.

(** X16.  Relabeling (the default of [ImageLabeled]) does not keep the
    labels it is given.  The smallest sample of the image is taken as the
    background, whether it is 0 or not: a voxel is background in the
    result exactly when it holds that smallest sample.  All other voxels
    are foreground of one binary mask, so two neighbouring voxels end up
    in the same region even when they came with different labels.  The
    construction succeeds on every non-empty image of rank at most 4. *)
Theorem relabel_merges_touching_labels (label : ndarray -> ndarray)
    (pixels : ndarray) (path : option string) :
  (forall img, ImageLabeled_init label pixels path true = Ok img ->
     exists px m R,
       extract_nd pixels 4 = Ok px /\ amin px = Ok m /\
       _pixels img = Some R /\
       (labels_correctly label (gt_scalar px m) ->
        shape R = shape px /\
        (forall i, (i < length (data px))%nat ->
                   (get R i = 0 <-> get px i = m)) /\
        (forall i j, (i < length (data px))%nat ->
                     (j < length (data px))%nat ->
                     get px i <> m -> get px j <> m ->
                     adjacent (shape px) i j -> get R i = get R j)))
  /\
  ((ndim pixels <= 4)%nat -> data pixels <> [] ->
   exists img, ImageLabeled_init label pixels path true = Ok img).
Proof.
  split.
  - intros img H. apply ImageLabeled_init_Ok in H as (px & m & Hx & Hm & ->).
    exists px, m, (label (gt_scalar px m)).
    split; [exact Hx|]. split; [exact Hm|]. split; [reflexivity|].
    intros (Hsh & Hlen & H0 & Hpart & _).
    assert (Hl : length (data (gt_scalar px m)) = length (data px))
      by apply length_map.
    rewrite Hl in *.
    apply amin_spec in Hm as [_ Hlb].
    assert (Hfg : forall i, (i < length (data px))%nat ->
                            (get (gt_scalar px m) i = 0 <-> get px i = m)).
    { intros i Hi. rewrite get_gt_scalar by exact Hi.
      pose proof (Hlb (get px i) (nth_In _ _ Hi)) as Hle.
      destruct (Z.gtb_spec (get px i) m); split; intros; lia || discriminate. }
    split; [exact Hsh|]. split.
    + intros i Hi. rewrite (H0 i Hi). apply Hfg; exact Hi.
    + intros i j Hi Hj Hni Hnj Hadj.
      apply (Hpart i j Hi Hj).
      * rewrite (Hfg i Hi). exact Hni.
      * rewrite (Hfg j Hj). exact Hnj.
      * apply (connected_step _ i i j); [constructor | rewrite Hl; exact Hj
                                         | exact Hadj |].
        rewrite !get_gt_scalar by assumption.
        pose proof (Hlb (get px i) (nth_In _ _ Hi)).
        pose proof (Hlb (get px j) (nth_In _ _ Hj)).
        destruct (Z.gtb_spec (get px i) m); [|lia].
        destruct (Z.gtb_spec (get px j) m); [reflexivity | lia].
  - intros Hnd Hne. unfold ImageLabeled_init.
    rewrite ImageBase_init_eq.
    change (String.length TZYX) with 4%nat.
    rewrite (extract_nd_small pixels 4 Hnd). cbn [bind].
    unfold _relabel, the_pixels. cbn [_pixels bind].
    destruct (amin_total pixels Hne) as [m Hm]. rewrite Hm. cbn [bind]. eauto.
Qed.

Lemma relabel_merges_touching_labels_witness :
  exists R,
    ImageLabeled_init binarize touching_labels None true
    = Ok (mk_ImageBase TZYX None (Some R))
    /\ get touching_labels 1 <> get touching_labels 2
    /\ get R 1 = get R 2
    /\ (get R 0 = 0 <-> get touching_labels 0 = 3).
Proof.
  destruct (proj1 (relabel_merges_touching_labels binarize touching_labels None)
              (mk_ImageBase TZYX None
                 (Some (binarize (gt_scalar touching_labels 3)))) eq_refl)
    as (px & m & R & Hx & Hm & HR & H).
  inversion Hx; subst px. inversion Hm; subst m. inversion HR; subst R.
  destruct (H touching_labels_labelling) as (_ & Hbg & Hmerge).
  eexists. split; [reflexivity|]. split; [discriminate|]. split.
  - apply Hmerge; [simpl; lia | simpl; lia | discriminate | discriminate |].
    repeat constructor.
  - apply Hbg. simpl; lia.
Defined.

(** ** The particles of a binary image *)

Lemma ascending_ext (l l' : list Z) :
  ascending l -> ascending l' -> (forall v, In v l <-> In v l') -> l = l'.
Proof.
  revert l'; induction l as [|x l IH]; intros [|y l'] Ha Ha' Hin.
  - reflexivity.
  - exfalso. apply (proj2 (Hin y)). left; reflexivity.
  - exfalso. apply (proj1 (Hin x)). left; reflexivity.
  - destruct Ha as [Hx Ha]. destruct Ha' as [Hy Ha'].
    assert (E : x = y).
    { destruct (proj1 (Hin x) (or_introl eq_refl)) as [E|Hxin]; [auto|].
      destruct (proj2 (Hin y) (or_introl eq_refl)) as [E|Hyin]; [auto|].
      pose proof (Hx y Hyin). pose proof (Hy x Hxin). lia. }
    subst y. f_equal. apply IH; [exact Ha | exact Ha'|].
    intros v. split; intros Hv.
    + destruct (proj1 (Hin v) (or_intror Hv)) as [E|H]; [|exact H].
      pose proof (Hx v Hv). lia.
    + destruct (proj2 (Hin v) (or_intror Hv)) as [E|H]; [|exact H].
      pose proof (Hy v Hv). lia.
Qed.

Lemma ascending_filter (f : Z -> bool) (l : list Z) :
  ascending l -> ascending (filter f l).
Proof.
  induction l as [|x l IH]; cbn [filter ascending]; [auto|].
  intros [Hx Hl]. destruct (f x); cbn [ascending]; [|auto].
  split; [|auto]. intros y Hy. apply filter_In in Hy as [Hy _]. auto.
Qed.

Lemma ascending_seq (s n : nat) : ascending (map Z.of_nat (seq s n)).
Proof.
  revert s; induction n as [|n IH]; intros s; cbn [seq map ascending]; [auto|].
  split; [|apply IH]. intros y Hy. apply in_map_iff in Hy as (k & <- & Hk).
  apply in_seq in Hk. lia.
Qed.

(** The labels of a numbering in order of first appearance are 1, 2, ...
    up to the largest. *)
Lemma numbered_particle_labels (R : ndarray) :
  numbered_in_order (data R) ->
  particle_labels R
  = map Z.of_nat
        (seq 1 (Z.to_nat (max_before (data R) (length (data R))))).
Proof.
  intros Hn. apply ascending_ext.
  - apply ascending_filter, unique_ascending.
  - apply ascending_seq.
  - intros v. unfold particle_labels. rewrite filter_In, unique_In, in_map_iff.
    pose proof (max_before_nonneg (data R) (length (data R))) as HM.
    split.
    + intros [Hin Hnz]. apply In_nth with (d := 0) in Hin as (k & Hk & <-).
      pose proof (Hn k Hk) as [H0 _].
      pose proof (max_before_ge (data R) (length (data R)) k Hk (le_n _)) as Hle.
      destruct (Z.eqb_spec 0 (nth k (data R) 0)); [discriminate|].
      exists (Z.to_nat (nth k (data R) 0)). split; [lia|]. apply in_seq. lia.
    + intros (k & <- & Hk). apply in_seq in Hk.
      destruct (numbered_all_met (data R) (length (data R)) (Z.of_nat k) Hn
                  (le_n _)) as (i & Hi & E); [lia|].
      split.
      * rewrite <- E. apply nth_In. exact Hi.
      * destruct (Z.eqb_spec 0 (Z.of_nat k)); [lia | reflexivity].
Qed.

Lemma Forall2_particle_idx (L : Labeled) (labs : list Z)
    (ps : list ParticleBase) :
  Forall2 (particle_of L) labs ps -> map idx ps = map Some labs.
Proof.
  induction 1 as [|lab p labs ps Hp _ IH]; [reflexivity|].
  cbn [map]. destruct Hp as (-> & _). f_equal. exact IH.
Qed.

(** X17.  The particles found in a binary image are those of its
    relabeling: when the finder returns (skimage's [label] behaving as
    documented on the mask of the samples above the minimum), the
    particles carry the labels 1, 2, ..., n in this order, each with the
    bounding box and the voxel count of its region, and every voxel above
    the minimum belongs to one of them. *)
Theorem binary_finder_numbers_particles (label : ndarray -> ndarray)
    (B : ndarray) (axes : option string) (aspect : list Q)
    (cls : ParticleClass) (ps : list ParticleBase) :
  get_particles_from_binary_image label B axes aspect cls = Ok ps ->
  exists px m,
    extract_nd B 4 = Ok px /\ amin px = Ok m /\
    (labels_correctly label (gt_scalar px m) ->
     map idx ps = map (fun k => Some (Z.of_nat k)) (seq 1 (length ps)) /\
     Forall2 (particle_of (mk_Labeled (label (gt_scalar px m)) axes aspect))
             (map Z.of_nat (seq 1 (length ps))) ps /\
     (forall i, (i < length (data px))%nat -> m < get px i ->
                1 <= get (label (gt_scalar px m)) i <= Z.of_nat (length ps))).
Proof.
  intros H. unfold get_particles_from_binary_image in H.
  apply bind_Ok in H as (L & HL & H).
  apply ImageLabeled_init_Ok in HL as (px & m & Hx & Hm & ->).
  unfold the_pixels in H. cbn [_pixels bind] in H.
  exists px, m. split; [exact Hx|]. split; [exact Hm|].
  intros (Hsh & Hlen & H0 & _ & Hnum).
  set (R := label (gt_scalar px m)) in *.
  assert (Hl : length (data (gt_scalar px m)) = length (data px))
    by apply length_map.
  rewrite Hl in *.
  assert (Hnd : (ndim R <= 4)%nat).
  { unfold ndim. rewrite Hsh. apply (extract_nd_rank B px 4 Hx). }
  unfold get_particles_from_labeled_image in H.
  apply bind_Ok in H as (mn & _ & H). apply bind_Ok in H as (mx & _ & H).
  apply bind_Ok in H as (u & _ & H).
  apply (extract_labels_Ok (mk_Labeled R axes aspect) cls _ [] ps Hnd) in H
    as (ps' & -> & HF).
  cbn [app L_pixels] in *.
  fold (particle_labels R) in HF.
  rewrite (numbered_particle_labels R Hnum) in HF.
  pose proof (Forall2_length HF) as Hn.
  rewrite length_map, length_seq in Hn.
  rewrite <- Hn. split; [|split].
  - rewrite (Forall2_particle_idx _ _ _ HF), map_map. reflexivity.
  - exact HF.
  - intros i Hi Hgt.
    assert (Hnz : get R i <> 0).
    { rewrite (H0 i Hi), get_gt_scalar by exact Hi.
      destruct (Z.gtb_spec (get px i) m); [discriminate | lia]. }
    assert (Hi' : (i < length (data R))%nat) by lia.
    pose proof (Hnum i Hi') as [Hge _]. fold (get R i) in Hge.
    pose proof (max_before_ge (data R) (length (data R)) i Hi' (le_n _)) as Hle.
    fold (get R i) in Hle.
    pose proof (max_before_nonneg (data R) (length (data R))). lia.
Qed.

Lemma binary_finder_numbers_particles_witness :
  exists p,
    get_particles_from_binary_image binarize
      (mk_ndarray [1; 2]%nat [0; 1]) None [1%Q; 1%Q] Particle = Ok [p]
    /\ map idx [p] = [Some 1].
Proof.
  eexists. split; [vm_compute; reflexivity|].
  destruct (binary_finder_numbers_particles binarize
              (mk_ndarray [1; 2]%nat [0; 1]) None [1%Q; 1%Q] Particle _
              eq_refl) as (px & m & Hx & Hm & H).
  inversion Hx; subst px. inversion Hm; subst m.
  apply H. apply binarize_labelling.
  intros i j Hi Hj Hni Hnj. cbn [gt_scalar data map length] in Hi, Hj.
  destruct i as [|[|i]]; [exfalso; apply Hni; reflexivity | | lia].
  destruct j as [|[|j]]; [exfalso; apply Hnj; reflexivity | reflexivity | lia].
Defined.

(** ** Clearing the border of a 2-D image, region by region *)

(** X18.  On a 2-D labeled image border clearing works region by region
    and keeps the labels: a voxel stays foreground exactly when no voxel
    of its region (as skimage's [label] draws the regions) lies on the
    border of the image, and then it keeps the label it had.  A label is
    not renumbered, and voxels of the same label in a region that does not
    touch the border survive. *)
Theorem clearing_2D_is_by_region (label : ndarray -> ndarray)
    (L R : ndarray) :
  ndim L = 2%nat -> labels_correctly label L ->
  clear_XY_borders label L = Ok R ->
  shape R = shape L /\
  forall i, (i < length (data L))%nat ->
    (get R i = 0 \/ get R i = get L i) /\
    (get R i <> 0 <->
     get L i <> 0 /\
     ~ exists j, (j < length (data L))%nat /\
                 on_border (shape L) j = true /\ connected L i j).
Proof.
  intros Hnd Hlab H. unfold clear_XY_borders in H. rewrite Hnd in H.
  cbn [Nat.eqb] in H.
  pose proof Hlab as (_ & Hlen & H0 & Hpart & _).
  split; [exact (proj1 (clear_border_get label L R 0 H Hlen))|].
  intros i Hi.
  destruct (clear_border_get label L R i H Hlen) as (_ & _ & Hg).
  assert (Hb : existsb (Z.eqb (get (label L) i))
                 (unique (select (on_border (shape L)) (data (label L))))
               = true
               <-> exists j, (j < length (data L))%nat /\
                             on_border (shape L) j = true /\
                             get (label L) j = get (label L) i).
  { rewrite existsb_eqb_In, unique_In, In_select_iff, Hlen. reflexivity. }
  destruct (existsb (Z.eqb (get (label L) i))
              (unique (select (on_border (shape L)) (data (label L)))))
    eqn:E; rewrite Hg.
  - split; [left; reflexivity|]. split; [congruence|].
    intros [Hnz Hno]. exfalso. apply Hno.
    destruct (proj1 Hb eq_refl) as (j & Hj & Hbj & Ej).
    exists j. split; [exact Hj|]. split; [exact Hbj|].
    assert (Hnzj : get L j <> 0).
    { intros E0. apply (H0 j Hj) in E0. rewrite Ej in E0.
      apply (H0 i Hi) in E0. contradiction. }
    apply (Hpart i j Hi Hj Hnz Hnzj). congruence.
  - split; [right; reflexivity|]. split.
    + intros Hnz. split; [exact Hnz|].
      intros (j & Hj & Hbj & Hc).
      assert (Htrue : false = true); [|discriminate].
      apply Hb. exists j. split; [exact Hj|]. split; [exact Hbj|].
      pose proof (connected_same_value L i j Hc) as Ev.
      assert (Hnzj : get L j <> 0) by congruence.
      symmetry. apply (Hpart i j Hi Hj Hnz Hnzj). exact Hc.
    + intros [Hnz _]. exact Hnz.
Qed.

Lemma clearing_2D_is_by_region_witness :
  shape (mk_ndarray [3; 3]%nat [0; 0; 0; 0; 5; 0; 0; 0; 0]) = [3; 3]%nat
  /\ clear_XY_borders binarize
       (mk_ndarray [3; 3]%nat [0; 0; 0; 0; 5; 0; 0; 0; 0])
     = Ok (mk_ndarray [3; 3]%nat [0; 0; 0; 0; 5; 0; 0; 0; 0]).
Proof.
  split; [|reflexivity].
  refine (proj1 (clearing_2D_is_by_region binarize
                   (mk_ndarray [3; 3]%nat [0; 0; 0; 0; 5; 0; 0; 0; 0])
                   (mk_ndarray [3; 3]%nat [0; 0; 0; 0; 5; 0; 0; 0; 0])
                   eq_refl _ eq_refl)).
  apply binarize_labelling.
  assert (H : forall i, (i < 9)%nat ->
                get (mk_ndarray [3; 3]%nat [0; 0; 0; 0; 5; 0; 0; 0; 0]) i <> 0 ->
                i = 4%nat).
  { apply (forall_below
             (fun i => get (mk_ndarray [3; 3]%nat [0; 0; 0; 0; 5; 0; 0; 0; 0]) i
                       <> 0 -> i = 4%nat) 9).
    repeat (constructor;
            [intros H; try reflexivity; exfalso; apply H; reflexivity|]).
    constructor. }
  intros i j Hi Hj Hni Hnj. rewrite (H i Hi Hni), (H j Hj Hnj). reflexivity.
Defined.

(** ** The channels of a series *)

Lemma dict_get_set_same {V : Type} (k : string) (v : V)
    (d : list (string * V)) :
  dict_get String.eqb k (dict_set String.eqb k v d) = Some v.
Proof.
  induction d as [|[k' v'] d IH]; cbn [dict_set dict_get].
  - rewrite String.eqb_refl. reflexivity.
  - destruct (String.eqb k k') eqn:E; cbn [dict_get]; rewrite E; auto.
Qed.

Lemma dict_get_set_other {V : Type} (k k2 : string) (v : V)
    (d : list (string * V)) :
  k2 <> k ->
  dict_get String.eqb k2 (dict_set String.eqb k v d)
  = dict_get String.eqb k2 d.
Proof.
  intros Hne. induction d as [|[k' v'] d IH]; cbn [dict_set dict_get].
  - destruct (String.eqb_spec k2 k); [contradiction | reflexivity].
  - destruct (String.eqb_spec k k') as [->|Hk]; cbn [dict_get].
    + destruct (String.eqb_spec k2 k'); [contradiction | reflexivity].
    + rewrite IH. reflexivity.
Qed.

Lemma dict_set_keys {V : Type} (k : string) (v : V) (d : list (string * V)) :
  dict_get String.eqb k d <> None ->
  map fst (dict_set String.eqb k v d) = map fst d.
Proof.
  induction d as [|[k' v'] d IH]; cbn [dict_set dict_get map fst];
    [congruence|].
  destruct (String.eqb k k'); cbn [map fst]; [reflexivity|].
  intros H. rewrite IH by exact H. reflexivity.
Qed.

(** X19.  [get_channel] reads the file of a channel once.  For a channel
    still held as a path it reads the image, stores it in place of the
    path and returns it; from then on it returns that same image without
    consulting the store, whatever has become of the file.  The names of
    the channels and the other channels are unchanged.  A name that is
    not a channel of the series gives [None] and changes nothing; a path
    that is not a file makes the first access fail on the assertion of
    [read_tiff]. *)
Theorem get_channel_reads_once (w : world) (self : Series)
    (channel_name : string) :
  (dict_get String.eqb channel_name (_channels self) = None ->
   get_channel w self channel_name = Ok (self, None))
  /\
  (forall p img,
     dict_get String.eqb channel_name (_channels self) = Some (ChannelPath p) ->
     Image_from_tiff w p = Ok img ->
     exists self',
       get_channel w self channel_name = Ok (self', Some img) /\
       (forall w', get_channel w' self' channel_name = Ok (self', Some img)) /\
       channel_names self' = channel_names self /\
       (forall other, other <> channel_name ->
          dict_get String.eqb other (_channels self')
          = dict_get String.eqb other (_channels self)))
  /\
  (forall p,
     dict_get String.eqb channel_name (_channels self) = Some (ChannelPath p) ->
     isfile w p = false ->
     get_channel w self channel_name
     = Raise (AssertionError ("file not found: '" ++ p ++ "'"))).
Proof.
  split; [|split].
  - intros H. unfold get_channel. rewrite H. reflexivity.
  - intros p img Hp Himg. unfold get_channel, init_channel. rewrite Hp, Himg.
    cbn [bind _channels]. rewrite dict_get_set_same.
    eexists. split; [reflexivity|]. split; [|split].
    + intros w'. cbn [_channels]. rewrite dict_get_set_same. cbn [bind].
      cbn [_channels]. rewrite dict_get_set_same. reflexivity.
    + unfold channel_names. cbn [_channels]. apply dict_set_keys. congruence.
    + intros other Hne. cbn [_channels]. apply dict_get_set_other. exact Hne.
  - intros p Hp Hf. unfold get_channel, init_channel. rewrite Hp.
    unfold Image_from_tiff, read_tiff. rewrite Hf. reflexivity.
Qed.

Lemma get_channel_reads_once_witness :
  exists self',
    get_channel (single_file "dapi.tif" (mk_ndarray [2]%nat [5; 9]))
      (mk_Series 1 [("dapi"%string, ChannelPath "dapi.tif")] None None) "dapi"
    = Ok (self', Some (mk_ImageBase TZYX None (Some (mk_ndarray [2]%nat [5; 9]))))
    /\ get_channel (mk_world (fun _ => false) (fun _ => Raise ValueError))
         self' "dapi"
       = Ok (self', Some (mk_ImageBase TZYX None
                            (Some (mk_ndarray [2]%nat [5; 9])))).
Proof.
  destruct (proj1 (proj2 (get_channel_reads_once
              (single_file "dapi.tif" (mk_ndarray [2]%nat [5; 9]))
              (mk_Series 1 [("dapi"%string, ChannelPath "dapi.tif")] None None)
              "dapi"))
              "dapi.tif"%string
              (mk_ImageBase TZYX None (Some (mk_ndarray [2]%nat [5; 9])))
              eq_refl eq_refl) as (self' & H1 & H2 & _).
  exists self'. split; [exact H1 | apply H2].
Defined.

(** ** Dictionaries *)

Section DictFacts.
Variables (K V : Type) (eqb : K -> K -> bool).
Hypothesis eqb_eq : forall a b, eqb a b = true <-> a = b.

Lemma eqb_refl' (k : K) : eqb k k = true.
Proof. apply eqb_eq. reflexivity. Qed.

Lemma eqb_neq' (a b : K) : a <> b -> eqb a b = false.
Proof.
  intros H. destruct (eqb a b) eqn:E; [|reflexivity].
  apply eqb_eq in E. contradiction.
Qed.

Lemma dget_set_same (k : K) (v : V) (d : list (K * V)) :
  dict_get eqb k (dict_set eqb k v d) = Some v.
Proof.
  induction d as [|[k' v'] d IH]; cbn [dict_set dict_get].
  - rewrite eqb_refl'. reflexivity.
  - destruct (eqb k k') eqn:E; cbn [dict_get]; rewrite E; auto.
Qed.

Lemma dget_set_other (k k2 : K) (v : V) (d : list (K * V)) :
  k2 <> k ->
  dict_get eqb k2 (dict_set eqb k v d) = dict_get eqb k2 d.
Proof.
  intros Hne. induction d as [|[k' v'] d IH]; cbn [dict_set dict_get].
  - rewrite (eqb_neq' _ _ Hne). reflexivity.
  - destruct (eqb k k') eqn:E; cbn [dict_get].
    + apply eqb_eq in E. subst k'. rewrite (eqb_neq' _ _ Hne). reflexivity.
    + rewrite IH. reflexivity.
Qed.

Lemma dget_In_keys (k : K) (d : list (K * V)) :
  dict_get eqb k d <> None <-> In k (map fst d).
Proof.
  induction d as [|[k' v'] d IH]; cbn [dict_get map fst In].
  - split; [congruence | contradiction].
  - destruct (eqb k k') eqn:E.
    + apply eqb_eq in E. subst. split; [auto | congruence].
    + rewrite IH. split; [auto|]. intros [E'|H]; [|exact H].
      subst. rewrite eqb_refl' in E. discriminate.
Qed.

Lemma dkeys_set (k : K) (v : V) (d : list (K * V)) :
  map fst (dict_set eqb k v d)
  = if dict_mem eqb k d then map fst d else map fst d ++ [k].
Proof.
  unfold dict_mem.
  induction d as [|[k' v'] d IH]; cbn [dict_set dict_get map fst app];
    [reflexivity|].
  destruct (eqb k k') eqn:E; cbn [map fst]; [reflexivity|].
  rewrite IH. destruct (dict_get eqb k d); reflexivity.
Qed.

Lemma dict_set_length (k : K) (v : V) (d : list (K * V)) :
  length (dict_set eqb k v d)
  = if dict_mem eqb k d then length d else S (length d).
Proof.
  rewrite <- (length_map fst), dkeys_set.
  destruct (dict_mem eqb k d); rewrite ?length_app, !length_map; cbn [length];
    lia.
Qed.

End DictFacts.

Lemma Z_eqb_eq' (a b : Z) : Z.eqb a b = true <-> a = b.
Proof. apply Z.eqb_eq. Qed.

Lemma String_eqb_eq' (a b : string) : String.eqb a b = true <-> a = b.
Proof. apply String.eqb_eq. Qed.

Lemma find_app {A : Type} (f : A -> bool) (l l' : list A) :
  find f (l ++ l')
  = match find f l with Some x => Some x | None => find f l' end.
Proof.
  induction l as [|x l IH]; [reflexivity|]. cbn [app find].
  destruct (f x); [reflexivity | exact IH].
Qed.

Lemma find_first {A : Type} (f : A -> bool) (l : list A) (p : A) :
  find f l = Some p ->
  f p = true /\
  exists l1 l2, l = l1 ++ p :: l2 /\ forall q, In q l1 -> f q = false.
Proof.
  induction l as [|x l IH]; [discriminate|]. cbn [find].
  destruct (f x) eqn:E.
  - intros H. inversion H; subst. split; [exact E|].
    exists [], l. split; [reflexivity | contradiction].
  - intros H. destruct (IH H) as (Hp & l1 & l2 & -> & Hq).
    split; [exact Hp|]. exists (x :: l1), l2. split; [reflexivity|].
    intros q [<-|Hin]; [exact E | apply Hq; exact Hin].
Qed.

Lemma find_last {A : Type} (f : A -> bool) (l : list A) (p : A) :
  find f (rev l) = Some p ->
  f p = true /\
  exists l1 l2, l = l1 ++ p :: l2 /\ forall q, In q l2 -> f q = false.
Proof.
  intros H. apply find_first in H as (Hp & l1 & l2 & E & Hq).
  split; [exact Hp|]. exists (rev l2), (rev l1). split.
  - rewrite <- (rev_involutive l), E, rev_app_distr. cbn [rev].
    rewrite <- app_assoc. reflexivity.
  - intros q Hin. apply Hq. apply in_rev. exact Hin.
Qed.

Lemma find_none_iff {A : Type} (f : A -> bool) (l : list A) :
  find f l = None <-> forall q, In q l -> f q = false.
Proof.
  split; [apply find_none|].
  induction l as [|x l IH]; [reflexivity|]. intros H. cbn [find].
  rewrite (H x (or_introl eq_refl)). apply IH. intros q Hq. apply H. right; exact Hq.
Qed.

(** ** Reading a directory of series *)

Section FromDirectory.
Variable get_image_details : string -> Z * string.
Variable dpath : string.

Lemma collect_masks_get (ref : option string) (l : list string) :
  forall (M : list (Z * string)) (log : list log_record) (sid : Z),
    dict_get Z.eqb sid
      (fst (collect_masks get_image_details dpath ref l M log))
    = match dict_get Z.eqb sid M with
      | Some m => Some m
      | None =>
          option_map (path_join dpath)
            (find (fun p => (fst (get_image_details p) =? sid)
                            && is_ref (snd (get_image_details p)) ref) l)
      end.
Proof.
  induction l as [|p l IH]; intros M log sid; cbn [collect_masks find].
  - cbn [fst option_map]. destruct (dict_get Z.eqb sid M); reflexivity.
  - destruct (get_image_details p) as [s n] eqn:Ep. cbn [fst snd].
    destruct (is_ref n ref) eqn:Er; cbn [negb].
    + destruct (dict_mem Z.eqb s M) eqn:Em.
      * rewrite IH. destruct (dict_get Z.eqb sid M) eqn:Eg; [reflexivity|].
        destruct (Z.eqb_spec s sid) as [->|Hne]; [|reflexivity].
        unfold dict_mem in Em. rewrite Eg in Em. discriminate.
      * rewrite IH. unfold dict_mem in Em.
        destruct (Z.eqb_spec s sid) as [->|Hne].
        -- rewrite (dget_set_same _ _ _ Z_eqb_eq').
           destruct (dict_get Z.eqb sid M); [discriminate | reflexivity].
        -- rewrite (dget_set_other _ _ _ Z_eqb_eq') by congruence.
           reflexivity.
    + rewrite IH. rewrite andb_false_r. reflexivity.
Qed.

Lemma collect_masks_first (ref : option string) (l : list string)
    (log : list log_record) (sid : Z) (m : string) :
  dict_get Z.eqb sid
    (fst (collect_masks get_image_details dpath ref l [] log)) = Some m ->
  exists p r, ref = Some r /\ m = path_join dpath p /\
              first_with get_image_details (sid, r) l p.
Proof.
  rewrite collect_masks_get. cbn [dict_get].
  destruct (find _ l) as [p|] eqn:Ef; [|discriminate].
  cbn [option_map]. intros H. inversion H; subst m.
  apply find_first in Ef as (Hp & l1 & l2 & -> & Hq).
  apply andb_prop in Hp as [Hs Hr]. apply Z.eqb_eq in Hs.
  destruct ref as [r|]; [|discriminate]. cbn [is_ref] in *.
  apply String.eqb_eq in Hr.
  exists p, r. split; [reflexivity|]. split; [reflexivity|].
  split; [destruct (get_image_details p); cbn [fst snd] in *; congruence|].
  exists l1, l2. split; [reflexivity|].
  intros q Hin E. specialize (Hq q Hin). rewrite E in Hq. cbn [fst snd] in Hq.
  rewrite Z.eqb_refl, String.eqb_refl in Hq. discriminate.
Qed.

Lemma lookup2_step (T : list (Z * list (string * string))) (s : Z)
    (n v : string) (sid : Z) (name : string) :
  lookup2
    (dict_set Z.eqb s
       (dict_set String.eqb n v
          match dict_get Z.eqb s
                  (if negb (dict_mem Z.eqb s T)
                   then dict_set Z.eqb s [] T else T) with
          | Some channels => channels
          | None => []
          end)
       (if negb (dict_mem Z.eqb s T) then dict_set Z.eqb s [] T else T))
    sid name
  = if (s =? sid) && String.eqb n name then Some v else lookup2 T sid name.
Proof.
  unfold lookup2, dict_mem.
  destruct (Z.eqb_spec s sid) as [->|Hne]; cbn [andb].
  - rewrite (dget_set_same _ _ _ Z_eqb_eq').
    destruct (dict_get Z.eqb sid T) as [inner|] eqn:Eg; cbn [negb].
    + rewrite Eg.
      destruct (String.eqb_spec n name) as [->|Hn].
      * apply (dget_set_same _ _ _ String_eqb_eq').
      * apply (dget_set_other _ _ _ String_eqb_eq'). congruence.
    + rewrite (dget_set_same _ _ _ Z_eqb_eq').
      destruct (String.eqb_spec n name) as [->|Hn].
      * apply (dget_set_same _ _ _ String_eqb_eq').
      * rewrite (dget_set_other _ _ _ String_eqb_eq') by congruence.
        reflexivity.
  - rewrite (dget_set_other _ _ _ Z_eqb_eq') by congruence.
    destruct (dict_get Z.eqb s T); cbn [negb]; [reflexivity|].
    rewrite (dget_set_other _ _ _ Z_eqb_eq') by congruence. reflexivity.
Qed.

Lemma collect_channels_get (l : list string) :
  forall (T : list (Z * list (string * string))) (log : list log_record)
         (sid : Z) (name : string),
    lookup2 (fst (collect_channels get_image_details dpath l T log)) sid name
    = match find (fun p => (fst (get_image_details p) =? sid)
                           && String.eqb (snd (get_image_details p)) name)
                 (rev l) with
      | Some p => Some (path_join dpath p)
      | None => lookup2 T sid name
      end.
Proof.
  induction l as [|p l IH]; intros T log sid name;
    cbn [collect_channels rev find]; [reflexivity|].
  destruct (get_image_details p) as [s n] eqn:Ep. cbv zeta.
  rewrite IH, lookup2_step, find_app. cbn [find]. rewrite Ep. cbn [fst snd].
  destruct (find _ (rev l)); [reflexivity|].
  destruct ((s =? sid) && String.eqb n name); reflexivity.
Qed.

Lemma collect_channels_last (l : list string) (log : list log_record)
    (sid : Z) (name v : string) :
  lookup2 (fst (collect_channels get_image_details dpath l [] log)) sid name
  = Some v ->
  exists p, v = path_join dpath p /\
            last_with get_image_details (sid, name) l p.
Proof.
  rewrite collect_channels_get.
  destruct (find _ (rev l)) as [p|] eqn:Ef; [|discriminate].
  intros H. inversion H; subst v.
  apply find_last in Ef as (Hp & l1 & l2 & -> & Hq).
  apply andb_prop in Hp as [Hs Hn]. apply Z.eqb_eq in Hs.
  apply String.eqb_eq in Hn.
  exists p. split; [reflexivity|].
  split; [destruct (get_image_details p); cbn [fst snd] in *; congruence|].
  exists l1, l2. split; [reflexivity|].
  intros q Hin E. specialize (Hq q Hin). rewrite E in Hq. cbn [fst snd] in Hq.
  rewrite Z.eqb_refl, String.eqb_refl in Hq. discriminate.
Qed.

Lemma collect_channels_present (l : list string) (log : list log_record)
    (T : list (Z * list (string * string))) (p : string) :
  In p l ->
  lookup2 (fst (collect_channels get_image_details dpath l T log))
    (fst (get_image_details p)) (snd (get_image_details p)) <> None.
Proof.
  intros Hin. rewrite collect_channels_get.
  destruct (find _ (rev l)) eqn:Ef; [discriminate|].
  exfalso. rewrite find_none_iff in Ef.
  specialize (Ef p (proj1 (in_rev l p) Hin)).
  rewrite Z.eqb_refl, String.eqb_refl in Ef. discriminate.
Qed.

End FromDirectory.

Lemma dict_get_map_value {V W : Type} (f : V -> W) (k : string)
    (d : list (string * V)) :
  dict_get String.eqb k (map (fun kv => (fst kv, f (snd kv))) d)
  = option_map f (dict_get String.eqb k d).
Proof.
  induction d as [|[k' v] d IH]; [reflexivity|].
  cbn [map dict_get fst snd]. destruct (String.eqb k k'); [reflexivity | exact IH].
Qed.

Lemma dict_get_In {K V : Type} (eqb : K -> K -> bool) (k : K) (v : V)
    (d : list (K * V)) :
  dict_get eqb k d = Some v -> exists k', In (k', v) d.
Proof.
  induction d as [|[k' v'] d IH]; [discriminate|]. cbn [dict_get].
  destruct (eqb k k').
  - intros H. inversion H; subst. exists k'. left; reflexivity.
  - intros H. destruct (IH H) as [k2 Hin]. exists k2. right; exact Hin.
Qed.

Lemma nodup_single (l : list nat) :
  length (nodup Nat.eq_dec l) = 1%nat ->
  l <> [] /\ forall x y, In x l -> In y l -> x = y.
Proof.
  intros H. split; [intros ->; discriminate|].
  destruct (nodup Nat.eq_dec l) as [|a [|b r]] eqn:E; try discriminate.
  intros x y Hx Hy.
  apply (nodup_In Nat.eq_dec) in Hx, Hy. rewrite E in Hx, Hy.
  destruct Hx as [<-|[]]. destruct Hy as [<-|[]]. reflexivity.
Qed.

Lemma Forall2_In_l {A B : Type} (R : A -> B -> Prop) (l : list A)
    (l' : list B) (x : A) :
  Forall2 R l l' -> In x l -> exists y, In y l' /\ R x y.
Proof.
  induction 1 as [|a b l l' Hab _ IH]; [contradiction|].
  intros [<-|Hin].
  - exists b. split; [left; reflexivity | exact Hab].
  - destruct (IH Hin) as (y & Hy & HR). exists y. split; [right; exact Hy | exact HR].
Qed.

Lemma Forall2_In_r {A B : Type} (R : A -> B -> Prop) (l : list A)
    (l' : list B) (y : B) :
  Forall2 R l l' -> In y l' -> exists x, In x l /\ R x y.
Proof.
  induction 1 as [|a b l l' Hab _ IH]; [contradiction|].
  intros [<-|Hin].
  - exists a. split; [left; reflexivity | exact Hab].
  - destruct (IH Hin) as (x & Hx & HR). exists x. split; [right; exact Hx | exact HR].
Qed.

Lemma Series_init_Ok (w : world) (gid : string -> Z * string) (ID : Z)
    (cp : list (string * string)) (m : string) (S : Series) :
  Series_init w gid ID cp (Some m) = Ok S ->
  forallb (fun kv => isfile w (snd kv)) cp = true /\
  dict_mem String.eqb (snd (gid m)) cp = true /\
  S = mk_Series ID (map (fun kv => (fst kv, ChannelPath (snd kv))) cp)
        (Some (ChannelPath m)) (Some (snd (gid m))).
Proof.
  unfold Series_init. intros H.
  apply bind_Ok in H as (u & H1 & H). apply assert_Ok in H1.
  cbv zeta in H. apply bind_Ok in H as (u' & H2 & H). apply assert_Ok in H2.
  inversion H. auto.
Qed.

(** The channels recorded for a series, an empty dict when there is
    none. *)
Lemma build_series_Returned (w : world) (gid : string -> Z * string)
    (ref : option string) (M : list (Z * string))
    (T : list (Z * list (string * string))) (keys : list Z) :
  forall (acc : list Series) (log : list log_record) (sl : list Series)
         (log' : list log_record),
    build_series w gid ref M T keys acc log = (Returned sl, log') ->
    exists new,
      sl = acc ++ new /\
      Forall2 (fun sid S =>
                 exists m,
                   dict_get Z.eqb sid M = Some m /\
                   Series_init w gid sid
                     match dict_get Z.eqb sid T with
                     | Some channels => channels
                     | None => []
                     end (Some m) = Ok S)
              keys new.
Proof.
  induction keys as [|sid keys IH]; intros acc log sl log' H;
    cbn [build_series] in H.
  - inversion H; subst. exists []. rewrite app_nil_r. split; [auto | constructor].
  - destruct (dict_get Z.eqb sid M) as [m|] eqn:Em; [|discriminate].
    cbv zeta in H.
    destruct (Series_init w gid sid _ (Some m)) as [S|e] eqn:Es;
      [|discriminate].
    apply IH in H as (new & -> & HF).
    exists (S :: new). rewrite <- app_assoc. split; [reflexivity|].
    constructor; [|exact HF]. exists m. split; [exact Em | exact Es].
Qed.

Lemma build_series_log (w : world) (gid : string -> Z * string)
    (ref : option string) (M : list (Z * string))
    (T : list (Z * list (string * string))) (keys : list Z) :
  forall (acc : list Series) (log : list log_record)
         (out : outcome (list Series)) (log' : list log_record),
    build_series w gid ref M T keys acc log = (out, log') ->
    (forall r, In r log -> In r log') /\
    (out = Exited ->
     exists sid, In sid keys /\ dict_get Z.eqb sid M = None /\
                 In (MissingMask ref sid) log').
Proof.
  induction keys as [|sid keys IH]; intros acc log out log' H;
    cbn [build_series] in H.
  - inversion H; subst. split; [auto | discriminate].
  - destruct (dict_get Z.eqb sid M) as [m|] eqn:Em.
    + cbv zeta in H.
      destruct (Series_init w gid sid _ (Some m)) as [S|e] eqn:Es.
      * apply IH in H as [Hmono Hex]. split; [exact Hmono|].
        intros E. destruct (Hex E) as (s & Hs & Hn & Hl).
        exists s. split; [right; exact Hs | auto].
      * inversion H; subst. split; [auto | discriminate].
    + inversion H; subst. split.
      * intros r Hr. apply in_or_app. left; exact Hr.
      * intros _. exists sid. split; [left; reflexivity|].
        split; [exact Em|]. apply in_or_app. right. left; reflexivity.
Qed.

Section FromDirectoryLogs.
Variable get_image_details : string -> Z * string.
Variable dpath : string.

Lemma collect_channels_app (l1 l2 : list string) :
  forall (T : list (Z * list (string * string))) (log : list log_record),
    collect_channels get_image_details dpath (l1 ++ l2) T log
    = collect_channels get_image_details dpath l2
        (fst (collect_channels get_image_details dpath l1 T log))
        (snd (collect_channels get_image_details dpath l1 T log)).
Proof.
  induction l1 as [|p l1 IH]; intros T log; [reflexivity|].
  cbn [app collect_channels].
  destruct (get_image_details p) as [s n]. cbv zeta. apply IH.
Qed.

Lemma collect_channels_log_mono (l : list string) :
  forall (T : list (Z * list (string * string))) (log : list log_record)
         (r : log_record),
    In r log ->
    In r (snd (collect_channels get_image_details dpath l T log)).
Proof.
  induction l as [|p l IH]; intros T log r Hr; [exact Hr|].
  cbn [collect_channels]. destruct (get_image_details p) as [s n]. cbv zeta.
  apply IH.
  match goal with |- In r (if ?c then _ else _) => destruct c end;
    [apply in_or_app; left; exact Hr | exact Hr].
Qed.

Lemma collect_channels_keys (l : list string) :
  forall (T : list (Z * list (string * string))) (log : list log_record)
         (sid : Z),
    In sid (map fst (fst (collect_channels get_image_details dpath l T log))) ->
    In sid (map fst T) \/
    exists p, In p l /\ fst (get_image_details p) = sid.
Proof.
  induction l as [|p l IH]; intros T log sid H; [left; exact H|].
  cbn [collect_channels] in H.
  destruct (get_image_details p) as [s n] eqn:Ep. cbv zeta in H.
  apply IH in H as [H|(q & Hq & E)].
  - rewrite (dkeys_set _ _ Z.eqb) in H.
    assert (H' : In sid (map fst (if negb (dict_mem Z.eqb s T)
                                  then dict_set Z.eqb s [] T else T))
                 \/ sid = s).
    { match type of H with
      | In _ (if ?c then _ else _) => destruct c
      end; [left; exact H|].
      apply in_app_or in H as [H|[<-|[]]]; [left; exact H | right; reflexivity]. }
    destruct H' as [H'| ->].
    + destruct (dict_mem Z.eqb s T); cbn [negb] in H'; [left; exact H'|].
      rewrite (dkeys_set _ _ Z.eqb) in H'.
      destruct (dict_mem Z.eqb s T).
      * left; exact H'.
      * apply in_app_or in H' as [H'|[<-|[]]]; [left; exact H'|].
        right. exists p. split; [left; reflexivity | rewrite Ep; reflexivity].
    + right. exists p. split; [left; reflexivity | rewrite Ep; reflexivity].
  - right. exists q. split; [right; exact Hq | exact E].
Qed.

Lemma collect_channels_warns (l1 l2 : list string) (p : string)
    (log : list log_record) :
  (exists q, In q l1 /\ get_image_details q = get_image_details p) ->
  In (MultipleChannels (snd (get_image_details p))
                       (fst (get_image_details p)) p)
     (snd (collect_channels get_image_details dpath (l1 ++ p :: l2) [] log)).
Proof.
  intros (q & Hq & E). rewrite collect_channels_app.
  pose proof (collect_channels_present get_image_details dpath l1 log [] q Hq)
    as Hpres.
  rewrite E in Hpres.
  set (T := fst (collect_channels get_image_details dpath l1 [] log)) in *.
  set (lg := snd (collect_channels get_image_details dpath l1 [] log)).
  cbn [collect_channels].
  destruct (get_image_details p) as [s n] eqn:Ep. cbn [fst snd] in *.
  cbv zeta. apply collect_channels_log_mono.
  unfold lookup2 in Hpres.
  destruct (dict_get Z.eqb s T) as [inner|] eqn:Eg; [|congruence].
  assert (Em : dict_mem Z.eqb s T = true) by (unfold dict_mem; rewrite Eg; reflexivity).
  rewrite Em. cbn [negb]. rewrite Eg.
  unfold dict_mem at 1.
  destruct (dict_get String.eqb n inner); [|congruence].
  apply in_or_app. right. left; reflexivity.
Qed.

End FromDirectoryLogs.

(** X20.  When [SeriesList.from_directory] returns, the list is not empty
    and every series in it is built from the files as follows.  Each of
    its channels holds the path, in the directory, of the last file of the
    channel list that encodes this series and channel name (a later file
    replaces an earlier one), and this path is a file.  Its mask is the
    first file of the mask list that encodes this series and the reference
    channel.  Every file of the channel list is accounted for by a channel
    of some series, and all the series have the same number of
    channels. *)
Theorem from_directory_keeps_last_channel (w : world)
    (get_image_details : string -> Z * string) (dpath : string)
    (mask_list channel_list : list string) (ref : option string)
    (log log' : list log_record) (series_list : list Series) :
  from_directory w get_image_details dpath mask_list channel_list ref log
  = (Returned series_list, log') ->
  series_list <> [] /\
  Forall (fun S =>
     (forall name c,
        dict_get String.eqb name (_channels S) = Some c ->
        exists p, c = ChannelPath (path_join dpath p) /\
                  isfile w (path_join dpath p) = true /\
                  last_with get_image_details (_ID S, name) channel_list p) /\
     (exists m r,
        ref = Some r /\
        first_with get_image_details (_ID S, r) mask_list m /\
        _mask S = Some (ChannelPath (path_join dpath m)) /\
        _ref S = Some (snd (get_image_details (path_join dpath m)))))
    series_list /\
  (forall p, In p channel_list ->
     exists S, In S series_list /\ _ID S = fst (get_image_details p) /\
               dict_get String.eqb (snd (get_image_details p)) (_channels S)
               <> None) /\
  (forall S S', In S series_list -> In S' series_list ->
                length (_channels S) = length (_channels S')).
Proof.
  intros H. unfold from_directory in H.
  destruct (collect_masks get_image_details dpath ref mask_list [] log)
    as [M log1] eqn:EM.
  destruct (collect_channels get_image_details dpath channel_list [] log1)
    as [T log2] eqn:ET.
  cbv zeta in H.
  destruct (Nat.eqb_spec
              (length (nodup Nat.eq_dec (map (fun kv => length (snd kv)) T))) 1)
    as [E1|]; cbn [negb] in H; [|discriminate].
  apply build_series_Returned in H as (new & -> & HF). cbn [app].
  apply nodup_single in E1 as [Hne Hall].
  assert (HM : M = fst (collect_masks get_image_details dpath ref mask_list
                          [] log)) by (rewrite EM; reflexivity).
  assert (HT : T = fst (collect_channels get_image_details dpath channel_list
                          [] log1)) by (rewrite ET; reflexivity).
  assert (Hbuilt : forall sid S,
            In sid (map fst T) ->
            (exists m, dict_get Z.eqb sid M = Some m /\
                       Series_init w get_image_details sid
                         match dict_get Z.eqb sid T with
                         | Some channels => channels
                         | None => []
                         end (Some m) = Ok S) ->
            exists inner m,
              dict_get Z.eqb sid T = Some inner /\
              dict_get Z.eqb sid M = Some m /\
              forallb (fun kv => isfile w (snd kv)) inner = true /\
              S = mk_Series sid
                    (map (fun kv => (fst kv, ChannelPath (snd kv))) inner)
                    (Some (ChannelPath m))
                    (Some (snd (get_image_details m)))).
  { intros sid S Hin (m & Hm & Hs).
    apply (dget_In_keys _ _ _ Z_eqb_eq') in Hin.
    destruct (dict_get Z.eqb sid T) as [inner|] eqn:Eg; [|congruence].
    apply Series_init_Ok in Hs as (Hf & _ & ->).
    exists inner, m. auto. }
  split; [|split; [|split]].
  - intros ->. inversion HF as [E|]. apply Hne. 
    destruct T; [reflexivity | discriminate].
  - apply Forall_forall. intros S HS.
    destruct (Forall2_In_r _ _ _ S HF HS) as (sid & Hsid & Hrel).
    destruct (Hbuilt sid S Hsid Hrel) as (inner & m & Eg & Em & Hf & ->).
    cbn [_channels _ID _mask _ref]. split.
    + intros name c Hc. rewrite dict_get_map_value in Hc.
      destruct (dict_get String.eqb name inner) as [v|] eqn:Ev; [|discriminate].
      cbn [option_map] in Hc. inversion Hc; subst c.
      assert (Hl : lookup2 T sid name = Some v)
        by (unfold lookup2; rewrite Eg; exact Ev).
      rewrite HT in Hl. apply collect_channels_last in Hl as (p & -> & Hlast).
      exists p. split; [reflexivity|]. split; [|exact Hlast].
      apply dict_get_In in Ev as (k' & Hin).
      rewrite forallb_forall in Hf. exact (Hf _ Hin).
    + rewrite HM in Em. apply collect_masks_first in Em
        as (p & r & -> & -> & Hfirst).
      exists p, r. auto.
  - intros p Hp.
    pose proof (collect_channels_present get_image_details dpath channel_list
                  log1 [] p Hp) as Hpres.
    rewrite <- HT in Hpres. unfold lookup2 in Hpres.
    destruct (dict_get Z.eqb (fst (get_image_details p)) T) as [inner|] eqn:Eg;
      [|congruence].
    assert (Hin : In (fst (get_image_details p)) (map fst T)).
    { apply (dget_In_keys _ _ _ Z_eqb_eq'). congruence. }
    destruct (Forall2_In_l _ _ _ _ HF Hin) as (S & HS & Hrel).
    destruct (Hbuilt _ S Hin Hrel) as (inner' & m & Eg' & _ & _ & ->).
    exists (mk_Series (fst (get_image_details p))
              (map (fun kv => (fst kv, ChannelPath (snd kv))) inner')
              (Some (ChannelPath m)) (Some (snd (get_image_details m)))).
    split; [exact HS|]. split; [reflexivity|]. cbn [_channels].
    rewrite dict_get_map_value. rewrite Eg in Eg'. inversion Eg'; subst inner'.
    destruct (dict_get String.eqb (snd (get_image_details p)) inner);
      [discriminate | congruence].
  - intros S S' HS HS'.
    destruct (Forall2_In_r _ _ _ S HF HS) as (sid & Hsid & Hrel).
    destruct (Forall2_In_r _ _ _ S' HF HS') as (sid' & Hsid' & Hrel').
    destruct (Hbuilt sid S Hsid Hrel) as (inner & m & Eg & _ & _ & ->).
    destruct (Hbuilt sid' S' Hsid' Hrel') as (inner' & m' & Eg' & _ & _ & ->).
    cbn [_channels]. rewrite !length_map.
    apply dict_get_In in Eg as (k & Hk). apply dict_get_In in Eg' as (k' & Hk').
    apply Hall.
    + apply (in_map (fun kv => length (snd kv))) in Hk. exact Hk.
    + apply (in_map (fun kv => length (snd kv))) in Hk'. exact Hk'.
Qed.

Lemma from_directory_keeps_last_channel_witness :
  from_directory (mk_world (fun _ => true) (fun _ => Raise ValueError))
    (fun _ => (1, "dapi"%string)) "d" ["m.tif"%string]
    ["a.tif"%string; "b.tif"%string] (Some "dapi"%string) []
  = (Returned [mk_Series 1 [("dapi"%string, ChannelPath "d/b.tif")]
                 (Some (ChannelPath "d/m.tif")) (Some "dapi"%string)],
     [MultipleChannels "dapi" 1 "b.tif"])
  /\ [mk_Series 1 [("dapi"%string, ChannelPath "d/b.tif")]
        (Some (ChannelPath "d/m.tif")) (Some "dapi"%string)] <> [].
Proof.
  split; [reflexivity|].
  exact (proj1 (from_directory_keeps_last_channel
                  (mk_world (fun _ => true) (fun _ => Raise ValueError))
                  (fun _ => (1, "dapi"%string)) "d" ["m.tif"%string]
                  ["a.tif"%string; "b.tif"%string] (Some "dapi"%string) []
                  [MultipleChannels "dapi" 1 "b.tif"]
                  [mk_Series 1 [("dapi"%string, ChannelPath "d/b.tif")]
                     (Some (ChannelPath "d/m.tif")) (Some "dapi"%string)]
                  eq_refl)).
Defined.

(** X21.  What [from_directory] reports.  For a file of the channel list
    that comes after another file of the same series and channel it logs
    the warning that names this file as skipped (while, by the statement
    above, a later file is the one that is kept).  It leaves the
    interpreter only after the critical record of a series that has
    channel files but no mask of the reference channel in the mask list.
    With no channel file at all it fails on the assertion about the
    number of channels. *)
Theorem from_directory_reports (w : world)
    (get_image_details : string -> Z * string) (dpath : string)
    (mask_list channel_list : list string) (ref : option string)
    (log log' : list log_record) (out : outcome (list Series)) :
  from_directory w get_image_details dpath mask_list channel_list ref log
  = (out, log') ->
  (forall l1 p l2,
     channel_list = l1 ++ p :: l2 ->
     (exists q, In q l1 /\ get_image_details q = get_image_details p) ->
     In (MultipleChannels (snd (get_image_details p))
                          (fst (get_image_details p)) p) log')
  /\
  (out = Exited ->
   exists sid,
     In (MissingMask ref sid) log' /\
     (exists p, In p channel_list /\ fst (get_image_details p) = sid) /\
     (forall m, In m mask_list ->
        fst (get_image_details m) = sid ->
        is_ref (snd (get_image_details m)) ref = false))
  /\
  (channel_list = [] ->
   out = Raised (AssertionError "inconsistent number of channels")).
Proof.
  intros H. unfold from_directory in H.
  destruct (collect_masks get_image_details dpath ref mask_list [] log)
    as [M log1] eqn:EM.
  destruct (collect_channels get_image_details dpath channel_list [] log1)
    as [T log2] eqn:ET.
  cbv zeta in H.
  assert (HM : M = fst (collect_masks get_image_details dpath ref mask_list
                          [] log)) by (rewrite EM; reflexivity).
  assert (HT : T = fst (collect_channels get_image_details dpath channel_list
                          [] log1)) by (rewrite ET; reflexivity).
  assert (Hwarn : forall l1 p l2,
            channel_list = l1 ++ p :: l2 ->
            (exists q, In q l1 /\ get_image_details q = get_image_details p) ->
            In (MultipleChannels (snd (get_image_details p))
                                 (fst (get_image_details p)) p) log2).
  { intros l1 p l2 E Hq.
    replace log2 with (snd (collect_channels get_image_details dpath
                              channel_list [] log1)) by (rewrite ET; reflexivity).
    rewrite E. apply collect_channels_warns. exact Hq. }
  destruct (Nat.eqb_spec
              (length (nodup Nat.eq_dec (map (fun kv => length (snd kv)) T))) 1)
    as [E1|N1]; cbn [negb] in H.
  - apply build_series_log in H as [Hmono Hexit].
    split; [|split].
    + intros l1 p l2 E Hq. apply Hmono. exact (Hwarn l1 p l2 E Hq).
    + intros Eo. destruct (Hexit Eo) as (sid & Hkey & Hnone & Hrec).
      exists sid. split; [exact Hrec|]. split.
      * rewrite HT in Hkey.
        apply collect_channels_keys in Hkey as [[]|Hp]. exact Hp.
      * intros m Hm Hs. rewrite HM, collect_masks_get in Hnone.
        cbn [dict_get] in Hnone.
        destruct (find _ mask_list) eqn:Ef; [discriminate|].
        rewrite find_none_iff in Ef. specialize (Ef m Hm). cbn beta in Ef.
        rewrite Hs, Z.eqb_refl in Ef. exact Ef.
    + intros ->. cbn [collect_channels] in ET. inversion ET; subst T.
      discriminate E1.
  - inversion H; subst. split; [exact Hwarn|]. split; [discriminate | auto].
Qed.

Lemma from_directory_reports_witness :
  from_directory (mk_world (fun _ => true) (fun _ => Raise ValueError))
    (fun _ => (1, "dapi"%string)) "d" []
    ["a.tif"%string; "b.tif"%string] (Some "dapi"%string) []
  = (Exited, [MultipleChannels "dapi" 1 "b.tif"; MissingMask (Some "dapi"%string) 1])
  /\ In (MultipleChannels "dapi" 1 "b.tif")
        [MultipleChannels "dapi" 1 "b.tif"; MissingMask (Some "dapi"%string) 1].
Proof.
  split; [reflexivity|].
  apply (proj1 (from_directory_reports
                  (mk_world (fun _ => true) (fun _ => Raise ValueError))
                  (fun _ => (1, "dapi"%string)) "d" []
                  ["a.tif"%string; "b.tif"%string] (Some "dapi"%string) []
                  [MultipleChannels "dapi" 1 "b.tif";
                   MissingMask (Some "dapi"%string) 1]
                  Exited eq_refl)
          ["a.tif"%string] "b.tif"%string []).
  - reflexivity.
  - exists "a.tif"%string. split; [left; reflexivity | reflexivity].
Defined.

(** ** Binary images of a fixed rank *)

Lemma extract_nd_rank_eq (I px : ndarray) (n : nat) :
  extract_nd I n = Ok px -> (n <= ndim I)%nat -> ndim px = n.
Proof.
  intros H Hn. destruct (Nat.eq_dec (ndim I) n) as [E|N].
  - rewrite (extract_nd_small I n) in H by lia. inversion H; subst px; exact E.
  - destruct I as [sh d]. unfold extract_nd, ndim in *. cbn [shape] in *.
    assert (Ek : (length sh = n + S (length sh - n - 1))%nat) by lia.
    destruct (in_dec Nat.eq_dec 0%nat (firstn (S (length sh - n - 1)) sh))
      as [Hin|Hnin].
    + rewrite (extract_nd_loop_empty_axis n _ (length sh) sh d Ek) in H;
        [discriminate | lia | exact Hin].
    + rewrite (extract_nd_loop_drops n _ (length sh) sh d Ek) in H.
      * remember (S (length sh - n - 1)) as m eqn:Em.
        inversion H; subst px. cbn [shape]. rewrite length_skipn. lia.
      * lia.
      * apply Forall_forall. intros x Hx.
        destruct x; [contradiction | lia].
Qed.

Lemma ImageBinary2D_init_Ok (pixels : ndarray) (path : option string)
    (b : bool) (img : ImageBase) :
  ImageBinary2D_init pixels path b = Ok img ->
  exists px mask,
    extract_nd pixels 2 = Ok px /\
    (if b then exists m, amin px = Ok m /\ mask = gt_scalar px m
     else mask = px) /\
    amax mask = Ok 1 /\
    img = mk_ImageBase "YX" None (Some mask).
Proof.
  unfold ImageBinary2D_init. intros H.
  apply bind_Ok in H as (self & Hs & H).
  apply ImageBase_init_Ok in Hs as (px & Hx & ->).
  change (String.length "YX") with 2%nat in Hx.
  apply bind_Ok in H as (self & Hr & H).
  apply bind_Ok in H as (mask & Hp & H).
  apply bind_Ok in H as (m & Hm & H).
  apply bind_Ok in H as (u & Ha & H).
  apply assert_Ok in Ha. apply Z.eqb_eq in Ha. subst m. inversion H; subst img.
  exists px. destruct b.
  - unfold _rebinarize, the_pixels in Hr. cbn [_pixels bind] in Hr.
    apply bind_Ok in Hr as (mn & Hmn & Hr). inversion Hr; subst self.
    unfold the_pixels in Hp. cbn [set_pixels _pixels] in Hp.
    inversion Hp; subst mask.
    exists (gt_scalar px mn). repeat split; eauto.
  - inversion Hr; subst self. unfold the_pixels in Hp. cbn [_pixels] in Hp.
    inversion Hp; subst mask. exists px. repeat split; auto.
Qed.

(** X22.  A stack cannot be made a binary image of its own class: the
    constructor of [ImageBinary3D], and with it [ImageBinary3D.from_tiff]
    on any file it can read, raises NameError on [doRebianrize].  A
    binary image of the 2-D class built from an array of rank 2 or more
    holds a mask of rank exactly 2 (the first plane) with largest
    sample 1, on which [close], [open], [dilate] and [erode] always
    apply the operator of skimage.  The 2-D constructor succeeds on every
    array of rank 2 that holds two different samples. *)
Theorem binary_image_classes (pixels : ndarray) (path : option string)
    (doRebinarize : bool) :
  ImageBinary3D_init pixels path doRebinarize
  = Raise (NameError "doRebianrize")
  /\
  (forall w p I, isfile w p = true -> imread w p = Ok I ->
     ImageBinary3D_from_tiff w p = Raise (NameError "doRebianrize"))
  /\
  (forall img, ImageBinary2D_init pixels path doRebinarize = Ok img ->
     (2 <= ndim pixels)%nat ->
     exists mask,
       _pixels img = Some mask /\ ndim mask = 2%nat /\ amax mask = Ok 1 /\
       forall op : morphology,
         ImageBinary_close op img
         = Ok (set_pixels img (Some (op mask (square 3)))) /\
         ImageBinary_open op img
         = Ok (set_pixels img (Some (op mask (square 3)))) /\
         ImageBinary_dilate op img
         = Ok (set_pixels img (Some (op mask (square 3)))) /\
         ImageBinary_erode op img
         = Ok (set_pixels img (Some (op mask (square 3)))))
  /\
  (ndim pixels = 2%nat ->
   (exists x y, In x (data pixels) /\ In y (data pixels) /\ x <> y) ->
   exists img, ImageBinary2D_init pixels path true = Ok img).
Proof.
  split; [reflexivity|]. split; [|split].
  - intros w p I Hf HI. unfold ImageBinary3D_from_tiff, read_tiff.
    rewrite Hf, HI. reflexivity.
  - intros img H Hnd.
    apply ImageBinary2D_init_Ok in H as (px & mask & Hx & Hb & Hm & ->).
    exists mask. split; [reflexivity|].
    assert (Hr : ndim mask = 2%nat).
    { apply extract_nd_rank_eq in Hx; [|exact Hnd].
      destruct doRebinarize; [destruct Hb as (m & _ & ->) | subst mask];
        exact Hx. }
    split; [exact Hr|]. split; [exact Hm|]. intros op.
    unfold ImageBinary_close, ImageBinary_open, ImageBinary_dilate,
      ImageBinary_erode.
    rewrite !(update_pixels_eq _ (mk_ImageBase "YX" None (Some mask)) mask
                eq_refl).
    rewrite closing2_on_mask, opening2_on_mask, dilate_on_mask, erode_on_mask
      by exact Hm.
    rewrite Hr. cbn [Nat.eqb bind]. auto.
  - intros Hnd (x & y & Hx & Hy & Hxy). unfold ImageBinary2D_init.
    rewrite ImageBase_init_eq. change (String.length "YX") with 2%nat.
    rewrite (extract_nd_small pixels 2) by lia. cbn [bind].
    unfold _rebinarize, the_pixels. cbn [_pixels bind].
    assert (Hne : data pixels <> []) by (intros E; rewrite E in Hx; destruct Hx).
    destruct (amin_total pixels Hne) as [mn Hmn]. rewrite Hmn.
    cbn [bind set_pixels _pixels].
    assert (Hmax : amax (gt_scalar pixels mn) = Ok 1).
    { apply amin_spec in Hmn as [Hin Hlb].
      pose proof (Hlb x Hx). pose proof (Hlb y Hy).
      destruct (Z.eq_dec x mn) as [->|Nx].
      - apply (amax_gt_scalar pixels mn y Hy). lia.
      - apply (amax_gt_scalar pixels mn x Hx). lia. }
    rewrite Hmax. cbn [bind assert Z.eqb Pos.eqb]. eauto.
Qed.

Lemma binary_image_classes_witness :
  exists mask,
    _pixels (mk_ImageBase "YX" None (Some (mk_ndarray [1; 2]%nat [0; 1])))
    = Some mask
    /\ ndim mask = 2%nat
    /\ ImageBinary_erode (fun a _ => a)
         (mk_ImageBase "YX" None (Some (mk_ndarray [1; 2]%nat [0; 1])))
       = Ok (set_pixels
               (mk_ImageBase "YX" None (Some (mk_ndarray [1; 2]%nat [0; 1])))
               (Some mask)).
Proof.
  destruct (proj1 (proj2 (proj2 (binary_image_classes
              (mk_ndarray [2; 1; 2]%nat [0; 7; 3; 3]) None true)))
              (mk_ImageBase "YX" None (Some (mk_ndarray [1; 2]%nat [0; 1])))
              eq_refl) as (mask & Hp & Hr & _ & Hop).
  - unfold ndim; simpl; lia.
  - exists mask. split; [exact Hp|]. split; [exact Hr|].
    exact (proj2 (proj2 (proj2 (Hop (fun a _ => a))))).
Defined.
